(** * video-subtitle-remover: region consolidation and task lifecycle

    A shallow embedding of
      - [backend/api/models/timed_subtitle.py]   (module [TimedSubtitle],
        [TimedSubtitleHeap] for the merge pass on objects mutated in place,
        and [TimedSubtitleQueries]),
      - [subtitle_remover_timed.py]              (module [TimedRemover]),
      - [alternative_subtitle_detection.py]      (modules [AltDetect] for
        the analysis of hits and [AltMethods] for the detection methods),
      - [backend/api/gemini]                     (modules [GeminiSampling]
        and [GeminiTimed]),
      - [backend/api/models/task.py] and
        [backend/api/services/task_service.py]   (modules [TaskSvc] and
        [TaskQueries]),
      - [backend/api/services/subtitle_detection_service.py]
                                                 (module [DetectionSvc]),
      - [backend/api/services/video_service.py]  (module [VideoSvc]),
      - [backend/api/routes/task.py] and
        [backend/api/routes/video.py]            (modules [Routes] and
        [QueryRoutes]),
    followed by the properties proved about them.

    Conventions of the embedding.
      - A Python [int] is a [Z]; [//] is [Z.div] (both round towards minus
        infinity), and a zero divisor is an explicit error.
      - A finite Python [float] is the rational [Q] that it denotes, and
        [int(...)] truncates towards zero ([py_int]).  Where an integer
        result depends on the rounding of a float operation (the product
        [fps * 2.5] of the OCR path and of the Gemini parser, the products
        [height * 0.7] and [width * 0.3] and the quotient [w / h] of methods
        1 and 2), the operation gives the double nearest to the exact result
        ([Py.round]: IEEE 754 binary64, ties to even), and [int] of an
        infinite result raises.  The products [fps * 2] and [fps * 3] of the
        edge path and the fixed fractions of the frame of the motion path
        and of the default analysis are taken exactly ([fps * 2] is exact in
        doubles; for [fps * 3] the truncated exact product can be one less
        than the truncated double, as at the double nearest to 70/3).
      - A Python [str] is a [string] (its UTF-8 bytes).
      - The class-level dictionary [TaskService._tasks] is a [gmap] from task
        ids to tasks; [datetime.now()] is an explicit clock argument.
      - Methods that mutate an object return the new value of the object.
      - What OpenCV, the Gemini API, [json.loads] and the file system
        deliver is a parameter of the functions that use it. *)

From Stdlib Require Import ZArith QArith Qround Qminmax Lqa Lia List Bool String Ascii.
From Stdlib Require Import DecimalString Sorted SpecFloat.
From stdpp Require Import base option list gmap strings.
Import ListNotations.

Local Open Scope Z_scope.

(** ** Python primitives *)

Module Py.

(** [int(q)] on a float: truncation towards zero. *)
Definition py_int (q : Q) : Z :=
  if Qle_bool 0 q then Qfloor q else Qceiling q.

(** [a // b] on ints: [None] stands for [ZeroDivisionError]. *)
Definition floordiv (a b : Z) : option Z :=
  if b =? 0 then None else Some (a / b).

(** [str(z)] of an int, as in an f-string. *)
Definition str_of_int (z : Z) : string :=
  NilZero.string_of_int (Z.to_int z).

(** [needle in hay] on strings. *)
Fixpoint str_contains (needle hay : string) : bool :=
  if String.prefix needle hay then true
  else match hay with
       | EmptyString => false
       | String _ hay' => str_contains needle hay'
       end.

(** Truth value of a string: non-empty. *)
Definition str_truthy (s : string) : bool :=
  match s with EmptyString => false | String _ _ => true end.

(** [min(l)] and [max(l)] of a non-empty list of ints ([None]: [ValueError]
    on an empty list). *)
Definition py_min (l : list Z) : option Z :=
  match l with
  | [] => None
  | h :: t => Some (fold_left Z.min t h)
  end.

Definition py_max (l : list Z) : option Z :=
  match l with
  | [] => None
  | h :: t => Some (fold_left Z.max t h)
  end.

(** [np.mean(l)]: the sum divided by the number of elements. *)
Definition np_mean (l : list Q) : Q :=
  (fold_left Qplus l 0%Q / inject_Z (Z.of_nat (length l)))%Q.

(** *** Double precision

    A finite [float] is given by the rational that it denotes.  The result of
    an arithmetic operation on floats is the double (IEEE 754 binary64)
    nearest to the exact result, a tie going to the even mantissa; a result
    that rounds beyond the largest double is an infinity. *)

(** [floor(log2(n / d))]. *)
Definition ilog2 (n d : positive) : Z :=
  let k := Z.log2 (Zpos n) - Z.log2 (Zpos d) in
  if (if 0 <=? k then Zpos d * 2 ^ k <=? Zpos n else Zpos d <=? Zpos n * 2 ^ (- k))
  then k else k - 1.

(** The integer nearest to [N / D], a tie going to the even one
    ([0 <= N], [0 < D]). *)
Definition div_half_even (N D : Z) : Z :=
  let f := N / D in
  match 2 * (N mod D) ?= D with
  | Lt => f
  | Gt => f + 1
  | Eq => if Z.even f then f else f + 1
  end.

(** The double nearest to [n / d]: a mantissa of at most 53 bits times
    [2 ^ e], with [e] at least -1074 (the subnormal numbers); [None] when
    the rounded value reaches [2 ^ 1024]. *)
Definition round_pos (n d : positive) : option Q :=
  let e := Z.max (ilog2 n d - 52) (-1074) in
  if 0 <=? e then
    let v := div_half_even (Zpos n) (Zpos d * 2 ^ e) * 2 ^ e in
    if 2 ^ 1024 <=? v then None else Some (inject_Z v)
  else
    Some (div_half_even (Zpos n * 2 ^ (- e)) (Zpos d) # Z.to_pos (2 ^ (- e))).

Definition double (q : Q) : option Q :=
  match Qnum q with
  | Z0 => Some 0%Q
  | Zpos n => round_pos n (Qden q)
  | Zneg n => option_map Qopp (round_pos n (Qden q))
  end.

(** The value of a float operation: a finite double or an infinity (the
    operations of the source on finite floats give no NaN). *)
Inductive Float :=
  | FFinite (value : Q)
  | FInfinite (negative : bool).

(** The float nearest to the exact result [q]. *)
Definition round (q : Q) : Float :=
  match double q with
  | Some value => FFinite value
  | None => FInfinite (Qnum q <? 0)
  end.

(** A decimal literal of the source, such as [0.7]: the double nearest to
    the decimal. *)
Definition float_literal (decimal : Q) : Q := default 0%Q (double decimal).

(** [a * b] and [a / b] of two floats ([b] not zero for the quotient; the
    true quotient of two ints is rounded in the same way). *)
Definition float_mul (a b : Q) : Float := round (a * b).

(** [float(n)], the conversion that an int undergoes in float arithmetic;
    [None] stands for the [OverflowError] of an int too large for a float. *)
Definition float_of_int (n : Z) : option Q :=
  match round (inject_Z n) with
  | FFinite value => Some value
  | FInfinite _ => None
  end.

(** [int(x)] of a float; [None] stands for the [OverflowError] of an
    infinity. *)
Definition int_of_float (x : Float) : option Z :=
  match x with
  | FFinite value => Some (py_int value)
  | FInfinite _ => None
  end.

(** [n > x] for an int [n] and a float [x]: the comparison is exact. *)
Definition int_gt_float (n : Z) (x : Float) : bool :=
  match x with
  | FFinite value => negb (Qle_bool (inject_Z n) value)
  | FInfinite negative => negative
  end.

(** [int(n * c)] for an int [n] and a float [c]. *)
Definition int_of_scaled (n : Z) (c : Q) : option Z :=
  x ← float_of_int n;
  int_of_float (float_mul x c).

(** [a / b] on ints, [b] not zero: the float nearest to the quotient;
    [None] stands for the [OverflowError] of a quotient too large for a
    float. *)
Definition truediv (a b : Z) : option Q :=
  match round (inject_Z a / inject_Z b) with
  | FFinite value => Some value
  | FInfinite _ => None
  end.

(** [min(l)] and [max(l)] on floats: [None] stands for the [ValueError]
    raised on an empty list. *)
Definition float_min (l : list Q) : option Q :=
  match l with
  | [] => None
  | h :: t => Some (fold_left Qmin t h)
  end.

Definition float_max (l : list Q) : option Q :=
  match l with
  | [] => None
  | h :: t => Some (fold_left Qmax t h)
  end.

(** A [for] loop over [l] whose body may raise: the state after the loop,
    or the first error. *)
Fixpoint for_each {S A} (body : S -> A -> option S) (l : list A) (st : S) : option S :=
  match l with
  | [] => Some st
  | a :: rest => st' ← body st a; for_each body rest st'
  end.

End Py.

(** ** backend/api/models/timed_subtitle.py *)

Module TimedSubtitle.

Record TimedSubtitleRegion := mkRegion {
  start_frame : Z;
  end_frame : Z;
  x : Z;
  y : Z;
  width : Z;
  height : Z;
  confidence : Q;
  text_content : string
}.

Record TimedSubtitleAnalysis := mkAnalysis {
  has_subtitles : bool;
  subtitle_type : string;
  timed_regions : list TimedSubtitleRegion;
  total_frames : Z;
  fps : Q
}.

(** [get_bbox]: (xmin, xmax, ymin, ymax). *)
Definition get_bbox (r : TimedSubtitleRegion) : Z * Z * Z * Z :=
  (x r, x r + width r, y r, y r + height r).

Definition contains_frame (r : TimedSubtitleRegion) (frame_no : Z) : bool :=
  (start_frame r <=? frame_no) && (frame_no <=? end_frame r).

(** [sorted(regions, key=lambda r: r.start_frame)]: Python's sort is stable;
    so is this insertion sort (an element is placed before the elements of
    equal key that followed it in the input). *)
Fixpoint insert_by_start (r : TimedSubtitleRegion) (l : list TimedSubtitleRegion)
  : list TimedSubtitleRegion :=
  match l with
  | [] => [r]
  | h :: t =>
      if start_frame r <=? start_frame h then r :: h :: t
      else h :: insert_by_start r t
  end.

Fixpoint sorted_by_start (l : list TimedSubtitleRegion) : list TimedSubtitleRegion :=
  match l with
  | [] => []
  | r :: t => insert_by_start r (sorted_by_start t)
  end.

(** The test of lines 87-97: spatial similarity and temporal closeness of
    [region] to [last_region]. *)
Definition can_merge (time_threshold : Z) (last_region region : TimedSubtitleRegion) : bool :=
  let x_diff := Z.abs (x region - x last_region) in
  let y_diff := Z.abs (y region - y last_region) in
  let w_diff := Z.abs (width region - width last_region) in
  let h_diff := Z.abs (height region - height last_region) in
  let time_gap := start_frame region - end_frame last_region in
  (x_diff <=? 20) && (y_diff <=? 20) &&
  (w_diff <=? 30) && (h_diff <=? 20) &&
  (time_gap <=? time_threshold).

(** The assignments of lines 99-104 to [last_region]. *)
Definition absorb (last_region region : TimedSubtitleRegion) : TimedSubtitleRegion :=
  {| start_frame := start_frame last_region;
     end_frame := end_frame region;
     x := x last_region;
     y := y last_region;
     width := width last_region;
     height := height last_region;
     confidence := ((confidence last_region + confidence region) / 2)%Q;
     text_content :=
       if Py.str_truthy (text_content region) &&
          negb (Py.str_contains (text_content region) (text_content last_region))
       then text_content last_region +:+ " | " +:+ text_content region
       else text_content last_region |}.

(** One iteration of the loop of lines 78-106 on the list [merged]. *)
Definition merge_step (time_threshold : Z)
  (merged : list TimedSubtitleRegion) (region : TimedSubtitleRegion)
  : list TimedSubtitleRegion :=
  match last merged with
  | None => merged ++ [region]
  | Some last_region =>
      if can_merge time_threshold last_region region
      then removelast merged ++ [absorb last_region region]
      else merged ++ [region]
  end.

(** [merge_overlapping_regions] on the region list: the new value of
    [self.timed_regions]. *)
Definition merge_regions (time_threshold : Z) (regions : list TimedSubtitleRegion)
  : list TimedSubtitleRegion :=
  match regions with
  | [] => regions
  | _ => fold_left (merge_step time_threshold) (sorted_by_start regions) []
  end.

Definition merge_overlapping_regions (time_threshold : Z) (self : TimedSubtitleAnalysis)
  : TimedSubtitleAnalysis :=
  {| has_subtitles := has_subtitles self;
     subtitle_type := subtitle_type self;
     timed_regions := merge_regions time_threshold (timed_regions self);
     total_frames := total_frames self;
     fps := fps self |}.

(** The default value of the parameter [time_threshold]. *)
Definition default_time_threshold : Z := 10.

End TimedSubtitle.

(** *** The same pass on objects in a store

    [merge_overlapping_regions] assigns to the fields of [last_region], an
    object that [merged] and the caller's list share.  Here a region list is
    a list of addresses into a store of region objects, and a merge updates
    the object at the address of [last_region] in place. *)

Module TimedSubtitleHeap.

Import TimedSubtitle.

#[export] Instance region_inhabited : Inhabited TimedSubtitleRegion :=
  populate (mkRegion 0 0 0 0 0 0 0 "").

(** The store of region objects, by address. *)
Abbreviation Heap := (gmap nat TimedSubtitleRegion).

(** The object at an address. *)
Definition deref (h : Heap) (ref : nat) : TimedSubtitleRegion := h !!! ref.

(** [sorted(self.timed_regions, key=lambda r: r.start_frame)] on addresses. *)
Fixpoint insert_ref (h : Heap) (ref : nat) (l : list nat) : list nat :=
  match l with
  | [] => [ref]
  | a :: t =>
      if start_frame (deref h ref) <=? start_frame (deref h a) then ref :: a :: t
      else a :: insert_ref h ref t
  end.

Fixpoint sorted_refs (h : Heap) (l : list nat) : list nat :=
  match l with
  | [] => []
  | ref :: t => insert_ref h ref (sorted_refs h t)
  end.

(** One iteration of the loop; the state is the store and [merged]. *)
Definition merge_step_heap (time_threshold : Z)
  (st : Heap * list nat) (ref : nat) : Heap * list nat :=
  let '(h, merged) := st in
  match last merged with
  | None => (h, merged ++ [ref])
  | Some last_ref =>
      let region := deref h ref in
      let last_region := deref h last_ref in
      if can_merge time_threshold last_region region
      then (<[last_ref := absorb last_region region]> h, merged)
      else (h, merged ++ [ref])
  end.

(** [merge_overlapping_regions]: the store and the value of
    [self.timed_regions] after the call. *)
Definition merge_heap (time_threshold : Z) (h : Heap) (refs : list nat)
  : Heap * list nat :=
  match refs with
  | [] => (h, refs)
  | _ => fold_left (merge_step_heap time_threshold) (sorted_refs h refs) (h, [])
  end.

End TimedSubtitleHeap.

(** ** alternative_subtitle_detection.py *)

Module AltDetect.

Import TimedSubtitle.

(** The attributes of [AlternativeSubtitleDetector] set by [__init__] that the
    analysis methods read. *)
Record Detector := mkDetector {
  self_width : Z;
  self_height : Z;
  self_fps : Q;
  self_total_frames : Z
}.

(** A detection hit: the dictionary appended to [detected_regions] (OCR) or
    [subtitle_regions] (edges).  Only the keys that the analysis methods read
    are kept; an edge hit carries no text or confidence, and neither is read
    on that path. *)
Module Hit.
Record t := mk {
  frame_no : Z;
  x : Z;
  y : Z;
  width : Z;
  height : Z;
  text : string;
  confidence : Q
}.
End Hit.

(** A change event: the dictionary appended to [subtitle_changes]. *)
Module Change.
Record t := mk {
  frame_no : Z;
  change_ratio : Q;
  prev_frame_no : Z
}.
End Change.

(** A motion segment: the dictionary appended to [subtitle_segments]
    (the key ['end'] is spelled [end_]). *)
Module Segment.
Record t := mk {
  start : Z;
  end_ : Z;
  changes : Z
}.
End Segment.

Definition _create_empty_analysis (self : Detector) : TimedSubtitleAnalysis :=
  {| has_subtitles := false;
     subtitle_type := "hard";
     timed_regions := [];
     total_frames := self_total_frames self;
     fps := self_fps self |}.

(** The analysis returned at the end of each method. *)
Definition make_analysis (self : Detector) (regions : list TimedSubtitleRegion)
  : TimedSubtitleAnalysis :=
  {| has_subtitles := (0 <? Z.of_nat (length regions));
     subtitle_type := "hard";
     timed_regions := regions;
     total_frames := self_total_frames self;
     fps := self_fps self |}.

(** *** [_cluster_regions] *)

(** The comparison of lines 412-420 between the seed [region1] and [region2]. *)
Definition close_to (distance_threshold : Z) (region1 region2 : Hit.t) : bool :=
  let x_diff := Z.abs (Hit.x region1 - Hit.x region2) in
  let y_diff := Z.abs (Hit.y region1 - Hit.y region2) in
  let w_diff := Z.abs (Hit.width region1 - Hit.width region2) in
  let h_diff := Z.abs (Hit.height region1 - Hit.height region2) in
  (x_diff <? distance_threshold) && (y_diff <? distance_threshold) &&
  (w_diff <? distance_threshold) && (h_diff <? distance_threshold).

(** [enumerate(regions)]. *)
Definition enumerate {A} (l : list A) : list (nat * A) := imap pair l.

(** One iteration of the inner loop (lines 407-422); the state is
    [(cluster, used)]. *)
Definition cluster_inner_step (distance_threshold : Z) (region1 : Hit.t)
  (st : list Hit.t * gset nat) (jr : nat * Hit.t) : list Hit.t * gset nat :=
  let '(cluster, used) := st in
  let '(j, region2) := jr in
  if decide (j ∈ used) then st
  else if close_to distance_threshold region1 region2
       then (cluster ++ [region2], used ∪ {[j]})
       else st.

(** One iteration of the outer loop (lines 400-425); the state is
    [(clusters, used)]. *)
Definition cluster_outer_step (distance_threshold : Z) (regions : list Hit.t)
  (st : list (list Hit.t) * gset nat) (ir : nat * Hit.t)
  : list (list Hit.t) * gset nat :=
  let '(clusters, used) := st in
  let '(i, region1) := ir in
  if decide (i ∈ used) then st
  else
    let '(cluster, used') :=
      fold_left (cluster_inner_step distance_threshold region1)
                (enumerate regions) ([region1], used ∪ {[i]}) in
    if (0 <? Z.of_nat (length cluster))
    then (clusters ++ [cluster], used')
    else (clusters, used').

Definition _cluster_regions (regions : list Hit.t) (distance_threshold : Z)
  : list (list Hit.t) :=
  match regions with
  | [] => []
  | _ => fst (fold_left (cluster_outer_step distance_threshold regions)
                        (enumerate regions) ([], ∅))
  end.

Definition default_distance_threshold : Z := 50.

(** *** [_analyze_ocr_results] *)

(** The body of the loop over clusters (lines 246-273).  [None] stands for
    the [ValueError] of [min]/[max] on an empty list and for the
    [OverflowError] of [int] on a product [self.fps * 2.5] that is infinite;
    the product is the double nearest to the exact one. *)
Definition ocr_region_of_cluster (self : Detector) (cluster : list Hit.t)
  : option TimedSubtitleRegion :=
  let frames := map Hit.frame_no cluster in
  start_frame ← Py.py_min frames;
  end_frame ← Py.py_max frames;
  let avg_x := Py.py_int (Py.np_mean (map (fun r => inject_Z (Hit.x r)) cluster)) in
  let avg_y := Py.py_int (Py.np_mean (map (fun r => inject_Z (Hit.y r)) cluster)) in
  let avg_w := Py.py_int (Py.np_mean (map (fun r => inject_Z (Hit.width r)) cluster)) in
  let avg_h := Py.py_int (Py.np_mean (map (fun r => inject_Z (Hit.height r)) cluster)) in
  let avg_conf := Py.np_mean (map Hit.confidence cluster) in
  duration_frames ← Py.int_of_float (Py.float_mul (self_fps self) (5 # 2));
  let expanded_start := Z.max 0 (start_frame - duration_frames / 2) in
  let expanded_end := Z.min (self_total_frames self - 1) (end_frame + duration_frames / 2) in
  Some {| start_frame := expanded_start;
          end_frame := expanded_end;
          x := avg_x;
          y := avg_y;
          width := avg_w;
          height := avg_h;
          confidence := avg_conf;
          text_content :=
            "OCR检测区域 (帧" +:+ Py.str_of_int start_frame +:+ "-" +:+
            Py.str_of_int end_frame +:+ ")" |}.

Definition _analyze_ocr_results (self : Detector) (regions : list Hit.t)
  : option TimedSubtitleAnalysis :=
  match regions with
  | [] => Some (_create_empty_analysis self)
  | _ =>
      let clustered_regions := _cluster_regions regions default_distance_threshold in
      timed_regions ← mapM (ocr_region_of_cluster self) clustered_regions;
      Some (make_analysis self timed_regions)
  end.

(** *** [_analyze_edge_results] *)

(** [time_groups], a dictionary iterated in insertion order, as an
    association list.  [group_append k r] is
    [if k not in time_groups: time_groups[k] = []] followed by
    [time_groups[k].append(r)]. *)
Fixpoint group_append (time_key : Z) (region : Hit.t)
  (time_groups : list (Z * list Hit.t)) : list (Z * list Hit.t) :=
  match time_groups with
  | [] => [(time_key, [region])]
  | (k, group) :: rest =>
      if k =? time_key then (k, group ++ [region]) :: rest
      else (k, group) :: group_append time_key region rest
  end.

(** One iteration of the grouping loop (lines 290-294); [None] is the
    [ZeroDivisionError] of [//]. *)
Definition edge_group_step (self : Detector)
  (time_groups : list (Z * list Hit.t)) (region : Hit.t)
  : option (list (Z * list Hit.t)) :=
  time_key ← Py.floordiv (Hit.frame_no region) (Py.py_int (self_fps self * 2)%Q);
  Some (group_append time_key region time_groups).

(** The grouping loop, stopped by the first error. *)
Fixpoint edge_group_loop (self : Detector)
  (time_groups : list (Z * list Hit.t)) (regions : list Hit.t)
  : option (list (Z * list Hit.t)) :=
  match regions with
  | [] => Some time_groups
  | region :: rest =>
      time_groups' ← edge_group_step self time_groups region;
      edge_group_loop self time_groups' rest
  end.

(** The body of the loop over groups for a group that passed the test
    [len(group) >= 2] (lines 299-324). *)
Definition edge_region_of_group (self : Detector) (group : list Hit.t)
  : option TimedSubtitleRegion :=
  let frames := map Hit.frame_no group in
  start_frame ← Py.py_min frames;
  end_frame ← Py.py_max frames;
  min_x ← Py.py_min (map Hit.x group);
  max_x ← Py.py_max (map (fun r => Hit.x r + Hit.width r) group);
  min_y ← Py.py_min (map Hit.y group);
  max_y ← Py.py_max (map (fun r => Hit.y r + Hit.height r) group);
  let duration_frames := Py.py_int (self_fps self * 3)%Q in
  let expanded_start := Z.max 0 (start_frame - duration_frames / 2) in
  let expanded_end := Z.min (self_total_frames self - 1) (end_frame + duration_frames / 2) in
  Some {| start_frame := expanded_start;
          end_frame := expanded_end;
          x := min_x;
          y := min_y;
          width := max_x - min_x;
          height := max_y - min_y;
          confidence := (7 # 10)%Q;
          text_content :=
            "边缘检测区域 (帧" +:+ Py.str_of_int start_frame +:+ "-" +:+
            Py.str_of_int end_frame +:+ ")" |}.

Definition _analyze_edge_results (self : Detector) (regions : list Hit.t)
  : option TimedSubtitleAnalysis :=
  match regions with
  | [] => Some (_create_empty_analysis self)
  | _ =>
      time_groups ← edge_group_loop self [] regions;
      timed_regions ←
        mapM (edge_region_of_group self)
             (filter (fun group => 2 <= Z.of_nat (length group)) (map snd time_groups));
      Some (make_analysis self timed_regions)
  end.

(** *** [_analyze_motion_results] *)

(** One iteration of the loop over [changes] (lines 343-358); the state is
    [(subtitle_segments, current_start)]. *)
Definition motion_step (self : Detector)
  (st : list Segment.t * option Z) (change : Change.t)
  : list Segment.t * option Z :=
  let '(subtitle_segments, current_start) := st in
  let current_start :=
    match current_start with
    | None => Some (Change.frame_no change)
    | Some _ => current_start
    end in
  match last subtitle_segments with
  | None => (subtitle_segments, current_start)
  | Some last_segment =>
      let last_end := Segment.end_ last_segment in
      if negb (Qle_bool (inject_Z (Change.frame_no change - last_end))
                        (self_fps self * 5)%Q)
      then
        match current_start with
        | Some cs =>
            (subtitle_segments ++
               [{| Segment.start := cs;
                   Segment.end_ := Change.frame_no change;
                   Segment.changes := 1 |}],
             Some (Change.frame_no change))
        | None => (subtitle_segments, current_start)
        end
      else (subtitle_segments, current_start)
  end.

(** Lines 340-366: the list [subtitle_segments] after the loop and the
    handling of the last segment. *)
Definition motion_segments (self : Detector) (changes : list Change.t)
  : list Segment.t :=
  let '(subtitle_segments, current_start) :=
    fold_left (motion_step self) changes ([], None) in
  match current_start, last changes with
  | Some cs, Some last_change =>
      subtitle_segments ++
        [{| Segment.start := cs;
            Segment.end_ := Change.frame_no last_change;
            Segment.changes := Z.of_nat (length changes) |}]
  | _, _ => subtitle_segments
  end.

(** The region built for a segment that passed the test
    [segment['changes'] >= 2] (lines 372-381). *)
Definition motion_region_of_segment (self : Detector) (segment : Segment.t)
  : TimedSubtitleRegion :=
  {| start_frame := Segment.start segment;
     end_frame := Segment.end_ segment;
     x := Py.py_int (inject_Z (self_width self) * (1 # 10))%Q;
     y := Py.py_int (inject_Z (self_height self) * (8 # 10))%Q;
     width := Py.py_int (inject_Z (self_width self) * (8 # 10))%Q;
     height := Py.py_int (inject_Z (self_height self) * (15 # 100))%Q;
     confidence := (6 # 10)%Q;
     text_content :=
       "运动检测区域 (帧" +:+ Py.str_of_int (Segment.start segment) +:+ "-" +:+
       Py.str_of_int (Segment.end_ segment) +:+ ")" |}.

Definition _analyze_motion_results (self : Detector) (changes : list Change.t)
  : TimedSubtitleAnalysis :=
  match changes with
  | [] => _create_empty_analysis self
  | _ =>
      let subtitle_segments := motion_segments self changes in
      let timed_regions :=
        map (motion_region_of_segment self)
            (filter (fun segment => 2 <= Segment.changes segment) subtitle_segments) in
      make_analysis self timed_regions
  end.

End AltDetect.

(** ** backend/api/models/task.py and backend/api/services/task_service.py *)

Module TaskSvc.

Inductive TaskStatus :=
  | PENDING
  | DETECTING
  | PROCESSING
  | COMPLETED
  | FAILED.

#[export] Instance TaskStatus_eq_dec : EqDecision TaskStatus.
Proof. solve_decision. Defined.

(** [TaskStatus.value]. *)
Definition status_value (s : TaskStatus) : string :=
  match s with
  | PENDING => "pending"
  | DETECTING => "detecting"
  | PROCESSING => "processing"
  | COMPLETED => "completed"
  | FAILED => "failed"
  end.

Inductive AlgorithmType :=
  | STTN
  | LAMA
  | PROPAINTER.

(** A number of a region entry as [json.loads] delivers it: an [int], a
    finite [float] (the rational that the double denotes), an infinity
    (from [1e999], [Infinity] or [-Infinity] in the text) or a NaN. *)
Inductive JNum :=
  | JInt (z : Z)
  | JFloat (q : Q)
  | JInfinity (negative : bool)
  | JNaN.

(** [int(coord)]; [None] stands for the [OverflowError] of an infinity and
    the [ValueError] of a NaN. *)
Definition int_of_jnum (n : JNum) : option Z :=
  match n with
  | JInt z => Some z
  | JFloat q => Some (Py.py_int q)
  | JInfinity _ | JNaN => None
  end.

(** A moment of [datetime]: seconds since some epoch. *)
Definition datetime := Z.

Record Task := mkTask {
  id : string;
  status : TaskStatus;
  progress : Q;
  algorithm : AlgorithmType;
  original_filename : string;
  file_path : option string;
  output_path : option string;
  output_filename : option string;
  created_at : datetime;
  started_at : option datetime;
  completed_at : option datetime;
  error_message : option string;
  subtitle_regions : option (list (list JNum));
  config_override : option (list (string * string));
  file_size : option Z;
  duration : option Q;
  auto_detect_subtitles : option bool
}.

Record TaskCreate := mkTaskCreate {
  tc_algorithm : AlgorithmType;
  tc_subtitle_regions : option (list (list JNum));
  tc_config_override : option (list (string * string));
  tc_auto_detect_subtitles : option bool
}.

(** [TaskService._tasks]. *)
Abbreviation Tasks := (gmap string Task).

(** Field assignments [task.f = v]. *)
Definition set_status (v : TaskStatus) (t : Task) : Task :=
  mkTask (id t) v (progress t) (algorithm t) (original_filename t) (file_path t)
         (output_path t) (output_filename t) (created_at t) (started_at t)
         (completed_at t) (error_message t) (subtitle_regions t)
         (config_override t) (file_size t) (duration t) (auto_detect_subtitles t).

Definition set_progress (v : Q) (t : Task) : Task :=
  mkTask (id t) (status t) v (algorithm t) (original_filename t) (file_path t)
         (output_path t) (output_filename t) (created_at t) (started_at t)
         (completed_at t) (error_message t) (subtitle_regions t)
         (config_override t) (file_size t) (duration t) (auto_detect_subtitles t).

Definition set_output_path (v : string) (t : Task) : Task :=
  mkTask (id t) (status t) (progress t) (algorithm t) (original_filename t) (file_path t)
         (Some v) (output_filename t) (created_at t) (started_at t)
         (completed_at t) (error_message t) (subtitle_regions t)
         (config_override t) (file_size t) (duration t) (auto_detect_subtitles t).

Definition set_output_filename (v : string) (t : Task) : Task :=
  mkTask (id t) (status t) (progress t) (algorithm t) (original_filename t) (file_path t)
         (output_path t) (Some v) (created_at t) (started_at t)
         (completed_at t) (error_message t) (subtitle_regions t)
         (config_override t) (file_size t) (duration t) (auto_detect_subtitles t).

Definition set_started_at (v : datetime) (t : Task) : Task :=
  mkTask (id t) (status t) (progress t) (algorithm t) (original_filename t) (file_path t)
         (output_path t) (output_filename t) (created_at t) (Some v)
         (completed_at t) (error_message t) (subtitle_regions t)
         (config_override t) (file_size t) (duration t) (auto_detect_subtitles t).

Definition set_completed_at (v : datetime) (t : Task) : Task :=
  mkTask (id t) (status t) (progress t) (algorithm t) (original_filename t) (file_path t)
         (output_path t) (output_filename t) (created_at t) (started_at t)
         (Some v) (error_message t) (subtitle_regions t)
         (config_override t) (file_size t) (duration t) (auto_detect_subtitles t).

Definition set_error_message (v : string) (t : Task) : Task :=
  mkTask (id t) (status t) (progress t) (algorithm t) (original_filename t) (file_path t)
         (output_path t) (output_filename t) (created_at t) (started_at t)
         (completed_at t) (Some v) (subtitle_regions t)
         (config_override t) (file_size t) (duration t) (auto_detect_subtitles t).

Definition set_subtitle_regions (v : list (list JNum)) (t : Task) : Task :=
  mkTask (id t) (status t) (progress t) (algorithm t) (original_filename t) (file_path t)
         (output_path t) (output_filename t) (created_at t) (started_at t)
         (completed_at t) (error_message t) (Some v)
         (config_override t) (file_size t) (duration t) (auto_detect_subtitles t).

(** [if v is not None: task.f = v]. *)
Definition assign_if_given {A} (set : A -> Task -> Task) (v : option A) (t : Task) : Task :=
  match v with
  | Some a => set a t
  | None => t
  end.

(** [create_task]; [now] is the value of [datetime.now()] taken by the
    default factory of [created_at]. *)
Definition create_task (tasks : Tasks) (now : datetime)
  (task_id : string) (task_create : TaskCreate)
  (original_filename : string) (file_path : string)
  (file_size : option Z) (duration : option Q) : Tasks * Task :=
  let task :=
    {| id := task_id;
       status := PENDING;
       progress := 0%Q;
       algorithm := tc_algorithm task_create;
       original_filename := original_filename;
       file_path := Some file_path;
       output_path := None;
       output_filename := None;
       created_at := now;
       started_at := None;
       completed_at := None;
       error_message := None;
       subtitle_regions := tc_subtitle_regions task_create;
       config_override := tc_config_override task_create;
       file_size := file_size;
       duration := duration;
       auto_detect_subtitles := tc_auto_detect_subtitles task_create |} in
  (<[task_id := task]> tasks, task).

Definition get_task (tasks : Tasks) (task_id : string) : option Task :=
  tasks !! task_id.

(** Lines 88-92: the time stamps; [now] is the value of [datetime.now()]. *)
Definition stamp (now : datetime) (status : TaskStatus) (task : Task) : Task :=
  if bool_decide (status = PROCESSING) && bool_decide (started_at task = None)
  then set_started_at now task
  else if bool_decide (status = COMPLETED) || bool_decide (status = FAILED)
       then set_completed_at now task
       else task.

(** Lines 78-92 on the task found in the store. *)
Definition apply_status_update (now : datetime) (status : TaskStatus)
  (progress : option Q) (error_message output_path output_filename : option string)
  (task : Task) : Task :=
  let task := set_status status task in
  let task := assign_if_given set_progress progress task in
  let task := assign_if_given set_error_message error_message task in
  let task := assign_if_given set_output_path output_path task in
  let task := assign_if_given set_output_filename output_filename task in
  stamp now status task.

(** [update_task_status]: the new store and the returned value. *)
Definition update_task_status (tasks : Tasks) (now : datetime)
  (task_id : string) (status : TaskStatus)
  (progress : option Q) (error_message output_path output_filename : option string)
  : Tasks * option Task :=
  match tasks !! task_id with
  | None => (tasks, None)
  | Some task =>
      let task' := apply_status_update now status progress error_message
                                       output_path output_filename task in
      (<[task_id := task']> tasks, Some task')
  end.

Definition update_subtitle_regions (tasks : Tasks)
  (task_id : string) (subtitle_regions : list (list JNum)) : Tasks * option Task :=
  match tasks !! task_id with
  | None => (tasks, None)
  | Some task =>
      let task' := set_subtitle_regions subtitle_regions task in
      (<[task_id := task']> tasks, Some task')
  end.

(** [delete_task] (the removal of the task's files is outside the store). *)
Definition delete_task (tasks : Tasks) (task_id : string) : Tasks * bool :=
  match tasks !! task_id with
  | None => (tasks, false)
  | Some _ => (delete task_id tasks, true)
  end.

Definition cancel_message : string := "任务已被用户取消".

(** [cancel_task]. *)
Definition cancel_task (tasks : Tasks) (now : datetime) (task_id : string)
  : Tasks * bool :=
  let '(tasks', task) :=
    update_task_status tasks now task_id FAILED None (Some cancel_message) None None in
  (tasks', bool_decide (task <> None)).

(** [update_task_progress]. *)
Definition update_task_progress (tasks : Tasks) (now : datetime)
  (task_id : string) (progress : Q) : Tasks * option Task :=
  update_task_status tasks now task_id PROCESSING (Some progress) None None None.

End TaskSvc.


(** ** backend/api/services/subtitle_detection_service.py *)

Module DetectionSvc.

Import TaskSvc.

(** gemini_client.py: the data classes [SubtitleRegion] and
    [SubtitleAnalysis]. *)
Record SubtitleRegion := mkSubtitleRegion {
  sr_x : Z;
  sr_y : Z;
  sr_width : Z;
  sr_height : Z;
  sr_confidence : Q;
  sr_text_content : string
}.

Record SubtitleAnalysis := mkSubtitleAnalysis {
  sa_has_subtitles : bool;
  sa_subtitle_type : string;
  sa_dominant_position : string;
  sa_regions : list SubtitleRegion
}.

(** What happens between the update to DETECTING and the test of
    [subtitle_analysis]: [analyze_subtitle_with_gemini] returns an analysis,
    or returns [None] (it catches its own exceptions), or an exception with
    the text [message] escapes from the set-up of the client. *)
Inductive GeminiOutcome :=
  | Analysed (subtitle_analysis : SubtitleAnalysis)
  | NoAnalysis
  | ClientRaised (message : string).

(** The dictionaries that [detect_subtitles] returns. *)
Record DetectedRegion := mkDetectedRegion {
  dr_x : Z;
  dr_y : Z;
  dr_width : Z;
  dr_height : Z;
  dr_confidence : Q;
  dr_text_content : string
}.

Record DetectionResult := mkDetectionResult {
  has_subtitles : bool;
  subtitle_type : string;
  dominant_position : string;
  regions : list DetectedRegion;
  error : option string
}.

(** Lines 64-72. *)
Definition region_dict (region : SubtitleRegion) : DetectedRegion :=
  {| dr_x := sr_x region;
     dr_y := sr_y region;
     dr_width := sr_width region;
     dr_height := sr_height region;
     dr_confidence := sr_confidence region;
     dr_text_content := sr_text_content region |}.

(** The dictionary returned after a failure. *)
Definition failure_result (message : string) : DetectionResult :=
  {| has_subtitles := false;
     subtitle_type := "hard";
     dominant_position := "unknown";
     regions := [];
     error := Some message |}.

(** Lines 84-92 and 96-104: the failure is recorded on the task and
    reported. *)
Definition detection_failed (tasks : Tasks) (now : datetime) (task_id message : string)
  : Tasks * DetectionResult :=
  (fst (update_task_status tasks now task_id FAILED None (Some message) None None),
   failure_result message).

(** [detect_subtitles]: the store after the call and the returned
    dictionary.  [now] is the value of [datetime.now()] when a failure is
    recorded (the updates to DETECTING and PENDING do not read the clock).
    [_save_analysis_result] only writes to the log. *)
Definition detect_subtitles (tasks : Tasks) (now : datetime) (task_id : string)
  (outcome : GeminiOutcome) : Tasks * DetectionResult :=
  match get_task tasks task_id with
  | None => detection_failed tasks now task_id "任务不存在"
  | Some task =>
      let tasks := fst (update_task_status tasks now task_id DETECTING
                                           None None None None) in
      match outcome with
      | Analysed subtitle_analysis =>
          let result :=
            {| has_subtitles := sa_has_subtitles subtitle_analysis;
               subtitle_type := sa_subtitle_type subtitle_analysis;
               dominant_position := sa_dominant_position subtitle_analysis;
               regions := map region_dict (sa_regions subtitle_analysis);
               error := None |} in
          let tasks := fst (update_task_status tasks now task_id PENDING
                                               None None None None) in
          (tasks, result)
      | NoAnalysis => detection_failed tasks now task_id "字幕检测失败"
      | ClientRaised message => detection_failed tasks now task_id message
      end
  end.

(** [is_detection_needed]. *)
Definition is_detection_needed (tasks : Tasks) (task_id : string) : bool :=
  match get_task tasks task_id with
  | None => false
  | Some task =>
      match subtitle_regions task with
      | None => true
      | Some regions => Z.of_nat (length regions) =? 0
      end
  end.

End DetectionSvc.

(** ** backend/api/services/video_service.py *)

Module VideoSvc.

Import TaskSvc DetectionSvc.

(** Lines 82-84: a detected region as [[x1, y1, x2, y2]]. *)
Definition flat_of_detected (region : DetectedRegion) : list JNum :=
  let x1 := dr_x region in
  let y1 := dr_y region in
  let x2 := dr_x region + dr_width region in
  let y2 := dr_y region + dr_height region in
  [JInt x1; JInt y1; JInt x2; JInt y2].

(** [start_processing_task], up to the start of the worker thread.
    [outcome] is what the Gemini client does when the detection service calls
    it, [detect_time] the value of [datetime.now()] when the detection
    service records a failure, and [now] its value at the update to
    PROCESSING.  [None] as a result stands for the [ValueError] raised for an
    unknown task.  The result of [detect_subtitles] is a dictionary, which is
    true when tested, and has the key ["has_subtitles"]. *)
Definition start_processing_task (tasks : Tasks) (detect_time now : datetime)
  (task_id : string) (auto_detect_subtitles : bool)
  (outcome : GeminiOutcome) : option Tasks :=
  match get_task tasks task_id with
  | None => None
  | Some _ =>
      let tasks :=
        if auto_detect_subtitles then
          let tasks := fst (update_task_status tasks now task_id DETECTING
                                               None None None None) in
          let '(tasks, detection_result) :=
            detect_subtitles tasks detect_time task_id outcome in
          if has_subtitles detection_result
          then fst (update_subtitle_regions tasks task_id
                      (map flat_of_detected (regions detection_result)))
          else tasks
        else tasks in
      Some (fst (update_task_status tasks now task_id PROCESSING None None None None))
  end.

(** The worker's area: [(ymin, ymax, xmin, xmax)]. *)
Definition Area : Type := Z * Z * Z * Z.

(** Lines 136-143 for one entry of [task.subtitle_regions]: [Some None] for
    an entry that is skipped with a warning; [None] stands for an exception
    ([int] on an infinity or a NaN; the unpacking of a list that does not
    have four elements, which the test on the length excludes). *)
Definition area_of_region (region : list JNum) : option (option Area) :=
  if (length region =? 4)%nat then
    coords ← mapM int_of_jnum region;
    match coords with
    | [x1; y1; x2; y2] =>
        Some (Some (Z.min y1 y2, Z.max y1 y2, Z.min x1 x2, Z.max x1 x2))
    | _ => None
    end
  else Some None.

(** The body of the loop of lines 133-143 on [all_areas]. *)
Definition sub_area_step (all_areas : list Area) (region : list JNum)
  : option (list Area) :=
  area ← area_of_region region;
  match area with
  | Some area => Some (all_areas ++ [area])
  | None => Some all_areas
  end.

(** Lines 123-156: the value of [sub_area] handed to the remover
    ([Some None] when it stays [None]).  [None] stands for an exception,
    which ends [_process_video_sync] with the task FAILED. *)
Definition prepare_sub_area (subtitle_regions : option (list (list JNum)))
  : option (option (list Area)) :=
  match subtitle_regions with
  | None | Some [] => Some None
  | Some regions =>
      all_areas ← Py.for_each sub_area_step regions [];
      match all_areas with
      | [] => Some None
      | _ => Some (Some all_areas)
      end
  end.

(** How the run of the remover ended. *)
Inductive Outcome :=
  | OutputExists (output_path output_filename : string)
  | OutputMissing
  | Raised (message : string).

(** Lines 179-205: the update that ends [_process_video_sync]. *)
Definition report_outcome (tasks : Tasks) (now : datetime)
  (task_id : string) (outcome : Outcome) : Tasks :=
  match outcome with
  | OutputExists output_path output_filename =>
      fst (update_task_status tasks now task_id COMPLETED (Some 100%Q) None
                              (Some output_path) (Some output_filename))
  | OutputMissing =>
      fst (update_task_status tasks now task_id FAILED None
                              (Some "输出文件未生成") None None)
  | Raised message =>
      fst (update_task_status tasks now task_id FAILED None (Some message) None None)
  end.

End VideoSvc.

(** ** backend/api/routes/task.py *)

Module Routes.

Import TaskSvc.

(** The answer of a route: an [APIResponse] or a raised [HTTPException]. *)
Inductive Response :=
  | APIResponse (success : bool) (message : string) (task_id : string)
  | HTTPException (status_code : Z) (detail : string).

(** [POST /task/{task_id}/cancel]. *)
Definition cancel_task (tasks : Tasks) (now : datetime) (task_id : string)
  : Tasks * Response :=
  match get_task tasks task_id with
  | None => (tasks, HTTPException 404 "任务不存在")
  | Some task =>
      if negb (String.eqb (status_value (status task)) "processing")
      then (tasks, HTTPException 400 "只能取消正在处理的任务")
      else
        let '(tasks', _) := TaskSvc.cancel_task tasks now task_id in
        (tasks', APIResponse true "任务取消成功" task_id)
  end.

(** [DELETE /task/{task_id}]. *)
Definition delete_task (tasks : Tasks) (task_id : string) : Tasks * Response :=
  match get_task tasks task_id with
  | None => (tasks, HTTPException 404 "任务不存在")
  | Some task =>
      if String.eqb (status_value (status task)) "processing"
      then (tasks, HTTPException 400 "任务正在处理中，无法删除")
      else
        let '(tasks', _) := TaskSvc.delete_task tasks task_id in
        (tasks', APIResponse true "任务删除成功" task_id)
  end.

End Routes.


(** ** backend/api/models/timed_subtitle.py: the queries *)

Module TimedSubtitleQueries.

Import TimedSubtitle.

(** A box as [get_bbox] gives it: (xmin, xmax, ymin, ymax). *)
Definition Box : Type := Z * Z * Z * Z.

(** [get_regions_for_frame], on the list [self.timed_regions]. *)
Definition get_regions_for_frame (timed_regions : list TimedSubtitleRegion)
  (frame_no : Z) : list TimedSubtitleRegion :=
  filter (fun region => contains_frame region frame_no = true) timed_regions.

(** [get_unique_regions]: the set [unique_regions]; the method returns its
    elements as a list, in the order of the set. *)
Definition get_unique_regions (timed_regions : list TimedSubtitleRegion) : gset Box :=
  fold_left (fun unique_regions region => unique_regions ∪ {[ get_bbox region ]})
            timed_regions ∅.

End TimedSubtitleQueries.

(** ** subtitle_remover_timed.py *)

Module TimedRemover.

Import TimedSubtitle TimedSubtitleQueries.

(** [range(start, stop)]. *)
Definition py_range (start stop : Z) : list Z := seqZ start (stop - start).

(** Lines 52-54: the box is appended to the list of the frame, which is
    created when the frame is not yet a key. *)
Definition frame_add (box : Box) (d : gmap Z (list Box)) (frame_no : Z)
  : gmap Z (list Box) :=
  <[frame_no := default [] (d !! frame_no) ++ [box]]> d.

(** [TimedSubtitleDetect.find_subtitle_frame_no]: the dictionary
    [subtitle_frame_no_box_dict]. *)
Definition find_subtitle_frame_no (timed_regions : list TimedSubtitleRegion)
  : gmap Z (list Box) :=
  fold_left
    (fun d timed_region =>
       let bbox := get_bbox timed_region in
       fold_left (frame_add bbox)
                 (py_range (start_frame timed_region) (end_frame timed_region + 1)) d)
    timed_regions ∅.

End TimedRemover.


(** ** alternative_subtitle_detection.py: the detection methods

    The analysis methods above consume the hits and change events that the
    detection methods collect from sampled frames.  What OpenCV computes from
    the pixels is a parameter of the model: [read i] is
    [self.cap.set(cv2.CAP_PROP_POS_FRAMES, i)] followed by [self.cap.read()]
    ([None] when [ret] is false), and the image operations are functions of
    the frame. *)

Module AltMethods.

Import TimedSubtitle AltDetect.

(** [range(start, stop, step)]; [None] stands for the [ValueError] of a zero
    step. *)
Definition py_range_step (start stop step : Z) : option (list Z) :=
  if step =? 0 then None
  else
    let len := if 0 <? step then (stop - start + step - 1) / step
               else (start - stop - step - 1) / (- step) in
    Some (map (fun i => start + i * step) (seqZ 0 len)).

(** [frame_interval = max(1, self.total_frames // sample_frames)]. *)
Definition frame_interval (self : Detector) (sample_frames : Z) : option Z :=
  q ← Py.floordiv (self_total_frames self) sample_frames;
  Some (Z.max 1 q).

(** The frame numbers visited by the sampling loop of methods 1, 2 and 5:
    [range(0, min(sample_frames * frame_interval, self.total_frames),
    frame_interval)]. *)
Definition sampled_frame_numbers (self : Detector) (sample_frames : Z)
  : option (list Z) :=
  frame_interval ← frame_interval self sample_frames;
  py_range_step 0 (Z.min (sample_frames * frame_interval) (self_total_frames self))
                frame_interval.

(** What the loop of method 2 reads of a contour: [cv2.contourArea(contour)]
    and [cv2.boundingRect(contour)]. *)
Record Contour := mkContour {
  contourArea : Q;
  boundingRect : Z * Z * Z * Z
}.

(** What the loop of method 1 reads of a detection of PaddleOCR: the
    corners of the text box ([detection[0]]), the text, [len(text.strip())]
    and the confidence ([detection[1]]; the empty text and 0.0 when
    [detection[1]] is false). *)
Record Detection := mkDetection {
  det_coords : list (Q * Q);
  det_text : string;
  det_stripped_len : Z;
  det_confidence : Q
}.

Section Video.

Context {Frame Gray : Type}.

(** [cap.set(POS_FRAMES, i); ret, frame = cap.read()]. *)
Variable read : Z -> option Frame.

(** Method 1, lines 62-65: the detections [result[0]] of
    [ocr.ocr(frame, cls=True)], none when [result] or [result[0]] is
    false. *)
Variable ocr_detections : Frame -> list Detection.

(** Method 5, lines 211-212: the bottom quarter of the frame in grey. *)
Variable bottom_gray : Detector -> Frame -> Gray.

(** Method 5, lines 216-222: the share of the pixels that differ by more than
    the threshold between two grey images. *)
Variable change_ratio : Gray -> Gray -> Q.

(** Method 2, lines 109-125: the external contours of the closed edge image
    of the rows of the frame from [int(self.height * 0.7)] on. *)
Variable find_contours : Detector -> Frame -> list Contour.

(** *** [method1_ocr_based_detection] *)

(** The body of the loop over the detections of a frame (lines 66-90).
    [None] stands for the [ValueError] of [min] on a box without corners
    and the [OverflowError] of a height too large for a float. *)
Definition method1_detection (self : Detector) (i : Z)
  (detected_regions : list Hit.t) (detection : Detection) : option (list Hit.t) :=
  let coords := det_coords detection in
  let text := det_text detection in
  let confidence := det_confidence detection in
  if negb (Qle_bool confidence (1 # 2)) && (2 <? det_stripped_len detection) then
    let x_coords := map fst coords in
    let y_coords := map snd coords in
    x_lo ← Py.float_min x_coords;
    x_hi ← Py.float_max x_coords;
    let x_min := Py.py_int x_lo in
    let x_max := Py.py_int x_hi in
    y_lo ← Py.float_min y_coords;
    y_hi ← Py.float_max y_coords;
    let y_min := Py.py_int y_lo in
    let y_max := Py.py_int y_hi in
    height ← Py.float_of_int (self_height self);
    if Py.int_gt_float y_min (Py.float_mul height (Py.float_literal (7 # 10)))
    then Some (detected_regions ++
                 [{| Hit.frame_no := i; Hit.x := x_min; Hit.y := y_min;
                     Hit.width := x_max - x_min; Hit.height := y_max - y_min;
                     Hit.text := text; Hit.confidence := confidence |}])
    else Some detected_regions
  else Some detected_regions.

(** One iteration of the loop over the sampled frames (lines 55-90). *)
Definition method1_step (self : Detector)
  (detected_regions : list Hit.t) (i : Z) : option (list Hit.t) :=
  match read i with
  | None => Some detected_regions
  | Some frame =>
      Py.for_each (method1_detection self i) (ocr_detections frame) detected_regions
  end.

(** The list [detected_regions] after the loop. *)
Definition method1_hits (self : Detector) (sample_frames : Z) : option (list Hit.t) :=
  frames ← sampled_frame_numbers self sample_frames;
  Py.for_each (method1_step self) frames [].

(** [installed] tells whether the import of PaddleOCR succeeds. *)
Definition method1_ocr_based_detection (installed : bool) (self : Detector)
  (sample_frames : Z) : option TimedSubtitleAnalysis :=
  if installed then
    detected_regions ← method1_hits self sample_frames;
    _analyze_ocr_results self detected_regions
  else Some (_create_empty_analysis self).

(** *** [method5_motion_analysis] *)

(** One iteration of the loop of lines 203-232; the state is
    [(prev_frame, subtitle_changes)]. *)
Definition method5_step (self : Detector) (frame_interval : Z)
  (st : option Gray * list Change.t) (i : Z) : option Gray * list Change.t :=
  let '(prev_frame, subtitle_changes) := st in
  match read i with
  | None => st
  | Some frame =>
      let gray := bottom_gray self frame in
      let subtitle_changes :=
        match prev_frame with
        | Some prev =>
            let ratio := change_ratio prev gray in
            if negb (Qle_bool ratio (1 # 10))
            then subtitle_changes ++
                   [{| Change.frame_no := i;
                       Change.change_ratio := ratio;
                       Change.prev_frame_no := i - frame_interval |}]
            else subtitle_changes
        | None => subtitle_changes
        end in
      (Some gray, subtitle_changes)
  end.

(** The list [subtitle_changes] after the loop. *)
Definition method5_changes (self : Detector) (sample_frames : Z)
  : option (list Change.t) :=
  frame_interval ← frame_interval self sample_frames;
  frames ← py_range_step 0 (Z.min (sample_frames * frame_interval) (self_total_frames self))
                         frame_interval;
  Some (snd (fold_left (method5_step self frame_interval) frames (None, []))).

Definition method5_motion_analysis (self : Detector) (sample_frames : Z)
  : option TimedSubtitleAnalysis :=
  subtitle_changes ← method5_changes self sample_frames;
  Some (_analyze_motion_results self subtitle_changes).

(** *** [method2_edge_detection] *)

(** [int(self.height * 0.7)], the first row of the part of the frame that is
    analysed (line 109) and the offset added back to the rows of a hit
    (line 134): the height as a float times the float [0.7], in double
    precision, truncated.  [None] stands for the [OverflowError] of a height
    too large for a float. *)
Definition bottom_offset (self : Detector) : option Z :=
  Py.int_of_scaled (self_height self) (Py.float_literal (7 # 10)).

(** [w > self.width * 0.3] (line 138). *)
Definition wide_enough (self : Detector) (w : Z) : option bool :=
  width ← Py.float_of_int (self_width self);
  Some (Py.int_gt_float w (Py.float_mul width (Py.float_literal (3 # 10)))).

(** The body of the loop over contours (lines 127-147).  An edge hit has no
    text and no confidence; the fields of [Hit.t] for them are filled with
    the empty string and 0 and are not read on this path.  [None] stands
    for an [OverflowError] of the float arithmetic. *)
Definition method2_contour (self : Detector) (i : Z)
  (subtitle_regions : list Hit.t) (contour : Contour) : option (list Hit.t) :=
  let area := contourArea contour in
  if negb (Qle_bool area 1000) then
    let '(x, y, w, h) := boundingRect contour in
    offset ← bottom_offset self;
    let actual_y := y + offset in
    aspect_ratio ← (if 0 <? h then Py.truediv w h else Some 0%Q);
    accepted ← (if negb (Qle_bool aspect_ratio 3) then wide_enough self w
                else Some false);
    if accepted : bool
    then Some (subtitle_regions ++
                 [{| Hit.frame_no := i; Hit.x := x; Hit.y := actual_y;
                     Hit.width := w; Hit.height := h;
                     Hit.text := ""; Hit.confidence := 0%Q |}])
    else Some subtitle_regions
  else Some subtitle_regions.

(** One iteration of the loop over the sampled frames (lines 101-147); the
    slice of line 109 evaluates [int(self.height * 0.7)] for every frame
    that was read. *)
Definition method2_step (self : Detector)
  (subtitle_regions : list Hit.t) (i : Z) : option (list Hit.t) :=
  match read i with
  | None => Some subtitle_regions
  | Some frame =>
      _ ← bottom_offset self;
      Py.for_each (method2_contour self i) (find_contours self frame) subtitle_regions
  end.

(** The list [subtitle_regions] after the loop. *)
Definition method2_hits (self : Detector) (sample_frames : Z) : option (list Hit.t) :=
  frames ← sampled_frame_numbers self sample_frames;
  Py.for_each (method2_step self) frames [].

Definition method2_edge_detection (self : Detector) (sample_frames : Z)
  : option TimedSubtitleAnalysis :=
  subtitle_regions ← method2_hits self sample_frames;
  _analyze_edge_results self subtitle_regions.

End Video.

(** *** [_create_default_analysis] *)

(** The region built at lines 437-446 and 454-463: the fixed box at the
    bottom of the frame. *)
Definition default_region (self : Detector) (start_frame end_frame : Z) (text : string)
  : TimedSubtitleRegion :=
  {| start_frame := start_frame;
     end_frame := end_frame;
     x := Py.py_int (inject_Z (self_width self) * (5 # 100))%Q;
     y := Py.py_int (inject_Z (self_height self) * (8 # 10))%Q;
     width := Py.py_int (inject_Z (self_width self) * (9 # 10))%Q;
     height := Py.py_int (inject_Z (self_height self) * (15 # 100))%Q;
     confidence := (8 # 10)%Q;
     text_content := text |}.

Definition _create_default_analysis (self : Detector) : TimedSubtitleAnalysis :=
  let total_frames := self_total_frames self in
  let timed_regions := [] in
  let timed_regions :=
    if 60 <? total_frames then
      let end_frame := Z.min (Py.py_int (inject_Z total_frames * (4 # 10))%Q)
                             (total_frames - 1) in
      timed_regions ++ [default_region self 0 end_frame "默认字幕区域1 (底部)"]
    else timed_regions in
  let timed_regions :=
    if 120 <? total_frames then
      let start_frame := Py.py_int (inject_Z total_frames * (6 # 10))%Q in
      let end_frame := Z.min (Py.py_int (inject_Z total_frames * (9 # 10))%Q)
                             (total_frames - 1) in
      if start_frame <? end_frame
      then timed_regions ++ [default_region self start_frame end_frame "默认字幕区域2 (底部)"]
      else timed_regions
    else timed_regions in
  make_analysis self timed_regions.

(** [method3_template_matching] returns the default analysis. *)
Definition method3_template_matching (self : Detector) : TimedSubtitleAnalysis :=
  _create_default_analysis self.

End AltMethods.

(** ** backend/api/gemini: the frame indices of the two clients *)

Module GeminiSampling.

Import TimedRemover.

(** gemini_timed_client.py, [_extract_keyframes_with_time], lines 89-92: the
    list [frame_indices]; [None] stands for the [ZeroDivisionError], which
    the method catches (it then returns no frame). *)
Definition timed_frame_indices (total_frames sample_frames : Z) : option (list Z) :=
  q ← Py.floordiv total_frames sample_frames;
  let interval := Z.max 1 q in
  k ← Py.floordiv total_frames interval;
  Some (map (fun i => i * interval) (py_range 0 (Z.min sample_frames k))).

(** gemini_client.py, [_extract_keyframes], lines 96-99: the list
    [frame_indices]. *)
Definition frame_indices (total_frames sample_frames : Z) : option (list Z) :=
  q ← Py.floordiv total_frames sample_frames;
  let interval := Z.max 1 q in
  Some (map (fun i => i * interval) (py_range 0 sample_frames)).

End GeminiSampling.


(** ** backend/api/services/task_service.py: listing, statistics, clean-up

    [list(cls._tasks.values())] is the list of the tasks of the store in the
    order of their insertion, which the store as a [gmap] does not keep.  The
    methods that read this list take it as the argument [values]. *)

Module TaskQueries.

Import TaskSvc.

(** [l.sort(key=key, reverse=reverse)]: a stable sort, also with
    [reverse=True] (tasks of equal key keep their order).  [before x h] says
    that [x], which precedes [h] in the input, stays before it. *)
Definition before {K} (leb : K -> K -> bool) (key : Task -> K) (reverse : bool)
  (x h : Task) : bool :=
  if reverse then leb (key h) (key x) else leb (key x) (key h).

Fixpoint insert_task (before : Task -> Task -> bool) (x : Task) (l : list Task)
  : list Task :=
  match l with
  | [] => [x]
  | h :: t => if before x h then x :: h :: t else h :: insert_task before x t
  end.

Definition py_sort {K} (leb : K -> K -> bool) (key : Task -> K) (reverse : bool)
  (l : list Task) : list Task :=
  foldr (insert_task (before leb key reverse)) [] l.

(** An index of a slice, brought into [0 .. len]. *)
Definition py_slice_index (len i : Z) : Z :=
  if i <? 0 then Z.max 0 (len + i) else Z.min i len.

(** [l[start:stop]]. *)
Definition py_slice {A} (l : list A) (start stop : Z) : list A :=
  let len := Z.of_nat (length l) in
  let s := py_slice_index len start in
  let e := py_slice_index len stop in
  take (Z.to_nat (e - s)) (drop (Z.to_nat s) l).

(** [get_task_list], lines 118-129: the list [tasks] after the filter and
    the sort. *)
Definition listed_tasks (values : list Task) (status : option TaskStatus)
  (order_by order : string) : list Task :=
  let tasks := values in
  let tasks :=
    match status with
    | Some s => filter (fun task => TaskSvc.status task = s) tasks
    | None => tasks
    end in
  let reverse := String.eqb order "desc" in
  if String.eqb order_by "created_at" then py_sort Z.leb created_at reverse tasks
  else if String.eqb order_by "progress" then py_sort Qle_bool progress reverse tasks
  else if String.eqb order_by "status"
       then py_sort String.leb (fun x => status_value (TaskSvc.status x)) reverse tasks
  else tasks.

(** [get_task_list]: [(paginated_tasks, total)]. *)
Definition get_task_list (values : list Task) (status : option TaskStatus)
  (page page_size : Z) (order_by order : string) : list Task * Z :=
  let tasks := listed_tasks values status order_by order in
  let total := Z.of_nat (length tasks) in
  let start := (page - 1) * page_size in
  let end_ := start + page_size in
  (py_slice tasks start end_, total).

(** [get_processing_tasks]. *)
Definition get_processing_tasks (values : list Task) : list Task :=
  filter (fun task => TaskSvc.status task = PROCESSING) values.

(** [get_task_count]. *)
Definition get_task_count (tasks : Tasks) : Z := Z.of_nat (size tasks).

(** The dictionary [stats] of [get_task_statistics]. *)
Record Stats := mkStats {
  total : Z;
  pending : Z;
  detecting : Z;
  processing : Z;
  completed : Z;
  failed : Z;
  by_sttn : Z;
  by_lama : Z;
  by_propainter : Z
}.

(** [stats[task.status.value] += 1]. *)
Definition count_status (s : TaskStatus) (stats : Stats) : Stats :=
  match s with
  | PENDING =>
      mkStats (total stats) (pending stats + 1) (detecting stats) (processing stats)
              (completed stats) (failed stats)
              (by_sttn stats) (by_lama stats) (by_propainter stats)
  | DETECTING =>
      mkStats (total stats) (pending stats) (detecting stats + 1) (processing stats)
              (completed stats) (failed stats)
              (by_sttn stats) (by_lama stats) (by_propainter stats)
  | PROCESSING =>
      mkStats (total stats) (pending stats) (detecting stats) (processing stats + 1)
              (completed stats) (failed stats)
              (by_sttn stats) (by_lama stats) (by_propainter stats)
  | COMPLETED =>
      mkStats (total stats) (pending stats) (detecting stats) (processing stats)
              (completed stats + 1) (failed stats)
              (by_sttn stats) (by_lama stats) (by_propainter stats)
  | FAILED =>
      mkStats (total stats) (pending stats) (detecting stats) (processing stats)
              (completed stats) (failed stats + 1)
              (by_sttn stats) (by_lama stats) (by_propainter stats)
  end.

(** [stats["by_algorithm"][task.algorithm.value] += 1]. *)
Definition count_algorithm (a : AlgorithmType) (stats : Stats) : Stats :=
  match a with
  | STTN =>
      mkStats (total stats) (pending stats) (detecting stats) (processing stats)
              (completed stats) (failed stats)
              (by_sttn stats + 1) (by_lama stats) (by_propainter stats)
  | LAMA =>
      mkStats (total stats) (pending stats) (detecting stats) (processing stats)
              (completed stats) (failed stats)
              (by_sttn stats) (by_lama stats + 1) (by_propainter stats)
  | PROPAINTER =>
      mkStats (total stats) (pending stats) (detecting stats) (processing stats)
              (completed stats) (failed stats)
              (by_sttn stats) (by_lama stats) (by_propainter stats + 1)
  end.

(** [get_task_statistics]; [len(cls._tasks)] is the length of [values]. *)
Definition get_task_statistics (values : list Task) : Stats :=
  fold_left
    (fun stats task => count_algorithm (algorithm task) (count_status (TaskSvc.status task) stats))
    values
    (mkStats (Z.of_nat (length values)) 0 0 0 0 0 0 0 0).

(** [config.FILE_RETENTION_HOURS]. *)
Definition FILE_RETENTION_HOURS : Z := 24.

(** [timedelta(hours=h)], in the unit of [datetime]. *)
Definition timedelta_hours (h : Z) : Z := h * 3600.

(** The test of lines 175-176. *)
Definition is_expired (expired_threshold : datetime) (task : Task) : bool :=
  (bool_decide (TaskSvc.status task = COMPLETED) ||
   bool_decide (TaskSvc.status task = FAILED)) &&
  match completed_at task with
  | Some completed => completed <? expired_threshold
  | None => false
  end.

(** Lines 172-177: the list [expired_tasks].  The loop runs over the items
    of the dictionary; their order has no bearing on the result of the
    method. *)
Definition expired_tasks (tasks : Tasks) (expired_threshold : datetime) : list string :=
  omap (fun '(task_id, task) =>
          if is_expired expired_threshold task then Some task_id else None)
       (map_to_list tasks).

(** One iteration of the loop of lines 182-187 on [(cls._tasks,
    deleted_count)].  The files of the task are removed by
    [cleanup_task_files], which is not part of the model. *)
Definition delete_expired (st : Tasks * Z) (task_id : string) : Tasks * Z :=
  let '(tasks, deleted_count) := st in (delete task_id tasks, deleted_count + 1).

(** Line 170: [expired_threshold]. *)
Definition expired_threshold (current_time : datetime) : datetime :=
  current_time - timedelta_hours FILE_RETENTION_HOURS.

(** [cleanup_expired_tasks] at the time [now]: the store after the call and
    the entry ["deleted_tasks"] of the result. *)
Definition cleanup_expired_tasks (tasks : Tasks) (now : datetime) : Tasks * Z :=
  let current_time := now in
  fold_left delete_expired (expired_tasks tasks (expired_threshold current_time))
            (tasks, 0).

End TaskQueries.


(** ** backend/api/routes: task status and download *)

Module QueryRoutes.

Import TaskSvc.

(** [TaskDetail] of models/task.py. *)
Record TaskDetail := mkTaskDetail {
  td_id : string;
  td_status : TaskStatus;
  td_progress : Q;
  td_algorithm : AlgorithmType;
  td_original_filename : string;
  td_created_at : datetime;
  td_started_at : option datetime;
  td_completed_at : option datetime;
  td_error_message : option string;
  td_subtitle_regions : option (list (list JNum));
  td_file_size : option Z;
  td_duration : option Q;
  td_download_url : option string
}.

(** Truth value of an [Optional[str]]: neither [None] nor empty. *)
Definition opt_str_truthy (s : option string) : bool :=
  match s with
  | Some s => Py.str_truthy s
  | None => false
  end.

(** The answer of [GET /task/{task_id}]. *)
Inductive StatusAnswer :=
  | Detail (detail : TaskDetail)
  | StatusError (status_code : Z) (detail : string).

(** routes/task.py, [get_task_status]. *)
Definition get_task_status (tasks : Tasks) (task_id : string) : StatusAnswer :=
  match get_task tasks task_id with
  | None => StatusError 404 "任务不存在"
  | Some task =>
      let download_url :=
        if String.eqb (status_value (status task)) "completed" &&
           opt_str_truthy (output_path task)
        then Some ("/api/download/" +:+ task_id)
        else None in
      Detail {| td_id := id task;
                td_status := status task;
                td_progress := progress task;
                td_algorithm := algorithm task;
                td_original_filename := original_filename task;
                td_created_at := created_at task;
                td_started_at := started_at task;
                td_completed_at := completed_at task;
                td_error_message := error_message task;
                td_subtitle_regions := subtitle_regions task;
                td_file_size := file_size task;
                td_duration := duration task;
                td_download_url := download_url |}
  end.

(** The answer of [GET /download/{task_id}]. *)
Inductive DownloadAnswer :=
  | FileResponse (path filename : string)
  | DownloadError (status_code : Z) (detail : string).

(** routes/video.py, [download_result]; [path_exists] is [os.path.exists]. *)
Definition download_result (path_exists : string -> bool) (tasks : Tasks)
  (task_id : string) : DownloadAnswer :=
  match get_task tasks task_id with
  | None => DownloadError 404 "任务不存在"
  | Some task =>
      if negb (String.eqb (status_value (status task)) "completed")
      then DownloadError 400 "任务尚未完成"
      else
        match output_path task with
        | Some path =>
            if negb (Py.str_truthy path) || negb (path_exists path)
            then DownloadError 404 "输出文件不存在"
            else
              let filename :=
                if opt_str_truthy (output_filename task)
                then default "" (output_filename task)
                else task_id +:+ "_processed.mp4" in
              FileResponse path filename
        | None => DownloadError 404 "输出文件不存在"
        end
  end.

End QueryRoutes.


(** ** backend/api/gemini/gemini_timed_client.py: [_parse_timed_response]

    The response of the API and the JSON text inside it are given with the
    types of the format that the prompt asks for (a frame number and a box
    of ints, a confidence, a text, two flags); a key of a dictionary may be
    absent ([None]).  [json_loads] is [json.loads] followed by this reading
    of the value ([None] when the text is not JSON). *)

Module GeminiTimed.

Import TimedSubtitle.

(** An element of ["timed_regions"]. *)
Record RegionData := mkRegionData {
  rd_is_subtitle : option bool;
  rd_frame_no : option Z;
  rd_x : option Z;
  rd_y : option Z;
  rd_width : option Z;
  rd_height : option Z;
  rd_confidence : option Q;
  rd_text_content : option string
}.

(** The dictionary [result]. *)
Record Result := mkResult {
  r_timed_regions : option (list RegionData);
  r_has_subtitles : option bool;
  r_subtitle_type : option string
}.

(** The envelope of the API: a list of chunks with candidates, whose content
    has parts with a text. *)
Record Part := mkPart { part_text : option string }.
Record Content := mkContent { content_parts : option (list Part) }.
Record Candidate := mkCandidate { candidate_content : option Content }.
Record Chunk := mkChunk { chunk_candidates : option (list Candidate) }.

(** The analysis returned when the response cannot be used (lines 276-293). *)
Definition default_analysis (total_frames : Z) (fps : Q) : TimedSubtitleAnalysis :=
  {| has_subtitles := false;
     subtitle_type := "hard";
     timed_regions := [];
     total_frames := total_frames;
     fps := fps |}.

(** One iteration of the loop of lines 239-258 on the list [timed_regions];
    [None] stands for the [KeyError] of a missing key and for the
    [OverflowError] of [int] on a product [fps * 2.5] that is infinite (the
    product is the double nearest to the exact one). *)
Definition timed_region_step (total_frames : Z) (fps : Q)
  (timed_regions : list TimedSubtitleRegion) (region_data : RegionData)
  : option (list TimedSubtitleRegion) :=
  if default true (rd_is_subtitle region_data) then
    frame_no ← rd_frame_no region_data;
    duration_frames ← Py.int_of_float (Py.float_mul fps (5 # 2));
    let start_frame := Z.max 0 (frame_no - duration_frames / 2) in
    let end_frame := Z.min (total_frames - 1) (frame_no + duration_frames / 2) in
    x ← rd_x region_data;
    y ← rd_y region_data;
    width ← rd_width region_data;
    height ← rd_height region_data;
    confidence ← rd_confidence region_data;
    Some (timed_regions ++
            [{| start_frame := start_frame;
                end_frame := end_frame;
                x := x;
                y := y;
                width := width;
                height := height;
                confidence := confidence;
                text_content := default "" (rd_text_content region_data) |}])
  else Some timed_regions.

(** The loop, stopped by the first error. *)
Fixpoint timed_region_loop (total_frames : Z) (fps : Q)
  (timed_regions : list TimedSubtitleRegion) (data : list RegionData)
  : option (list TimedSubtitleRegion) :=
  match data with
  | [] => Some timed_regions
  | region_data :: rest =>
      timed_regions' ← timed_region_step total_frames fps timed_regions region_data;
      timed_region_loop total_frames fps timed_regions' rest
  end.

(** Lines 238-272 on the parsed [result]. *)
Definition analysis_of_result (total_frames : Z) (fps : Q) (result : Result)
  : option TimedSubtitleAnalysis :=
  timed_regions ←
    timed_region_loop total_frames fps [] (default [] (r_timed_regions result));
  has_subtitles ← r_has_subtitles result;
  subtitle_type ← r_subtitle_type result;
  let analysis :=
    {| has_subtitles := has_subtitles;
       subtitle_type := subtitle_type;
       timed_regions := timed_regions;
       total_frames := total_frames;
       fps := fps |} in
  Some (merge_overlapping_regions default_time_threshold analysis).

(** [_parse_timed_response]: every exception ends in the default
    analysis.  [json_loads] gives [None] for a text that is not the JSON of
    an object; the values under the keys of the object and of its region
    records have the types of [Result] and [RegionData]. *)
Definition _parse_timed_response (json_loads : string -> option Result)
  (response : list Chunk) (total_frames : Z) (fps : Q) : TimedSubtitleAnalysis :=
  let parsed :=
    match response with
    | [] => None
    | chunk :: _ =>
        match default [] (chunk_candidates chunk) with
        | [] => None
        | candidate :: _ =>
            let content := default (mkContent None) (candidate_content candidate) in
            match default [] (content_parts content) with
            | [] => None
            | part :: _ =>
                let text_content := default "{}" (part_text part) in
                result ← json_loads text_content;
                analysis_of_result total_frames fps result
            end
        end
    end in
  default (default_analysis total_frames fps) parsed.

End GeminiTimed.

(** * Vocabulary of the statements *)

(** ** Floats of the Standard Library *)

Module FloatAux.

(** The float that a [spec_float] of the Standard Library denotes (a NaN
    denotes none). *)
Definition float_of_spec (x : spec_float) : option Py.Float :=
  match x with
  | S754_zero _ => Some (Py.FFinite 0)
  | S754_infinity negative => Some (Py.FInfinite negative)
  | S754_nan => None
  | S754_finite negative m e =>
      Some (Py.FFinite
              ((if negative then - inject_Z (Zpos m) else inject_Z (Zpos m))
               * (if 0 <=? e then inject_Z (2 ^ e) else 1 # Z.to_pos (2 ^ (- e)))))
  end.

(** The binary64 float nearest to [m * 2 ^ e]. *)
Definition b64 (m e : Z) : spec_float := binary_normalize 53 1024 m e false.

Definition value_of (x : spec_float) : Q :=
  match float_of_spec x with
  | Some (Py.FFinite value) => value
  | _ => 0
  end.

Definition same_float (x : Py.Float) (y : option Py.Float) : bool :=
  match x, y with
  | Py.FFinite a, Some (Py.FFinite b) => Qeq_bool a b
  | Py.FInfinite s, Some (Py.FInfinite t) => Bool.eqb s t
  | _, _ => false
  end.

(** The product and the quotient of [Py] agree with those of the Standard
    Library's binary64 on the floats [a] and [b]. *)
Definition mul_agrees (ab : spec_float * spec_float) : bool :=
  same_float (Py.float_mul (value_of (fst ab)) (value_of (snd ab)))
             (float_of_spec (SFmul 53 1024 (fst ab) (snd ab))).

Definition div_agrees (ab : spec_float * spec_float) : bool :=
  same_float (Py.round (value_of (fst ab) / value_of (snd ab)))
             (float_of_spec (SFdiv 53 1024 (fst ab) (snd ab))).

End FloatAux.

(** ** Overlap merge *)

Module MergeAux.

Import TimedSubtitle.

(** The five conditions under which a candidate is merged into the last
    accepted region. *)
Definition merge_conditions (time_threshold : Z)
  (last_region region : TimedSubtitleRegion) : Prop :=
  Z.abs (x region - x last_region) <= 20 /\
  Z.abs (y region - y last_region) <= 20 /\
  Z.abs (width region - width last_region) <= 30 /\
  Z.abs (height region - height last_region) <= 20 /\
  start_frame region - end_frame last_region <= time_threshold.

(** [s] occurs in [t]. *)
Definition is_substring (s t : string) : Prop :=
  exists before after, t = before +:+ s +:+ after.

(** The fields of a region that the merge pass never assigns. *)
Definition same_key (a b : TimedSubtitleRegion) : Prop :=
  start_frame a = start_frame b /\ x a = x b /\ y a = y b /\
  width a = width b /\ height a = height b.

(** The loop of [merge_overlapping_regions] once [merged] is non-empty, by
    recursion on the regions still to visit: [last_region] is [merged[-1]]
    and the result is the part of [merged] from [last_region] on. *)
Fixpoint walk (time_threshold : Z) (last_region : TimedSubtitleRegion)
  (rest : list TimedSubtitleRegion) : list TimedSubtitleRegion :=
  match rest with
  | [] => [last_region]
  | region :: rest' =>
      if can_merge time_threshold last_region region
      then walk time_threshold (absorb last_region region) rest'
      else last_region :: walk time_threshold region rest'
  end.

(** No region of the list can be merged into the one before it. *)
Fixpoint settled (time_threshold : Z) (l : list TimedSubtitleRegion) : Prop :=
  match l with
  | a :: (b :: _) as t => can_merge time_threshold a b = false /\ settled time_threshold t
  | _ => True
  end.

(** The start frames do not decrease along the list. *)
Fixpoint ascending (l : list TimedSubtitleRegion) : Prop :=
  match l with
  | a :: (b :: _) as t => start_frame a <= start_frame b /\ ascending t
  | _ => True
  end.

End MergeAux.

(** ** Detection paths *)

Module DetectAux.

Import TimedSubtitle AltDetect.

(** The time range of a region lies in the video. *)
Definition frames_ok (self : Detector) (r : TimedSubtitleRegion) : Prop :=
  0 <= start_frame r /\ start_frame r <= end_frame r /\
  end_frame r <= self_total_frames self - 1.

(** The box of a region lies in the frame: its columns are in
    [[0, width)] and its rows in [[0, height)]. *)
Definition box_within (self : Detector) (r : TimedSubtitleRegion) : Prop :=
  0 <= x r /\ 0 <= y r /\ 0 <= width r /\ 0 <= height r /\
  x r + width r <= self_width self /\ y r + height r <= self_height self.

Definition region_ok (self : Detector) (r : TimedSubtitleRegion) : Prop :=
  frames_ok self r /\ box_within self r.

(** A hit taken from a frame of the video, with its box inside the frame. *)
Definition hit_in_video (self : Detector) (h : Hit.t) : Prop :=
  0 <= Hit.frame_no h /\ Hit.frame_no h <= self_total_frames self - 1 /\
  0 <= Hit.x h /\ 0 <= Hit.y h /\ 0 <= Hit.width h /\ 0 <= Hit.height h /\
  Hit.x h + Hit.width h <= self_width self /\
  Hit.y h + Hit.height h <= self_height self.

(** A change event taken from a frame of the video. *)
Definition change_in_video (self : Detector) (c : Change.t) : Prop :=
  0 <= Change.frame_no c /\ Change.frame_no c <= self_total_frames self - 1.

(** The frame numbers of the change events do not decrease. *)
Fixpoint changes_in_order (changes : list Change.t) : Prop :=
  match changes with
  | a :: (b :: _) as t => Change.frame_no a <= Change.frame_no b /\ changes_in_order t
  | _ => True
  end.

Definition is_min (m : Z) (l : list Z) : Prop := In m l /\ Forall (Z.le m) l.
Definition is_max (m : Z) (l : list Z) : Prop := In m l /\ Forall (Z.ge m) l.

(** The number of frames by which the OCR path widens a time range on each
    side, [int(self.fps * 2.5) // 2]: the product in double precision,
    truncated towards zero and halved by integer division.  There is none
    when the product is infinite. *)
Definition ocr_half_duration (self : Detector) : option Z :=
  match Py.round (self_fps self * (5 # 2)) with
  | Py.FFinite product => Some (Z.quot (Qnum product) (Zpos (Qden product)) / 2)
  | Py.FInfinite _ => None
  end.

(** A cluster (or a time group) is never empty and holds hits of the input
    only. *)
Definition cluster_ok (regions cluster : list Hit.t) : Prop :=
  cluster <> [] /\ Forall (fun h => In h regions) cluster.

(** The time range that the OCR path gives the region of a cluster: the
    least and the greatest hit frame, widened by [k] frames, the start kept
    at or above 0 and the end at or below [total_frames - 1]. *)
Definition ocr_time_range (self : Detector) (k : Z) (cluster : list Hit.t)
  (region : TimedSubtitleRegion) : Prop :=
  exists lo hi,
    is_min lo (map Hit.frame_no cluster) /\
    is_max hi (map Hit.frame_no cluster) /\
    start_frame region = Z.max 0 (lo - k) /\
    end_frame region = Z.min (self_total_frames self - 1) (hi + k).

(** Python's [round] on a float: to the nearest integer, ties to even. *)
Definition py_round (q : Q) : Z :=
  let f := Qfloor q in
  match (q - inject_Z f ?= 1 # 2)%Q with
  | Lt => f
  | Gt => f + 1
  | Eq => if Z.even f then f else f + 1
  end.

(** The time range of a cluster as the specification words it: the least and
    greatest frame of the cluster widened by [round(fps * 2.5) / 2], clipped
    to [[0, total_frames - 1]]; the product is the one of the floats (there
    is no range when it is infinite). *)
Definition clip (self : Detector) (q : Q) : Q :=
  Qmax 0 (Qmin (inject_Z (self_total_frames self - 1)) q).

Definition spec_time_range (self : Detector) (cluster : list Hit.t) : option (Q * Q) :=
  let frames := map Hit.frame_no cluster in
  lo ← Py.py_min frames;
  hi ← Py.py_max frames;
  match Py.float_mul (self_fps self) (5 # 2) with
  | Py.FFinite product =>
      let k := (inject_Z (py_round product) / 2)%Q in
      Some (clip self (inject_Z lo - k)%Q, clip self (inject_Z hi + k)%Q)
  | Py.FInfinite _ => None
  end.

(** The segments of a sequence of change frames as the specification words
    them: an event joins the current segment unless it comes more than
    [gap] frames after the previous event, in which case the current segment
    is closed and a new one opens at that event. *)
Fixpoint spec_segments_from (gap : Q) (current : list Z) (previous : Z)
  (frames : list Z) : list (list Z) :=
  match frames with
  | [] => [current]
  | f :: rest =>
      if negb (Qle_bool (inject_Z (f - previous)) gap)
      then current :: spec_segments_from gap [f] f rest
      else spec_segments_from gap (current ++ [f]) f rest
  end.

Definition spec_segments (self : Detector) (changes : list Change.t) : list (list Z) :=
  match map Change.frame_no changes with
  | [] => []
  | f :: rest => spec_segments_from (self_fps self * 5)%Q [f] f rest
  end.

(** The time groups of the edge path after the hits [seen], for the divisor
    [d]: one group for each key, and the group of a key holds the hits of
    that key in their input order. *)
Definition buckets_of (d : Z) (seen : list Hit.t) (groups : list (Z * list Hit.t)) : Prop :=
  NoDup (map fst groups) /\
  Forall (fun kg => snd kg = filter (fun h => Hit.frame_no h / d = fst kg) seen /\
                    snd kg <> []) groups /\
  Forall (fun h => In (Hit.frame_no h / d) (map fst groups)) seen.

End DetectAux.

(** ** Task store *)

Module TaskAux.

Import TaskSvc.

(** The transitions of the state machine of the specification:
    PENDING -> DETECTING -> PROCESSING -> COMPLETED | FAILED and
    PENDING -> PROCESSING. *)
Definition allowed_transition (from to : TaskStatus) : bool :=
  match from, to with
  | PENDING, DETECTING
  | PENDING, PROCESSING
  | DETECTING, PROCESSING
  | PROCESSING, COMPLETED
  | PROCESSING, FAILED => true
  | _, _ => false
  end.

(** A call of one of the methods of [TaskService] that change a task and
    keep it in the store, with the value of the clock at the call. *)
Inductive Op :=
  | OpUpdateStatus (now : datetime) (task_id : string) (status : TaskStatus)
      (progress : option Q) (error_message output_path output_filename : option string)
  | OpUpdateProgress (now : datetime) (task_id : string) (progress : Q)
  | OpCancel (now : datetime) (task_id : string)
  | OpUpdateRegions (task_id : string) (subtitle_regions : list (list JNum)).

Definition run_op (tasks : Tasks) (op : Op) : Tasks :=
  match op with
  | OpUpdateStatus now task_id status progress error_message output_path output_filename =>
      fst (update_task_status tasks now task_id status progress error_message
                              output_path output_filename)
  | OpUpdateProgress now task_id progress =>
      fst (update_task_progress tasks now task_id progress)
  | OpCancel now task_id => fst (cancel_task tasks now task_id)
  | OpUpdateRegions task_id subtitle_regions =>
      fst (update_subtitle_regions tasks task_id subtitle_regions)
  end.

Definition run_ops (tasks : Tasks) (ops : list Op) : Tasks :=
  fold_left run_op ops tasks.

(** A task as [create_task] makes it, for the examples. *)
Definition fresh_task (task_id : string) : Task :=
  snd (create_task ∅ 0 task_id (mkTaskCreate STTN None None (Some false))
                   "video.mp4" "/uploads/video.mp4" None None).

End TaskAux.


(** ** Region entries of a task *)

Module VideoAux.

Import TaskSvc VideoSvc.

(** An [int] or a finite [float]. *)
Definition is_finite (n : JNum) : Prop :=
  match n with
  | JInt _ | JFloat _ => True
  | JInfinity _ | JNaN => False
  end.

(** [t] is the number [n] without its fraction: [n] itself for an [int];
    for a [float] the integer next to it in the direction of zero. *)
Definition truncated (n : JNum) (t : Z) : Prop :=
  match n with
  | JInt z => t = z
  | JFloat q =>
      ((0 <= q)%Q -> (inject_Z t <= q)%Q /\ (q < inject_Z t + 1)%Q) /\
      ((q <= 0)%Q -> (inject_Z t - 1 < q)%Q /\ (q <= inject_Z t)%Q)
  | JInfinity _ | JNaN => False
  end.

(** An entry on which [_process_video_sync] raises: four values, one of
    which is an infinity or a NaN. *)
Definition raising (entry : list JNum) : Prop :=
  length entry = 4%nat /\ Exists (fun n => ~ is_finite n) entry.

(** [area] is the area (ymin, ymax, xmin, xmax) of the entry
    [[x1, y1, x2, y2]] of four finite numbers, taken without their
    fractions. *)
Definition area_of_entry (entry : list JNum) (area : Area) : Prop :=
  exists n1 n2 n3 n4 x1 y1 x2 y2,
    entry = [n1; n2; n3; n4] /\
    truncated n1 x1 /\ truncated n2 y1 /\ truncated n3 x2 /\ truncated n4 y2 /\
    area = (Z.min y1 y2, Z.max y1 y2, Z.min x1 x2, Z.max x1 x2).

(** The number that a finite JSON number denotes. *)
Definition value_of (n : JNum) : option Q :=
  match n with
  | JInt z => Some (inject_Z z)
  | JFloat q => Some q
  | JInfinity _ | JNaN => None
  end.

(** The area of an entry as the specification words it: the least and the
    greatest of the two abscissas and of the two ordinates as they were
    given, (ymin, ymax, xmin, xmax). *)
Definition spec_area (entry : list JNum) : option (Q * Q * Q * Q) :=
  match entry with
  | [n1; n2; n3; n4] =>
      x1 ← value_of n1;
      y1 ← value_of n2;
      x2 ← value_of n3;
      y2 ← value_of n4;
      Some (Qmin y1 y2, Qmax y1 y2, Qmin x1 x2, Qmax x1 x2)
  | _ => None
  end.

End VideoAux.

(** ** Provenance of the merged regions *)

Module CoverageAux.

Import TimedSubtitle MergeAux.

(** [m] starts where a region [a] of [regions] starts, with the box of [a],
    and ends where a region [b] of [regions] ends, [b] starting no earlier
    than [a]. *)
Definition taken_from (regions : list TimedSubtitleRegion) (m : TimedSubtitleRegion)
  : Prop :=
  exists a b, a ∈ regions /\ b ∈ regions /\ same_key m a /\
              end_frame m = end_frame b /\ start_frame a <= start_frame b.

End CoverageAux.


(** ** Frame sampling *)

Module SamplingAux.

(** The frames 0, [interval], 2 * [interval], ..., [count] of them (none
    when [count] is not positive). *)
Definition evenly_spaced (interval count : Z) : list Z :=
  map (fun i => i * interval) (seqZ 0 count).

End SamplingAux.


(** ** The detection methods *)

Module MethodAux.

Import AltDetect AltMethods.

(** What PaddleOCR delivers for a detection: a text box with corners, all
    of them in the frame. *)
Definition box_in_frame (self : Detector) (detection : Detection) : Prop :=
  det_coords detection <> [] /\
  Forall (fun c => (0 <= fst c)%Q /\ (fst c <= inject_Z (self_width self))%Q /\
                   (0 <= snd c)%Q /\ (snd c <= inject_Z (self_height self))%Q)
         (det_coords detection).

(** What [cv2.boundingRect] delivers for a contour of the closed edge image:
    a rectangle inside that image, which has the width of the frame and the
    rows of the frame from [offset = int(self.height * 0.7)] on, that is
    [self.height - offset] rows. *)
Definition rect_in_bottom_region (self : Detector) (contour : Contour) : Prop :=
  let '(x, y, w, h) := boundingRect contour in
  0 <= x /\ 0 <= y /\ 0 <= w /\ 0 <= h /\
  x + w <= self_width self /\
  forall offset, bottom_offset self = Some offset -> y + h <= self_height self - offset.

End MethodAux.


(** ** Listing, statistics and clean-up of the task store *)

Module TaskQueryAux.

Import TaskSvc TaskQueries.

#[export] Instance AlgorithmType_eq_dec : EqDecision AlgorithmType.
Proof. solve_decision. Defined.

(** A task that [cleanup_expired_tasks] called at [now] removes: completed
    or failed, with a completion time more than the retention period before
    [now]. *)
Definition expired (now : datetime) (task : Task) : Prop :=
  (status task = COMPLETED \/ status task = FAILED) /\
  exists completed,
    completed_at task = Some completed /\
    completed < expired_threshold now.

(** The tasks of a status, and of an algorithm, in the order of the list. *)
Definition with_status (s : TaskStatus) (values : list Task) : list Task :=
  filter (fun task => status task = s) values.

Definition with_algorithm (a : AlgorithmType) (values : list Task) : list Task :=
  filter (fun task => algorithm task = a) values.

(** The tasks that pass the status filter of [get_task_list]. *)
Definition selected (status : option TaskStatus) (values : list Task) : list Task :=
  match status with
  | Some s => with_status s values
  | None => values
  end.

(** Each task of the list is followed by a task whose key is not smaller
    (not greater when [reverse] is set). *)
Definition in_key_order {K} (le : K -> K -> Prop) (key : Task -> K) (reverse : bool)
  (l : list Task) : Prop :=
  Sorted (fun a b => if reverse then le (key b) (key a) else le (key a) (key b)) l.

End TaskQueryAux.


(** ** The timed Gemini response *)

Module GeminiAux.

Import TimedSubtitle GeminiTimed.

(** A region record that the loop turns into a region: not flagged as
    something else than a subtitle. *)
Definition is_selected (region_data : RegionData) : Prop :=
  rd_is_subtitle region_data <> Some false.

(** The record has all the keys that the loop reads without a default. *)
Definition is_complete (region_data : RegionData) : Prop :=
  is_Some (rd_frame_no region_data) /\ is_Some (rd_x region_data) /\
  is_Some (rd_y region_data) /\ is_Some (rd_width region_data) /\
  is_Some (rd_height region_data) /\ is_Some (rd_confidence region_data).

(** The number of frames by which the time range of a record is widened on
    each side, [int(fps * 2.5) // 2]: the product in double precision,
    truncated towards zero and halved by integer division.  There is none
    when the product is infinite. *)
Definition half_duration (fps : Q) : option Z :=
  match Py.round (fps * (5 # 2)) with
  | Py.FFinite product => Some (Z.quot (Qnum product) (Zpos (Qden product)) / 2)
  | Py.FInfinite _ => None
  end.

(** The time range built from the frame number of a region record. *)
Definition window_of (total_frames : Z) (k : Z) (frame_no : Z) : Z * Z :=
  (Z.max 0 (frame_no - k), Z.min (total_frames - 1) (frame_no + k)).

(** The response whose first chunk has [candidate] as its first candidate. *)
Definition response_of (candidate : Candidate) (candidates : list Candidate)
  (chunks : list Chunk) : list Chunk :=
  mkChunk (Some (candidate :: candidates)) :: chunks.

(** The candidate whose content has a first part with the text [text]
    ([None] when the part has no text). *)
Definition candidate_of (text : option string) (parts : list Part) : Candidate :=
  mkCandidate (Some (mkContent (Some (mkPart text :: parts)))).

(** The conversion of [result] cannot succeed: a region record that is not
    flagged as a non-subtitle lacks a key or meets an infinite product
    [fps * 2.5], or the result lacks one of its two keys. *)
Definition unusable (fps : Q) (result : Result) : Prop :=
  (exists region_data,
     region_data ∈ default [] (r_timed_regions result) /\
     is_selected region_data /\
     (~ is_complete region_data \/ half_duration fps = None)) \/
  r_has_subtitles result = None \/ r_subtitle_type result = None.

(** [region] was built from [region_data]. *)
Definition built_from (total_frames : Z) (fps : Q)
  (region_data : RegionData) (region : TimedSubtitleRegion) : Prop :=
  is_selected region_data /\
  exists frame_no k,
    rd_frame_no region_data = Some frame_no /\
    half_duration fps = Some k /\
    (start_frame region, end_frame region) = window_of total_frames k frame_no /\
    rd_x region_data = Some (x region) /\ rd_y region_data = Some (y region) /\
    rd_width region_data = Some (width region) /\
    rd_height region_data = Some (height region).

End GeminiAux.

(** * Properties *)

(** ** Python primitives *)

Module PyFacts.

Import Py.

Lemma prefix_iff (s t : string) :
  String.prefix s t = true <-> exists after, t = s +:+ after.
Proof.
  revert t. induction s as [|a s IH]; intros t.
  - split; [intros _; now exists t | intros _; now destruct t].
  - destruct t as [|b t]; simpl.
    + split; [discriminate | intros [after H]; discriminate].
    + destruct (ascii_dec a b) as [->|Hab].
      * split.
        -- intros H. apply IH in H as [after H]. exists after. now rewrite H.
        -- intros [after H]. apply IH. exists after. now injection H.
      * split; [discriminate | intros [after H]; injection H; congruence].
Qed.

Lemma str_contains_nil (s : string) :
  str_contains s EmptyString = String.prefix s EmptyString.
Proof. unfold str_contains. now destruct (String.prefix s EmptyString). Qed.

Lemma str_contains_cons (s : string) (b : ascii) (t : string) :
  str_contains s (String b t) =
  if String.prefix s (String b t) then true else str_contains s t.
Proof. reflexivity. Qed.

Lemma str_contains_iff (s t : string) :
  str_contains s t = true <-> exists before after, t = before +:+ s +:+ after.
Proof.
  induction t as [|b t IH].
  - rewrite str_contains_nil, prefix_iff. split.
    + intros [after H]. now exists EmptyString, after.
    + intros [before [after H]].
      destruct before; [now exists after | discriminate].
  - rewrite str_contains_cons.
    destruct (String.prefix s (String b t)) eqn:Hp.
    + apply prefix_iff in Hp as [after H]. split; [intros _|reflexivity].
      now exists EmptyString, after.
    + rewrite IH. split; intros [before [after H]].
      * exists (String b before), after. simpl. now rewrite H.
      * destruct before as [|c before]; simpl in H.
        -- assert (String.prefix s (String b t) = true) by (apply prefix_iff; eauto).
           congruence.
        -- injection H as _ H. eauto.
Qed.

Lemma str_truthy_iff (s : string) : str_truthy s = true <-> s <> EmptyString.
Proof. destruct s; simpl; split; congruence. Qed.

End PyFacts.

(** ** Overlap merge ([merge_overlapping_regions]) *)

Module MergeFacts.

Import TimedSubtitle MergeAux.

(** *** The stable sort *)

Lemma insert_by_start_perm r l : Permutation (insert_by_start r l) (r :: l).
Proof.
  induction l as [|h t IH]; simpl; [reflexivity|].
  destruct (start_frame r <=? start_frame h); [reflexivity|].
  rewrite IH. apply perm_swap.
Qed.

Lemma sorted_by_start_perm l : Permutation (sorted_by_start l) l.
Proof.
  induction l as [|r t IH]; simpl; [reflexivity|].
  rewrite insert_by_start_perm. now constructor.
Qed.

Lemma sorted_by_start_length l : length (sorted_by_start l) = length l.
Proof. apply Permutation_length, sorted_by_start_perm. Qed.

Lemma ascending_cons a l :
  ascending (a :: l) <->
  (match l with [] => True | b :: _ => start_frame a <= start_frame b end) /\ ascending l.
Proof. destruct l; simpl; tauto. Qed.

Lemma insert_by_start_head r l :
  exists h t, insert_by_start r l = h :: t /\
    (h = r \/ (exists t', l = h :: t' /\ start_frame h < start_frame r)).
Proof.
  destruct l as [|h t]; simpl; [eauto|].
  destruct (Z.leb_spec (start_frame r) (start_frame h)); eauto 8.
Qed.

Lemma insert_by_start_ascending r l :
  ascending l -> ascending (insert_by_start r l).
Proof.
  induction l as [|h t IH]; intros Hl; simpl; [exact I|].
  destruct (Z.leb_spec (start_frame r) (start_frame h)) as [Hle|Hlt].
  - apply ascending_cons. split; [exact Hle|exact Hl].
  - apply ascending_cons in Hl as [Hh Ht].
    apply ascending_cons. split; [|auto].
    destruct (insert_by_start_head r t) as (h' & t' & -> & [->|(t'' & -> & _)]).
    + lia.
    + exact Hh.
Qed.

Lemma sorted_by_start_ascending l : ascending (sorted_by_start l).
Proof.
  induction l as [|r t IH]; simpl; [exact I|].
  now apply insert_by_start_ascending.
Qed.

(** Elements of equal start frame keep their relative order. *)
Lemma insert_by_start_stable k r l :
  ascending l ->
  filter (fun a => start_frame a = k) (insert_by_start r l) =
  filter (fun a => start_frame a = k) (r :: l).
Proof.
  induction l as [|h t IH]; intros Hl; simpl; [reflexivity|].
  destruct (Z.leb_spec (start_frame r) (start_frame h)) as [Hle|Hlt]; [reflexivity|].
  apply ascending_cons in Hl as [_ Ht].
  rewrite filter_cons, (IH Ht), !filter_cons.
  repeat case_decide; try reflexivity. lia.
Qed.

Lemma sorted_by_start_stable k l :
  filter (fun a => start_frame a = k) (sorted_by_start l) =
  filter (fun a => start_frame a = k) l.
Proof.
  induction l as [|r t IH]; simpl; [reflexivity|].
  rewrite insert_by_start_stable by apply sorted_by_start_ascending.
  rewrite !filter_cons, IH. reflexivity.
Qed.

(** A list already in order is left as it is. *)
Lemma sorted_by_start_fixed l : ascending l -> sorted_by_start l = l.
Proof.
  induction l as [|a t IH]; intros Hl; simpl; [reflexivity|].
  apply ascending_cons in Hl as [Ha Ht]. rewrite (IH Ht).
  destruct t as [|b t']; simpl; [reflexivity|].
  destruct (Z.leb_spec (start_frame a) (start_frame b)); [reflexivity|lia].
Qed.

(** *** The loop *)

Lemma merge_step_snoc thr pre l r :
  merge_step thr (pre ++ [l]) r =
  if can_merge thr l r then pre ++ [absorb l r] else pre ++ [l; r].
Proof.
  unfold merge_step. rewrite last_snoc, removelast_last.
  destruct (can_merge thr l r); [reflexivity|].
  now rewrite <- app_assoc.
Qed.

Lemma fold_merge_step_walk thr rs : forall pre l,
  fold_left (merge_step thr) rs (pre ++ [l]) = pre ++ walk thr l rs.
Proof.
  induction rs as [|r rs IH]; intros pre l; simpl; [reflexivity|].
  rewrite merge_step_snoc.
  destruct (can_merge thr l r).
  - apply IH.
  - change (pre ++ [l; r]) with (pre ++ [l] ++ [r]).
    rewrite app_assoc, IH, <- app_assoc. reflexivity.
Qed.

Lemma merge_regions_walk thr regions :
  merge_regions thr regions =
  match sorted_by_start regions with
  | [] => []
  | h :: t => walk thr h t
  end.
Proof.
  unfold merge_regions. destruct regions as [|r rs]; [reflexivity|].
  destruct (sorted_by_start (r :: rs)) as [|h t] eqn:E.
  - apply (f_equal (@length _)) in E. rewrite sorted_by_start_length in E. discriminate.
  - simpl. apply (fold_merge_step_walk thr t [] h).
Qed.

Lemma same_key_refl a : same_key a a.
Proof. unfold same_key; tauto. Qed.

Lemma same_key_absorb l r : same_key (absorb l r) l.
Proof. unfold same_key; simpl; tauto. Qed.

Lemma can_merge_same_key thr l c c' :
  same_key c c' -> can_merge thr l c = can_merge thr l c'.
Proof.
  intros (Hs & Hx & Hy & Hw & Hh). unfold can_merge.
  now rewrite Hs, Hx, Hy, Hw, Hh.
Qed.

Lemma walk_head thr rs : forall l,
  exists h t, walk thr l rs = h :: t /\ same_key h l.
Proof.
  induction rs as [|r rs IH]; intros l; simpl.
  - exists l, []. split; [reflexivity|apply same_key_refl].
  - destruct (can_merge thr l r).
    + destruct (IH (absorb l r)) as (h & t & E & (Hs & Hx & Hy & Hw & Hh)).
      exists h, t. split; [exact E|]. unfold same_key. simpl in *. tauto.
    + exists l, (walk thr r rs). split; [reflexivity|apply same_key_refl].
Qed.

Lemma walk_settled thr rs : forall l, settled thr (walk thr l rs).
Proof.
  induction rs as [|r rs IH]; intros l; simpl; [exact I|].
  destruct (can_merge thr l r) eqn:E; [apply IH|].
  specialize (IH r).
  destruct (walk_head thr rs r) as (h & t & Hw & Hk).
  rewrite Hw in *. simpl. split; [|exact IH].
  now rewrite (can_merge_same_key thr l h r Hk).
Qed.

Lemma walk_ascending thr rs : forall l,
  ascending (l :: rs) -> ascending (walk thr l rs).
Proof.
  induction rs as [|r rs IH]; intros l Hl; simpl; [exact I|].
  apply ascending_cons in Hl as [Hlr Hr].
  destruct (can_merge thr l r).
  - apply IH. apply ascending_cons. apply ascending_cons in Hr as [Hr Hrs].
    split; [|exact Hrs]. destruct rs; simpl in *; lia.
  - specialize (IH r Hr).
    destruct (walk_head thr rs r) as (h & t & Hw & (Hs & _)).
    rewrite Hw in *. apply ascending_cons. split; [lia|exact IH].
Qed.

Lemma walk_fixed thr rs : forall l,
  settled thr (l :: rs) -> walk thr l rs = l :: rs.
Proof.
  induction rs as [|r rs IH]; intros l Hl; simpl; [reflexivity|].
  destruct Hl as [E Hr]. rewrite E. f_equal. now apply IH.
Qed.

Lemma merge_regions_settled thr regions : settled thr (merge_regions thr regions).
Proof.
  rewrite merge_regions_walk.
  destruct (sorted_by_start regions); [exact I|apply walk_settled].
Qed.

Lemma merge_regions_ascending thr regions : ascending (merge_regions thr regions).
Proof.
  rewrite merge_regions_walk.
  pose proof (sorted_by_start_ascending regions) as H.
  destruct (sorted_by_start regions); [exact I|now apply walk_ascending].
Qed.

Lemma merge_regions_fixed thr regions :
  ascending regions -> settled thr regions -> merge_regions thr regions = regions.
Proof.
  intros Ha Hs. rewrite merge_regions_walk, (sorted_by_start_fixed _ Ha).
  destruct regions; [reflexivity|now apply walk_fixed].
Qed.

Lemma merge_regions_idempotent thr regions :
  merge_regions thr (merge_regions thr regions) = merge_regions thr regions.
Proof.
  apply merge_regions_fixed;
    [apply merge_regions_ascending|apply merge_regions_settled].
Qed.

(** *** The merge test and the merged region *)

Lemma can_merge_iff thr l r : can_merge thr l r = true <-> merge_conditions thr l r.
Proof.
  unfold can_merge, merge_conditions.
  rewrite !andb_true_iff, !Z.leb_le. tauto.
Qed.

Lemma can_merge_false_iff thr l r :
  can_merge thr l r = false <-> ~ merge_conditions thr l r.
Proof. rewrite <- can_merge_iff. now destruct (can_merge thr l r). Qed.

Lemma absorb_text_appended l r :
  text_content r <> EmptyString ->
  ~ is_substring (text_content r) (text_content l) ->
  text_content (absorb l r) = text_content l +:+ " | " +:+ text_content r.
Proof.
  intros Hne Hsub. simpl.
  apply PyFacts.str_truthy_iff in Hne. rewrite Hne.
  destruct (Py.str_contains (text_content r) (text_content l)) eqn:E; [|reflexivity].
  apply PyFacts.str_contains_iff in E. contradiction.
Qed.

Lemma absorb_text_kept l r :
  ~ (text_content r <> EmptyString /\ ~ is_substring (text_content r) (text_content l)) ->
  text_content (absorb l r) = text_content l.
Proof.
  intros H. simpl.
  destruct (Py.str_truthy (text_content r)) eqn:Ht; [|reflexivity].
  destruct (Py.str_contains (text_content r) (text_content l)) eqn:E; [reflexivity|].
  exfalso. apply H. split.
  - now apply PyFacts.str_truthy_iff.
  - intros Hs. apply PyFacts.str_contains_iff in Hs. congruence.
Qed.

(** Three regions at the same place: the second starts 5 frames after the
    first ends and is absorbed, the third starts 70 frames later and is
    kept. *)
Example merge_regions_example :
  merge_regions default_time_threshold
    [ mkRegion 100 130 12 400 300 40 (1 # 2) "c";
      mkRegion 0 10 10 400 300 40 (9 # 10) "a";
      mkRegion 15 30 12 401 310 45 (7 # 10) "b" ]
  = [ mkRegion 0 30 10 400 300 40 (((9 # 10) + (7 # 10)) / 2) "a | b";
      mkRegion 100 130 12 400 300 40 (1 # 2) "c" ].
Proof. reflexivity. Qed.

(** C3. The overlap-merge pass is idempotent on its own output: merging the
    regions of an analysis that has already been merged (same time
    threshold) changes nothing. *)
Theorem merge_overlapping_regions_idempotent
  (time_threshold : Z) (analysis : TimedSubtitleAnalysis) :
  merge_overlapping_regions time_threshold
    (merge_overlapping_regions time_threshold analysis)
  = merge_overlapping_regions time_threshold analysis.
Proof.
  unfold merge_overlapping_regions. simpl.
  now rewrite merge_regions_idempotent.
Qed.

(** C4. The pass walks the regions sorted by start frame (a stable sort of
    the input).  The first region is accepted as it is.  After that a
    candidate [region] is merged into the last accepted region exactly when
    the five conditions hold (|dx| <= 20, |dy| <= 20, |dwidth| <= 30,
    |dheight| <= 20, start - last.end <= threshold, 10 by default); otherwise
    it is appended.  On a merge the last region gets the candidate's end
    frame and the average of the two confidences, and the candidate's text
    is appended after the delimiter [" | "] exactly when it is non-empty and
    does not occur in the last region's text; its start frame and box stay. *)
Theorem merge_step_characterisation
  (time_threshold : Z) (regions pre : list TimedSubtitleRegion)
  (last_region region : TimedSubtitleRegion) :
  let merged := pre ++ [last_region] in
  let last' := absorb last_region region in
  (merge_regions time_threshold regions =
     fold_left (merge_step time_threshold) (sorted_by_start regions) [] /\
   ascending (sorted_by_start regions) /\
   Permutation (sorted_by_start regions) regions /\
   default_time_threshold = 10) /\
  merge_step time_threshold [] region = [region] /\
  (merge_conditions time_threshold last_region region ->
     merge_step time_threshold merged region = pre ++ [last']) /\
  (~ merge_conditions time_threshold last_region region ->
     merge_step time_threshold merged region = merged ++ [region]) /\
  end_frame last' = end_frame region /\
  confidence last' = ((confidence last_region + confidence region) / 2)%Q /\
  (text_content region <> EmptyString /\
   ~ is_substring (text_content region) (text_content last_region) ->
     text_content last' =
     text_content last_region +:+ " | " +:+ text_content region) /\
  (~ (text_content region <> EmptyString /\
      ~ is_substring (text_content region) (text_content last_region)) ->
     text_content last' = text_content last_region) /\
  same_key last' last_region.
Proof.
  intros merged last'. subst merged last'.
  split; [|split; [|split; [|split; [|split; [|split; [|split; [|split]]]]]]].
  - repeat split.
    + unfold merge_regions. now destruct regions.
    + apply sorted_by_start_ascending.
    + apply sorted_by_start_perm.
  - reflexivity.
  - intros H. apply can_merge_iff in H. now rewrite merge_step_snoc, H.
  - intros H. apply can_merge_false_iff in H.
    rewrite merge_step_snoc, H. now rewrite <- app_assoc.
  - reflexivity.
  - reflexivity.
  - intros [Hne Hsub]. now apply absorb_text_appended.
  - apply absorb_text_kept.
  - apply same_key_absorb.
Qed.

(** *** Further facts on the pass *)

Lemma walk_length thr rs : forall l,
  (length (walk thr l rs) <= S (length rs))%nat.
Proof.
  induction rs as [|r rs IH]; intros l; simpl; [lia|].
  destruct (can_merge thr l r).
  - specialize (IH (absorb l r)). lia.
  - specialize (IH r). simpl. lia.
Qed.

(** [sorted(..., key=start_frame)] as modelled is a stable sort: the result
    is a rearrangement of the input, in start-frame order, in which the
    regions of any one start frame come in their input order. *)
Theorem sorted_by_start_is_stable_sort (l : list TimedSubtitleRegion) :
  Permutation (sorted_by_start l) l /\
  ascending (sorted_by_start l) /\
  forall k,
    filter (fun a => start_frame a = k) (sorted_by_start l) =
    filter (fun a => start_frame a = k) l.
Proof.
  split; [apply sorted_by_start_perm|].
  split; [apply sorted_by_start_ascending|].
  intros k. apply sorted_by_start_stable.
Qed.

(** The consolidated list is in start-frame order, no region of it satisfies
    the merge test against its predecessor, and it is no longer than the
    input. *)
Theorem merge_regions_output (time_threshold : Z) (regions : list TimedSubtitleRegion) :
  ascending (merge_regions time_threshold regions) /\
  settled time_threshold (merge_regions time_threshold regions) /\
  (length (merge_regions time_threshold regions) <= length regions)%nat.
Proof.
  split; [apply merge_regions_ascending|].
  split; [apply merge_regions_settled|].
  rewrite merge_regions_walk, <- (sorted_by_start_length regions).
  destruct (sorted_by_start regions) as [|h t]; simpl; [lia|].
  apply walk_length.
Qed.

End MergeFacts.


(** ** The pass on objects in a store *)

Module HeapFacts.

Import TimedSubtitle TimedSubtitleHeap MergeAux.

Lemma insert_ref_deref h ref l :
  map (deref h) (insert_ref h ref l) = insert_by_start (deref h ref) (map (deref h) l).
Proof.
  induction l as [|a t IH]; simpl; [reflexivity|].
  destruct (start_frame (deref h ref) <=? start_frame (deref h a)); simpl; [reflexivity|].
  now rewrite IH.
Qed.

Lemma sorted_refs_deref h refs :
  map (deref h) (sorted_refs h refs) = sorted_by_start (map (deref h) refs).
Proof.
  induction refs as [|ref t IH]; simpl; [reflexivity|].
  now rewrite insert_ref_deref, IH.
Qed.

Lemma insert_ref_perm h ref l : Permutation (insert_ref h ref l) (ref :: l).
Proof.
  induction l as [|a t IH]; simpl; [reflexivity|].
  destruct (start_frame (deref h ref) <=? start_frame (deref h a)); [reflexivity|].
  rewrite IH. apply perm_swap.
Qed.

Lemma sorted_refs_perm h refs : Permutation (sorted_refs h refs) refs.
Proof.
  induction refs as [|ref t IH]; simpl; [reflexivity|].
  rewrite insert_ref_perm. now constructor.
Qed.

Lemma sorted_refs_fixed h refs :
  ascending (map (deref h) refs) -> sorted_refs h refs = refs.
Proof.
  induction refs as [|a t IH]; intros Hl; simpl; [reflexivity|].
  change (map (deref h) (a :: t)) with (deref h a :: map (deref h) t) in Hl.
  apply MergeFacts.ascending_cons in Hl as [Ha Ht]. rewrite (IH Ht).
  destruct t as [|b t']; simpl; [reflexivity|]. simpl in Ha.
  destruct (Z.leb_spec (start_frame (deref h a)) (start_frame (deref h b)));
    [reflexivity|lia].
Qed.

(** An assignment to one object is not seen through other addresses. *)
Lemma deref_insert_eq (h : Heap) a v : deref (<[a := v]> h) a = v.
Proof. unfold deref. apply lookup_total_insert_eq. Qed.

Lemma map_deref_insert (h : Heap) a v l :
  a ∉ l -> map (deref (<[a := v]> h)) l = map (deref h) l.
Proof.
  intros Ha. apply map_ext_in. intros b Hb. unfold deref.
  apply lookup_total_insert_ne. intros ->. apply Ha. now apply list_elem_of_In.
Qed.

(** On distinct objects the loop in place computes what the loop on values
    computes. *)
Lemma fold_heap_walk thr rs : forall h pre l,
  NoDup (pre ++ l :: rs) ->
  map (deref (fold_left (merge_step_heap thr) rs (h, pre ++ [l])).1)
      (fold_left (merge_step_heap thr) rs (h, pre ++ [l])).2
  = map (deref h) pre ++ walk thr (deref h l) (map (deref h) rs).
Proof.
  induction rs as [|r rs IH]; intros h pre l Hnd.
  - simpl. now rewrite map_app.
  - cbn [fold_left]. unfold merge_step_heap at 2 4. rewrite last_snoc.
    cbn [map walk].
    apply NoDup_app in Hnd as (Hpre & Hdisj & Hlrs).
    apply NoDup_cons in Hlrs as [Hl Hrs]. apply NoDup_cons in Hrs as [Hr Hrs].
    assert (Hlpre : l ∉ pre) by (intros H; apply (Hdisj l H); constructor).
    destruct (can_merge thr (deref h l) (deref h r)).
    + rewrite IH.
      * rewrite deref_insert_eq, !map_deref_insert; [reflexivity| |exact Hlpre].
        intros H. apply Hl. now constructor.
      * apply NoDup_app. split; [exact Hpre|]. split.
        -- intros a Ha Ha'. apply (Hdisj a Ha).
           apply elem_of_cons in Ha' as [->|Ha']; [constructor|].
           now do 2 constructor.
        -- apply NoDup_cons. split; [|exact Hrs].
           intros H. apply Hl. now constructor.
    + rewrite IH.
      * rewrite map_app, <- app_assoc. reflexivity.
      * rewrite <- app_assoc. simpl.
        apply NoDup_app. split; [exact Hpre|]. split; [exact Hdisj|].
        apply NoDup_cons. split; [exact Hl|]. now apply NoDup_cons.
Qed.

(** A list already consolidated is left alone, and so is the store. *)
Lemma fold_heap_fixed thr rs : forall h pre l,
  settled thr (map (deref h) (l :: rs)) ->
  fold_left (merge_step_heap thr) rs (h, pre ++ [l]) = (h, pre ++ l :: rs).
Proof.
  induction rs as [|r rs IH]; intros h pre l Hs; [reflexivity|].
  cbn [fold_left]. unfold merge_step_heap at 2. rewrite last_snoc.
  destruct Hs as [E Hs]. rewrite E.
  rewrite (IH h (pre ++ [l]) r Hs). now rewrite <- app_assoc.
Qed.

Lemma merge_heap_values thr h refs :
  NoDup refs ->
  map (deref (merge_heap thr h refs).1) (merge_heap thr h refs).2
  = merge_regions thr (map (deref h) refs).
Proof.
  intros Hnd. rewrite MergeFacts.merge_regions_walk, <- sorted_refs_deref.
  unfold merge_heap. destruct refs as [|r0 refs]; [reflexivity|].
  assert (Hs : NoDup (sorted_refs h (r0 :: refs))) by now rewrite sorted_refs_perm.
  destruct (sorted_refs h (r0 :: refs)) as [|a rs] eqn:E.
  - apply (f_equal (@length _)) in E.
    rewrite (Permutation_length (sorted_refs_perm h (r0 :: refs))) in E. discriminate.
  - cbn [fold_left map]. change (merge_step_heap thr (h, []) a) with (h, [] ++ [a]).
    now rewrite (fold_heap_walk thr rs h [] a).
Qed.

(** For a list of distinct region objects, the pass in place leaves the
    objects with the values that the pass on values computes, and a second
    pass changes neither the list nor any object of the store. *)
Theorem merge_heap_refines_and_settles
  (time_threshold : Z) (h : Heap) (refs : list nat) :
  NoDup refs ->
  let h1 := (merge_heap time_threshold h refs).1 in
  let merged := (merge_heap time_threshold h refs).2 in
  map (deref h1) merged = merge_regions time_threshold (map (deref h) refs) /\
  merge_heap time_threshold h1 merged = (h1, merged).
Proof.
  intros Hnd h1 merged.
  pose proof (merge_heap_values time_threshold h refs Hnd) as Hv.
  fold h1 merged in Hv. split; [exact Hv|].
  pose proof (MergeFacts.merge_regions_ascending time_threshold (map (deref h) refs)) as Ha.
  pose proof (MergeFacts.merge_regions_settled time_threshold (map (deref h) refs)) as Hs.
  rewrite <- Hv in Ha, Hs.
  unfold merge_heap. destruct merged as [|a rs]; [reflexivity|].
  rewrite (sorted_refs_fixed h1 (a :: rs) Ha).
  cbn [fold_left]. change (merge_step_heap time_threshold (h1, []) a) with (h1, [] ++ [a]).
  now rewrite (fold_heap_fixed time_threshold rs h1 [] a Hs).
Qed.

(** Two objects at the same place, the second starting 5 frames after the
    first ends: the first object is updated in place and is the only one
    left in the list. *)
Lemma merge_heap_refines_and_settles_witness :
  let h : Heap := {[ 1%nat := mkRegion 0 10 10 400 300 40 (9 # 10) "a";
                     2%nat := mkRegion 15 30 12 401 310 45 (7 # 10) "b" ]} in
  let refs := [2%nat; 1%nat] in
  NoDup refs /\
  let h1 := (merge_heap 10 h refs).1 in
  let merged := (merge_heap 10 h refs).2 in
  map (deref h1) merged = merge_regions 10 (map (deref h) refs) /\
  merge_heap 10 h1 merged = (h1, merged).
Proof.
  intros h refs.
  assert (Hnd : NoDup refs).
  { apply NoDup_cons. split; [|apply NoDup_singleton].
    intros H. apply list_elem_of_singleton in H. discriminate. }
  split; [exact Hnd|]. exact (merge_heap_refines_and_settles 10 h refs Hnd).
Defined.

Example merge_heap_example :
  let h : Heap := {[ 1%nat := mkRegion 0 10 10 400 300 40 (9 # 10) "a";
                     2%nat := mkRegion 15 30 12 401 310 45 (7 # 10) "b" ]} in
  (merge_heap 10 h [2%nat; 1%nat]).2 = [1%nat] /\
  (merge_heap 10 h [2%nat; 1%nat]).1 !! 1%nat =
    Some (mkRegion 0 30 10 400 300 40 (((9 # 10) + (7 # 10)) / 2) "a | b").
Proof. split; vm_compute; reflexivity. Qed.

End HeapFacts.

(** ** Arithmetic of the detection paths *)

Module NumFacts.

Import Py DetectAux.

Lemma fold_min_spec t : forall h,
  In (fold_left Z.min t h) (h :: t) /\ Forall (Z.le (fold_left Z.min t h)) (h :: t).
Proof.
  induction t as [|a t IH]; intros h; simpl.
  - split; [now left|]. constructor; [lia|constructor].
  - destruct (IH (Z.min h a)) as [Hin Hall].
    inversion Hall as [|? ? Hh Ht]; subst. split.
    + destruct Hin as [Hin|Hin]; [|now right; right].
      rewrite <- Hin. destruct (Z.min_spec h a) as [[_ ->]|[_ ->]]; auto.
    + constructor; [lia|]. constructor; [lia|exact Ht].
Qed.

Lemma fold_max_spec t : forall h,
  In (fold_left Z.max t h) (h :: t) /\ Forall (Z.ge (fold_left Z.max t h)) (h :: t).
Proof.
  induction t as [|a t IH]; intros h; simpl.
  - split; [now left|]. constructor; [lia|constructor].
  - destruct (IH (Z.max h a)) as [Hin Hall].
    inversion Hall as [|? ? Hh Ht]; subst. split.
    + destruct Hin as [Hin|Hin]; [|now right; right].
      rewrite <- Hin. destruct (Z.max_spec h a) as [[_ ->]|[_ ->]]; auto.
    + constructor; [lia|]. constructor; [lia|exact Ht].
Qed.

Lemma py_min_spec l : l <> [] -> exists m, py_min l = Some m /\ is_min m l.
Proof.
  destruct l as [|h t]; [congruence|]. intros _.
  exists (fold_left Z.min t h). split; [reflexivity|apply fold_min_spec].
Qed.

Lemma py_max_spec l : l <> [] -> exists m, py_max l = Some m /\ is_max m l.
Proof.
  destruct l as [|h t]; [congruence|]. intros _.
  exists (fold_left Z.max t h). split; [reflexivity|apply fold_max_spec].
Qed.

Lemma is_min_bounds (P : Z -> Prop) m l : is_min m l -> Forall P l -> P m.
Proof. intros [Hin _] H. rewrite List.Forall_forall in H. auto. Qed.

Lemma is_max_bounds (P : Z -> Prop) m l : is_max m l -> Forall P l -> P m.
Proof. intros [Hin _] H. rewrite List.Forall_forall in H. auto. Qed.

Lemma is_min_le_max lo hi l : is_min lo l -> is_max hi l -> lo <= hi.
Proof.
  intros [Hin _] [_ Hall]. rewrite List.Forall_forall in Hall.
  specialize (Hall _ Hin). lia.
Qed.

(** On a non-negative float [int] is the floor. *)
Lemma py_int_nonneg q : (0 <= q)%Q -> 0 <= py_int q /\ (inject_Z (py_int q) <= q)%Q.
Proof.
  intros H. unfold py_int.
  apply Qle_bool_iff in H as Hb. rewrite Hb. split.
  - apply Qfloor_resp_le in H. exact H.
  - apply Qfloor_le.
Qed.

(** [int] truncates towards zero. *)
Lemma py_int_quot (q : Q) : py_int q = Z.quot (Qnum q) (Zpos (Qden q)).
Proof.
  destruct q as [n d]. unfold py_int, Qle_bool, Qceiling, Qfloor.
  cbn [Qnum Qden Qopp]. rewrite Z.mul_1_r. change (0 * Z.pos d) with 0.
  destruct (Z.leb_spec 0 n) as [H|H].
  - symmetry. apply Z.quot_div_nonneg; lia.
  - rewrite <- (Z.opp_involutive n) at 2. rewrite Z.quot_opp_l by lia.
    f_equal. symmetry. apply Z.quot_div_nonneg; lia.
Qed.

Lemma qsum_acc l : forall a, (fold_left Qplus l a == a + fold_left Qplus l 0)%Q.
Proof.
  induction l as [|q l IH]; intros a; simpl.
  - ring.
  - rewrite (IH (a + q)%Q), (IH (0 + q)%Q). ring.
Qed.

Lemma qsum_cons q l :
  (fold_left Qplus (q :: l) 0 == q + fold_left Qplus l 0)%Q.
Proof. simpl. rewrite qsum_acc. ring. Qed.

Section Means.

Context {A : Type} (f g : A -> Z) (B : Z).

Lemma qsum_nonneg l :
  Forall (fun a => 0 <= f a) l ->
  (0 <= fold_left Qplus (map (fun a => inject_Z (f a)) l) 0)%Q.
Proof.
  induction 1 as [|a l Ha _ IH].
  - simpl. lra.
  - rewrite map_cons, qsum_cons.
    rewrite Zle_Qle in Ha. change (0 <= inject_Z (f a))%Q in Ha. lra.
Qed.

Lemma qsum_pair_bound l :
  Forall (fun a => f a + g a <= B) l ->
  (fold_left Qplus (map (fun a => inject_Z (f a)) l) 0 +
   fold_left Qplus (map (fun a => inject_Z (g a)) l) 0
   <= inject_Z (Z.of_nat (length l)) * inject_Z B)%Q.
Proof.
  induction 1 as [|a l Ha _ IH].
  - simpl. change (inject_Z (Z.of_nat 0)) with 0%Q. lra.
  - rewrite !map_cons, !qsum_cons.
    change (length (a :: l)) with (S (length l)).
    rewrite Nat2Z.inj_succ. unfold Z.succ. rewrite inject_Z_plus.
    change (inject_Z 1) with 1%Q.
    rewrite Zle_Qle, inject_Z_plus in Ha. nra.
Qed.

(** Truncated means of two non-negative quantities whose sum is bounded. *)
Lemma truncated_means_bound l :
  l <> [] ->
  Forall (fun a => 0 <= f a) l ->
  Forall (fun a => 0 <= g a) l ->
  Forall (fun a => f a + g a <= B) l ->
  let mf := py_int (np_mean (map (fun a => inject_Z (f a)) l)) in
  let mg := py_int (np_mean (map (fun a => inject_Z (g a)) l)) in
  0 <= mf /\ 0 <= mg /\ mf + mg <= B.
Proof.
  intros Hne Hf Hg Hfg mf mg.
  pose proof (qsum_nonneg l Hf) as Sf0.
  assert (Sg0 : (0 <= fold_left Qplus (map (fun a => inject_Z (g a)) l) 0)%Q).
  { clear -Hg. induction Hg as [|a l Ha _ IH]; [simpl; lra|].
    rewrite map_cons, qsum_cons. rewrite Zle_Qle in Ha.
    change (0 <= inject_Z (g a))%Q in Ha. lra. }
  pose proof (qsum_pair_bound l Hfg) as Sfg.
  assert (Hn : (0 < inject_Z (Z.of_nat (length l)))%Q).
  { change 0%Q with (inject_Z 0). rewrite <- Zlt_Qlt.
    destruct l; [congruence|simpl; lia]. }
  set (n := inject_Z (Z.of_nat (length l))) in *.
  set (Sf := fold_left Qplus (map (fun a => inject_Z (f a)) l) 0%Q) in *.
  set (Sg := fold_left Qplus (map (fun a => inject_Z (g a)) l) 0%Q) in *.
  assert (Ef : np_mean (map (fun a => inject_Z (f a)) l) = (Sf / n)%Q).
  { unfold np_mean. now rewrite length_map. }
  assert (Eg : np_mean (map (fun a => inject_Z (g a)) l) = (Sg / n)%Q).
  { unfold np_mean. now rewrite length_map. }
  assert (Hmf : (0 <= Sf / n)%Q) by (apply Qle_shift_div_l; [exact Hn|lra]).
  assert (Hmg : (0 <= Sg / n)%Q) by (apply Qle_shift_div_l; [exact Hn|lra]).
  destruct (py_int_nonneg _ Hmf) as [Hf0 Hfle].
  destruct (py_int_nonneg _ Hmg) as [Hg0 Hgle].
  subst mf mg. rewrite Ef, Eg.
  split; [exact Hf0|]. split; [exact Hg0|].
  rewrite Zle_Qle, inject_Z_plus.
  assert (Hsum : (Sf / n + Sg / n <= inject_Z B)%Q).
  { assert (Heq : (Sf / n + Sg / n == (Sf + Sg) / n)%Q).
    { field. intros E. rewrite E in Hn. now apply Qlt_irrefl in Hn. }
    rewrite Heq. apply Qle_shift_div_r; [exact Hn|lra]. }
  lra.
Qed.

End Means.

End NumFacts.

(** ** Double precision *)

Module FloatFacts.

Import Py FloatAux.

Lemma div_half_even_bounds (N D : Z) :
  0 <= N -> 0 < D ->
  0 <= div_half_even N D /\ div_half_even N D * D <= 2 * N.
Proof.
  intros HN HD. unfold div_half_even.
  pose proof (Z.div_pos N D HN HD) as Hf.
  pose proof (Z.div_mod N D ltac:(lia)) as Hdm.
  pose proof (Z.mod_pos_bound N D HD) as Hr.
  destruct (Z.compare_spec (2 * (N mod D)) D) as [E|E|E].
  - destruct (Z.even (N / D)); split; nia.
  - split; nia.
  - split; nia.
Qed.

Lemma round_pos_bounds (n d : positive) (r : Q) :
  round_pos n d = Some r -> (0 <= r /\ r <= 2 * (Zpos n # d))%Q.
Proof.
  unfold round_pos.
  set (e := Z.max (ilog2 n d - 52) (-1074)).
  destruct (Z.leb_spec 0 e) as [He|He].
  - assert (P : 0 < 2 ^ e) by (apply Z.pow_pos_nonneg; lia).
    destruct (div_half_even_bounds (Zpos n) (Zpos d * 2 ^ e)) as [M0 M1]; [lia | nia |].
    destruct (2 ^ 1024 <=? _); [discriminate|].
    intros [= <-]. unfold Qle. simpl. split; nia.
  - assert (P : 0 < 2 ^ (- e)) by (apply Z.pow_pos_nonneg; lia).
    destruct (div_half_even_bounds (Zpos n * 2 ^ (- e)) (Zpos d)) as [M0 M1]; [nia | lia |].
    intros [= <-]. unfold Qle. simpl. rewrite Z2Pos.id by lia. split; nia.
Qed.

Lemma round_pos_finite (n d : positive) :
  (Zpos n # d < inject_Z (2 ^ 1023))%Q -> is_Some (round_pos n d).
Proof.
  unfold round_pos, Qlt. cbn [Qnum Qden inject_Z]. intros H.
  set (e := Z.max (ilog2 n d - 52) (-1074)).
  destruct (Z.leb_spec 0 e) as [He|He]; [|eauto].
  assert (P : 0 < 2 ^ e) by (apply Z.pow_pos_nonneg; lia).
  destruct (div_half_even_bounds (Zpos n) (Zpos d * 2 ^ e)) as [M0 M1]; [lia | nia |].
  set (m := div_half_even _ _) in *.
  destruct (Z.leb_spec (2 ^ 1024) (m * 2 ^ e)) as [L|L]; [|eauto].
  exfalso. change (2 ^ 1024) with (2 * 2 ^ 1023) in L.
  set (B := 2 ^ 1023) in *. clearbody B m. nia.
Qed.

(** A non-negative result below [2 ^ 1023] rounds to a finite float, which
    is non-negative and at most twice the result. *)
Lemma round_finite (q : Q) :
  (0 <= q)%Q -> (q < inject_Z (2 ^ 1023))%Q ->
  exists value, round q = FFinite value /\ (0 <= value)%Q /\ (value <= 2 * q)%Q.
Proof.
  destruct q as [[|n|n] d]; intros H0 H1.
  - exists 0%Q. split; [reflexivity|]. split; [apply Qle_refl | discriminate].
  - destruct (round_pos_finite n d H1) as [r Hr].
    exists r. unfold round, double. cbn [Qnum Qden]. rewrite Hr.
    split; [reflexivity|]. now apply round_pos_bounds.
  - exfalso. unfold Qle in H0. simpl in H0. lia.
Qed.

(** A finite float that rounds a non-negative result is non-negative. *)
Lemma round_nonneg (q value : Q) :
  (0 <= q)%Q -> round q = FFinite value -> (0 <= value)%Q.
Proof.
  destruct q as [[|n|n] d]; intros H0; unfold round, double; cbn [Qnum Qden].
  - intros [= <-]. apply Qle_refl.
  - destruct (round_pos n d) eqn:E; [|discriminate].
    intros [= <-]. now apply round_pos_bounds in E.
  - exfalso. unfold Qle in H0. simpl in H0. lia.
Qed.

Lemma int_of_float_nonneg (q : Q) (n : Z) :
  (0 <= q)%Q -> int_of_float (round q) = Some n -> 0 <= n.
Proof.
  intros H0. destruct (round q) eqn:E; [|discriminate].
  intros [= <-]. apply round_nonneg in E; [|assumption].
  now apply NumFacts.py_int_nonneg.
Qed.

Lemma int_of_float_finite (q : Q) :
  (0 <= q)%Q -> (q < inject_Z (2 ^ 1023))%Q ->
  exists n, int_of_float (round q) = Some n /\ 0 <= n.
Proof.
  intros H0 H1. destruct (round_finite q H0 H1) as (value & E & V0 & _).
  rewrite E. eexists. split; [reflexivity|]. now apply NumFacts.py_int_nonneg.
Qed.

(** The decimal literals of the source that the models round. *)
Example literals :
  Qred (float_literal (7 # 10)) = (3152519739159347 # 4503599627370496)%Q /\
  Qred (float_literal (3 # 10)) = (5404319552844595 # 18014398509481984)%Q /\
  Qred (float_literal (5 # 10)) = (1 # 2)%Q /\
  Qred (float_literal (232 # 10)) = (6530219459687219 # 281474976710656)%Q.
Proof. repeat split; vm_compute; reflexivity. Qed.

(** [23.2 * 2.5] is [58.0] in doubles, where the exact product of the two
    floats is below 58; [720 * 0.7] is below 504 in doubles. *)
Example rounded_products :
  option_map Qred (double (float_literal (232 # 10) * (5 # 2))) = Some 58%Q /\
  (float_literal (232 # 10) * (5 # 2) < 58)%Q /\
  int_of_float (float_mul (float_literal (232 # 10)) (5 # 2)) = Some 58 /\
  py_int (float_literal (232 # 10) * (5 # 2)) = 57 /\
  int_of_scaled 720 (float_literal (7 # 10)) = Some 503 /\
  int_of_scaled 1080 (float_literal (7 # 10)) = Some 756 /\
  int_of_float (float_mul (inject_Z (2 ^ 1023)) (5 # 2)) = None.
Proof. repeat split; vm_compute; reflexivity. Qed.

(** The rounding agrees with the binary64 operations of the Standard
    Library ([SFmul] and [SFdiv] of [SpecFloat]) on normal and subnormal
    numbers, on ties and on overflow. *)
Example round_agrees_with_SpecFloat :
  forallb mul_agrees
    [ (b64 6530219459687219 (-48), b64 5 (-1));
      (b64 720 0, b64 3152519739159347 (-52));
      (b64 360 0, b64 3152519739159347 (-52));
      (b64 1920 0, b64 5404319552844595 (-54));
      (b64 6567004985904981 (-48), b64 3 0);
      (b64 9007199254740991 0, b64 9007199254740991 0);
      (b64 4503599627370497 0, b64 3 (-1));
      (b64 1 1000, b64 1 24);
      (b64 9007199254740991 970, b64 3 (-1));
      (b64 1 (-1000), b64 3 (-76));
      (b64 1 (-1000), b64 1 (-75));
      (b64 5 (-1074), b64 1 (-1)) ] = true /\
  forallb div_agrees
    [ (b64 7 0, b64 10 0);
      (b64 1 0, b64 3 0);
      (b64 300 0, b64 7 0);
      (b64 1 (-1070), b64 3 0);
      (b64 9007199254740991 971, b64 1 (-1)) ] = true.
Proof. split; vm_compute; reflexivity. Qed.

End FloatFacts.


(** ** Detection paths ([AlternativeSubtitleDetector]) *)

Module DetectFacts.

Import TimedSubtitle AltDetect DetectAux.

(** *** Clusters *)

Lemma fold_left_invariant {S B} (P : S -> Prop) (f : S -> B -> S) (l : list B) :
  (forall st b, In b l -> P st -> P (f st b)) ->
  forall init, P init -> P (fold_left f l init).
Proof.
  induction l as [|b l IH]; intros Hstep init Hinit; simpl; [exact Hinit|].
  apply IH.
  - intros st b' Hb'. apply Hstep. now right.
  - apply Hstep; [now left|exact Hinit].
Qed.

Lemma enumerate_In {A} (l : list A) i a : In (i, a) (enumerate l) -> In a l.
Proof.
  unfold enumerate. rewrite <- !list_elem_of_In.
  intros H. apply elem_of_lookup_imap_1 in H as (j & b & E & Hl).
  injection E as -> ->. eapply list_elem_of_lookup_2, Hl.
Qed.

Lemma cluster_inner_ok thr regions region1 st :
  cluster_ok regions (fst st) ->
  cluster_ok regions
    (fst (fold_left (cluster_inner_step thr region1) (enumerate regions) st)).
Proof.
  apply (fold_left_invariant (fun st => cluster_ok regions (fst st))).
  intros [cluster used] [j region2] Hin [Hne Hall]. unfold cluster_inner_step.
  destruct (decide (j ∈ used)); [now split|].
  destruct (close_to thr region1 region2); [|now split].
  simpl. split.
  - destruct cluster; discriminate.
  - apply Forall_app. split; [exact Hall|].
    constructor; [|constructor]. eapply enumerate_In, Hin.
Qed.

Lemma cluster_outer_ok thr regions st ir :
  In ir (enumerate regions) ->
  Forall (cluster_ok regions) (fst st) ->
  Forall (cluster_ok regions) (fst (cluster_outer_step thr regions st ir)).
Proof.
  destruct st as [clusters used], ir as [i region1]. intros Hin Hall.
  unfold cluster_outer_step.
  destruct (decide (i ∈ used)); [exact Hall|].
  pose proof (cluster_inner_ok thr regions region1 ([region1], used ∪ {[i]})) as Hc.
  destruct (fold_left _ _ _) as [cluster used'].
  simpl in Hc.
  assert (Hok : cluster_ok regions cluster).
  { apply Hc. split; [discriminate|].
    constructor; [|constructor]. eapply enumerate_In, Hin. }
  destruct (0 <? Z.of_nat (length cluster)); [|exact Hall].
  simpl. apply Forall_app. split; [exact Hall|]. now constructor.
Qed.

Lemma _cluster_regions_ok regions thr :
  Forall (cluster_ok regions) (_cluster_regions regions thr).
Proof.
  unfold _cluster_regions. destruct regions as [|r rs]; [constructor|].
  apply (fold_left_invariant (fun st => Forall (cluster_ok (r :: rs)) (fst st))).
  - intros st ir Hin Hst. now apply cluster_outer_ok.
  - constructor.
Qed.

(** The example of the specification: two hits that differ by less than the
    tolerance in every dimension form one cluster. *)
Example _cluster_regions_example :
  _cluster_regions
    [ Hit.mk 0 10 10 50 20 "abc" (9 # 10); Hit.mk 5 12 11 49 21 "abc" (8 # 10) ]
    default_distance_threshold
  = [ [ Hit.mk 0 10 10 50 20 "abc" (9 # 10); Hit.mk 5 12 11 49 21 "abc" (8 # 10) ] ].
Proof. vm_compute. reflexivity. Qed.

(** Clustering is greedy and compares with the seed only: the third hit is
    close to the second but not to the first, and starts its own cluster. *)
Example _cluster_regions_greedy :
  _cluster_regions
    [ Hit.mk 0 0 0 100 20 "a" 1; Hit.mk 1 40 0 100 20 "b" 1; Hit.mk 2 80 0 100 20 "c" 1 ]
    default_distance_threshold
  = [ [ Hit.mk 0 0 0 100 20 "a" 1; Hit.mk 1 40 0 100 20 "b" 1 ];
      [ Hit.mk 2 80 0 100 20 "c" 1 ] ].
Proof. vm_compute. reflexivity. Qed.

(** *** The OCR path *)

Lemma ocr_half_duration_eq self :
  ocr_half_duration self =
  option_map (fun duration_frames => duration_frames / 2)
             (Py.int_of_float (Py.float_mul (self_fps self) (5 # 2))).
Proof.
  unfold ocr_half_duration, Py.float_mul.
  destruct (Py.round _); [|reflexivity]. simpl. now rewrite NumFacts.py_int_quot.
Qed.

Lemma ocr_half_duration_nonneg self k :
  (0 <= self_fps self)%Q -> ocr_half_duration self = Some k -> 0 <= k.
Proof.
  intros Hfps. rewrite ocr_half_duration_eq. unfold Py.float_mul.
  destruct (Py.int_of_float _) as [d|] eqn:E; [|discriminate].
  intros [= <-]. apply Z.div_pos; [|lia].
  apply (FloatFacts.int_of_float_nonneg (self_fps self * (5 # 2)) d); [|exact E].
  apply Qmult_le_0_compat; [exact Hfps|lra].
Qed.

(** The product [fps * 2.5] is finite when [fps] is below [2 ^ 1021]. *)
Lemma ocr_half_duration_Some self :
  (0 <= self_fps self)%Q -> (self_fps self < inject_Z (2 ^ 1021))%Q ->
  exists k, ocr_half_duration self = Some k.
Proof.
  intros H0 H1. rewrite ocr_half_duration_eq. unfold Py.float_mul.
  destruct (FloatFacts.int_of_float_finite (self_fps self * (5 # 2))) as (d & -> & _).
  - apply Qmult_le_0_compat; [exact H0|lra].
  - change (inject_Z (2 ^ 1023)) with (inject_Z (2 ^ 1021) * 4)%Q.
    set (B := inject_Z (2 ^ 1021)) in *. clearbody B. lra.
  - now eexists.
Qed.

Lemma ocr_region_of_cluster_Some self k cluster :
  ocr_half_duration self = Some k ->
  cluster <> [] ->
  exists lo hi region,
    is_min lo (map Hit.frame_no cluster) /\
    is_max hi (map Hit.frame_no cluster) /\
    ocr_region_of_cluster self cluster = Some region /\
    start_frame region = Z.max 0 (lo - k) /\
    end_frame region = Z.min (self_total_frames self - 1) (hi + k) /\
    x region = Py.py_int (Py.np_mean (map (fun r => inject_Z (Hit.x r)) cluster)) /\
    y region = Py.py_int (Py.np_mean (map (fun r => inject_Z (Hit.y r)) cluster)) /\
    width region = Py.py_int (Py.np_mean (map (fun r => inject_Z (Hit.width r)) cluster)) /\
    height region = Py.py_int (Py.np_mean (map (fun r => inject_Z (Hit.height r)) cluster)).
Proof.
  rewrite ocr_half_duration_eq. intros Hk Hne.
  destruct (Py.int_of_float _) as [d|] eqn:Ed; [|discriminate].
  injection Hk as <-.
  assert (Hf : map Hit.frame_no cluster <> []) by (destruct cluster; [congruence|discriminate]).
  destruct (NumFacts.py_min_spec _ Hf) as (lo & Elo & Hlo).
  destruct (NumFacts.py_max_spec _ Hf) as (hi & Ehi & Hhi).
  exists lo, hi. unfold ocr_region_of_cluster. rewrite Elo, Ehi, Ed. simpl.
  eexists. repeat split; try reflexivity; first [apply Hlo | apply Hhi].
Qed.

(** When the product [fps * 2.5] is infinite, [int] raises. *)
Lemma ocr_region_of_cluster_None self cluster :
  ocr_half_duration self = None -> ocr_region_of_cluster self cluster = None.
Proof.
  rewrite ocr_half_duration_eq. intros Hk.
  destruct (Py.int_of_float _) as [d|] eqn:Ed; [discriminate|].
  unfold ocr_region_of_cluster. rewrite Ed.
  destruct (Py.py_min _); [|reflexivity].
  destruct (Py.py_max _); reflexivity.
Qed.

Lemma ocr_regions_of_clusters self k clusters :
  ocr_half_duration self = Some k ->
  Forall (fun c => c <> []) clusters ->
  exists timed,
    mapM (ocr_region_of_cluster self) clusters = Some timed /\
    Forall2 (fun c r => ocr_region_of_cluster self c = Some r) clusters timed.
Proof.
  intros Hk H.
  destruct (mapM_is_Some_2 (ocr_region_of_cluster self) clusters) as [timed E].
  - eapply Forall_impl; [exact H|]. intros c Hc. simpl.
    destruct (ocr_region_of_cluster_Some self k c Hk Hc) as (? & ? & r & _ & _ & -> & _).
    now exists r.
  - exists timed. split; [exact E|]. now apply mapM_Some_1.
Qed.

Lemma _analyze_ocr_results_Some self k regions :
  ocr_half_duration self = Some k ->
  exists timed,
    _analyze_ocr_results self regions = Some (make_analysis self timed) /\
    Forall2 (fun c r => ocr_region_of_cluster self c = Some r)
            (_cluster_regions regions default_distance_threshold) timed.
Proof.
  intros Hk. destruct regions as [|r0 rs].
  - exists []. split; [reflexivity|constructor].
  - destruct (ocr_regions_of_clusters self k
                (_cluster_regions (r0 :: rs) default_distance_threshold) Hk)
      as (timed & E & F).
    + eapply Forall_impl; [apply _cluster_regions_ok|]. now intros c [Hc _].
    + exists timed. split; [|exact F].
      unfold _analyze_ocr_results. now rewrite E.
Qed.

Lemma cluster_inner_nonempty thr r0 l : forall st,
  fst st <> [] -> fst (fold_left (cluster_inner_step thr r0) l st) <> [].
Proof.
  induction l as [|jr l IH]; intros st Hst; [exact Hst|].
  cbn [fold_left]. apply IH. unfold cluster_inner_step.
  destruct st as [c u], jr as [j region2].
  destruct (decide (j ∈ u)); [exact Hst|].
  destruct (close_to thr r0 region2); [|exact Hst].
  simpl. destruct c; discriminate.
Qed.

Lemma cluster_outer_nonempty thr regions l : forall st,
  fst st <> [] -> fst (fold_left (cluster_outer_step thr regions) l st) <> [].
Proof.
  induction l as [|ir l IH]; intros st Hst; [exact Hst|].
  cbn [fold_left]. apply IH. unfold cluster_outer_step.
  destruct st as [clusters used], ir as [i region1].
  destruct (decide (i ∈ used)); [exact Hst|].
  destruct (fold_left _ _ _) as [cluster used'].
  destruct (0 <? Z.of_nat (length cluster)); [|exact Hst].
  simpl in *. destruct clusters; [congruence|discriminate].
Qed.

(** A hit list that is not empty has a cluster: the one of its first hit. *)
Lemma _cluster_regions_nonempty r0 rs thr :
  _cluster_regions (r0 :: rs) thr <> [].
Proof.
  unfold _cluster_regions, enumerate.
  destruct (imap pair (r0 :: rs)) as [|[i region1] l] eqn:El; [discriminate|].
  cbn [fold_left]. apply cluster_outer_nonempty.
  unfold cluster_outer_step.
  destruct (decide (i ∈ (∅ : gset nat))) as [H|_]; [set_solver|].
  pose proof (cluster_inner_nonempty thr region1 (imap pair (r0 :: rs))
                ([region1], ∅ ∪ {[i]}) ltac:(discriminate)) as I.
  unfold enumerate.
  destruct (fold_left _ _ _) as [cluster used'].
  simpl in I. destruct cluster as [|c0 cs]; [congruence|]. simpl. discriminate.
Qed.

(** A hit list that is not empty makes the method raise when the product
    [fps * 2.5] is infinite. *)
Lemma _analyze_ocr_results_None self regions :
  ocr_half_duration self = None -> regions <> [] ->
  _analyze_ocr_results self regions = None.
Proof.
  intros Hk Hne. destruct regions as [|r0 rs]; [congruence|].
  unfold _analyze_ocr_results.
  pose proof (_cluster_regions_nonempty r0 rs default_distance_threshold) as Hc.
  destruct (_cluster_regions _ _) as [|c cs]; [congruence|].
  cbn [mapM]. now rewrite (ocr_region_of_cluster_None self c Hk).
Qed.

Lemma expanded_range_ok total lo hi k :
  0 <= lo -> lo <= hi -> hi <= total - 1 -> 0 <= k ->
  0 <= Z.max 0 (lo - k) /\
  Z.max 0 (lo - k) <= Z.min (total - 1) (hi + k) /\
  Z.min (total - 1) (hi + k) <= total - 1.
Proof. lia. Qed.

Lemma half_duration_nonneg (fps c : Q) :
  (0 <= fps)%Q -> (0 <= c)%Q -> 0 <= Py.py_int (fps * c) / 2.
Proof.
  intros Hf Hc. apply Z.div_pos; [|lia].
  apply NumFacts.py_int_nonneg. now apply Qmult_le_0_compat.
Qed.

Lemma frames_in_video self (l : list Hit.t) :
  Forall (hit_in_video self) l ->
  Forall (fun z => 0 <= z /\ z <= self_total_frames self - 1) (map Hit.frame_no l).
Proof.
  intros H. apply List.Forall_map. eapply Forall_impl; [exact H|].
  intros h Hh. unfold hit_in_video in Hh. tauto.
Qed.

Lemma ocr_region_ok self cluster region :
  (0 <= self_fps self)%Q ->
  cluster <> [] ->
  Forall (hit_in_video self) cluster ->
  ocr_region_of_cluster self cluster = Some region ->
  region_ok self region.
Proof.
  intros Hfps Hne Hall E.
  destruct (ocr_half_duration self) as [k|] eqn:Ek;
    [|rewrite (ocr_region_of_cluster_None self cluster Ek) in E; discriminate].
  destruct (ocr_region_of_cluster_Some self k cluster Ek Hne)
    as (lo & hi & r & Hlo & Hhi & E' & Hs & He & Hx & Hy & Hw & Hh).
  rewrite E in E'. injection E' as <-.
  pose proof (frames_in_video self cluster Hall) as Hfr.
  pose proof (NumFacts.is_min_bounds _ _ _ Hlo Hfr) as [Hlo0 _].
  pose proof (NumFacts.is_max_bounds _ _ _ Hhi Hfr) as [_ Hhi1].
  pose proof (NumFacts.is_min_le_max _ _ _ Hlo Hhi) as Hlh.
  pose proof (ocr_half_duration_nonneg self k Hfps Ek) as Hk.
  destruct (expanded_range_ok (self_total_frames self) lo hi _ Hlo0 Hlh Hhi1 Hk)
    as (T1 & T2 & T3).
  destruct (NumFacts.truncated_means_bound Hit.x Hit.width (self_width self) cluster Hne)
    as (X1 & X2 & X3);
    try (eapply Forall_impl; [exact Hall|]; unfold hit_in_video; intros; tauto).
  destruct (NumFacts.truncated_means_bound Hit.y Hit.height (self_height self) cluster Hne)
    as (Y1 & Y2 & Y3);
    try (eapply Forall_impl; [exact Hall|]; unfold hit_in_video; intros; tauto).
  unfold region_ok, frames_ok, box_within.
  rewrite Hs, He, Hx, Hy, Hw, Hh. tauto.
Qed.

Lemma Forall2_Forall_r {A B} (P : A -> Prop) (Q : B -> Prop) (R : A -> B -> Prop) l k :
  (forall a b, P a -> R a b -> Q b) ->
  Forall P l -> Forall2 R l k -> Forall Q k.
Proof.
  intros H Hl F. induction F as [|a b l k Hab _ IH]; [constructor|].
  inversion Hl; subst. constructor; eauto.
Qed.

(** The regions of an analysis that the OCR path returns. *)
Lemma _analyze_ocr_results_ok self hits analysis :
  (0 <= self_fps self)%Q ->
  Forall (hit_in_video self) hits ->
  _analyze_ocr_results self hits = Some analysis ->
  Forall (region_ok self) (timed_regions analysis).
Proof.
  intros Hfps Hall Ea.
  destruct hits as [|h0 hs]; [injection Ea as <-; constructor|].
  destruct (ocr_half_duration self) as [k|] eqn:Ek;
    [|rewrite (_analyze_ocr_results_None self _ Ek) in Ea; [discriminate|discriminate]].
  destruct (_analyze_ocr_results_Some self k (h0 :: hs) Ek) as (timed & E & F).
  rewrite Ea in E. injection E as ->. simpl.
  eapply (Forall2_Forall_r (fun c => c <> [] /\ Forall (hit_in_video self) c));
    [| |exact F].
  - intros c r [Hne Hc] Hr. eapply ocr_region_ok; eauto.
  - eapply Forall_impl; [apply _cluster_regions_ok|].
    intros c [Hne Hin]. split; [exact Hne|].
    rewrite List.Forall_forall in Hall. eapply Forall_impl; [exact Hin|].
    intros h Hh. now apply Hall.
Qed.

(** The OCR path returns when the product [fps * 2.5] is finite. *)
Lemma _analyze_ocr_results_returns self hits :
  (0 <= self_fps self)%Q -> (self_fps self < inject_Z (2 ^ 1021))%Q ->
  exists analysis, _analyze_ocr_results self hits = Some analysis.
Proof.
  intros H0 H1. destruct (ocr_half_duration_Some self H0 H1) as [k Hk].
  destruct (_analyze_ocr_results_Some self k hits Hk) as (timed & E & _).
  eauto.
Qed.

(** The example of the specification, at 25 frames per second in a video of
    1000 frames: the two hits form one cluster, hence one region; the range
    0-5 is widened by [int(62.5) // 2 = 31] frames on each side and the start
    is kept at 0; the box is the truncated mean of the two boxes. *)
Example _analyze_ocr_results_example :
  option_map
    (fun analysis =>
       (has_subtitles analysis,
        map (fun r => (start_frame r, end_frame r, x r, y r, width r, height r,
                       Qred (confidence r), text_content r))
            (timed_regions analysis)))
    (_analyze_ocr_results (mkDetector 1920 1080 25 1000)
       [ Hit.mk 0 10 10 50 20 "abc" (9 # 10); Hit.mk 5 12 11 49 21 "abc" (8 # 10) ])
  = Some (true, [ (0, 36, 11, 10, 49, 20, (17 # 20)%Q, "OCR检测区域 (帧0-5)") ]).
Proof. vm_compute. reflexivity. Qed.

(** The product is the one of the floats: at 23.2 frames per second (the
    double nearest to 23.2) [fps * 2.5] is [58.0], although the exact
    product of the two floats is below 58, and a hit at frame 100 gives the
    range 71-129. *)
Example _analyze_ocr_results_rounds :
  let self := mkDetector 1920 1080 (Py.float_literal (232 # 10)) 1000 in
  ocr_half_duration self = Some 29 /\
  Py.py_int (self_fps self * (5 # 2)) / 2 = 28 /\
  option_map
    (fun analysis => map (fun r => (start_frame r, end_frame r)) (timed_regions analysis))
    (_analyze_ocr_results self [ Hit.mk 100 10 800 300 40 "abc" (9 # 10) ])
  = Some [ (71, 129) ].
Proof. repeat split; vm_compute; reflexivity. Qed.

Lemma ocr_region_time_range self k cluster region :
  ocr_half_duration self = Some k ->
  ocr_region_of_cluster self cluster = Some region ->
  ocr_time_range self k cluster region.
Proof.
  intros Hk E. destruct cluster as [|h t]; [discriminate|].
  destruct (ocr_region_of_cluster_Some self k (h :: t) Hk)
    as (lo & hi & r' & Hlo & Hhi & E' & Hs & He & _); [discriminate|].
  rewrite E in E'. injection E' as <-.
  now exists lo, hi.
Qed.

(** C7 (as amended). Let [k] be [int(fps * 2.5) // 2]: the product of the
    two floats in double precision, truncated towards zero (not rounded to
    the nearest integer) and halved by integer division.  For every cluster
    produced by spatial clustering the OCR path emits one region, in order,
    whose start frame is the least hit frame of the cluster minus [k], but
    not below 0, and whose end frame is the greatest hit frame plus [k], but
    not above [total_frames - 1].  When the product is infinite there is no
    [k]: [int] raises and the path returns nothing for a hit list that is
    not empty. *)
Theorem ocr_cluster_time_range (self : Detector) (regions : list Hit.t) :
  match ocr_half_duration self with
  | Some k =>
      exists timed,
        _analyze_ocr_results self regions = Some (make_analysis self timed) /\
        Forall2 (ocr_time_range self k)
                (_cluster_regions regions default_distance_threshold) timed
  | None =>
      _analyze_ocr_results self regions =
      match regions with
      | [] => Some (_create_empty_analysis self)
      | _ => None
      end
  end.
Proof.
  destruct (ocr_half_duration self) as [k|] eqn:Hk.
  - destruct (_analyze_ocr_results_Some self k regions Hk) as (timed & E & F).
    exists timed. split; [exact E|].
    eapply Forall2_impl; [exact F|]. intros c r. now apply ocr_region_time_range.
  - destruct regions as [|r0 rs]; [reflexivity|].
    now apply _analyze_ocr_results_None.
Qed.

(** The claim C7 as worded fails: at 23.875 frames per second
    [fps * 2.5 = 59.6875] (both numbers are doubles), which the code
    truncates to 59 and halves to 29, where [round(fps * 2.5) / 2] is 30.  A
    single hit at frame 100 gives the range 71-129, not 70-130. *)
Lemma ocr_time_range_counterexample :
  let self := mkDetector 1920 1080 (191 # 8) 1000 in
  let hits := [Hit.mk 100 10 800 300 40 "abc" (9 # 10)] in
  _cluster_regions hits default_distance_threshold = [hits] /\
  option_map Qred (Py.double (191 # 8)) = Some (191 # 8)%Q /\
  option_map Qred (Py.double ((191 # 8) * (5 # 2))) = Some (955 # 16)%Q /\
  ocr_half_duration self = Some 29 /\
  exists analysis region s e,
    _analyze_ocr_results self hits = Some analysis /\
    timed_regions analysis = [region] /\
    spec_time_range self hits = Some (s, e) /\
    start_frame region = 71 /\ end_frame region = 129 /\
    (s == 70)%Q /\ (e == 130)%Q /\
    ~ (inject_Z (start_frame region) == s)%Q /\
    ~ (inject_Z (end_frame region) == e)%Q.
Proof.
  split; [vm_compute; reflexivity|].
  split; [vm_compute; reflexivity|].
  split; [vm_compute; reflexivity|].
  split; [vm_compute; reflexivity|].
  eexists _, _, _, _.
  split; [vm_compute; reflexivity|].
  split; [reflexivity|].
  split; [vm_compute; reflexivity|].
  repeat split; discriminate.
Qed.

(** *** The edge path *)

Lemma group_append_ok regions k region groups :
  In region regions ->
  Forall (fun kg => cluster_ok regions (snd kg)) groups ->
  Forall (fun kg => cluster_ok regions (snd kg)) (group_append k region groups).
Proof.
  intros Hin. induction 1 as [|[k' g] groups [Hne Hg] Hgs IH]; simpl.
  - constructor; [|constructor]. split; [discriminate|]. now constructor.
  - destruct (k' =? k).
    + constructor; [|exact Hgs]. simpl in *. split.
      * destruct g; discriminate.
      * apply Forall_app. split; [exact Hg|]. now constructor.
    + constructor; [now split|exact IH].
Qed.

Lemma edge_group_loop_ok self regions rs : forall groups groups',
  (forall r, In r rs -> In r regions) ->
  Forall (fun kg => cluster_ok regions (snd kg)) groups ->
  edge_group_loop self groups rs = Some groups' ->
  Forall (fun kg => cluster_ok regions (snd kg)) groups'.
Proof.
  induction rs as [|r rs IH]; intros groups groups' Hsub Hok E; simpl in E.
  - now injection E as <-.
  - unfold edge_group_step in E.
    destruct (Py.floordiv _ _) as [k|]; [|discriminate]. simpl in E.
    eapply IH; [| |exact E].
    + intros r' Hr'. apply Hsub. now right.
    + apply group_append_ok; [|exact Hok]. apply Hsub. now left.
Qed.

Lemma edge_group_loop_Some self rs : forall groups,
  Py.py_int (self_fps self * 2)%Q <> 0 ->
  exists groups', edge_group_loop self groups rs = Some groups'.
Proof.
  induction rs as [|r rs IH]; intros groups Hd; simpl; [eauto|].
  unfold edge_group_step, Py.floordiv.
  destruct (Z.eqb_spec (Py.py_int (self_fps self * 2)%Q) 0); [contradiction|].
  simpl. now apply IH.
Qed.

Lemma edge_divisor_nonzero self :
  (1 # 2 <= self_fps self)%Q -> Py.py_int (self_fps self * 2)%Q <> 0.
Proof.
  intros H. unfold Py.py_int.
  assert (H1 : (1 <= self_fps self * 2)%Q) by lra.
  assert (H0 : (0 <= self_fps self * 2)%Q) by lra.
  apply Qle_bool_iff in H0. rewrite H0.
  apply Qfloor_resp_le in H1. change (Qfloor 1) with 1 in H1. lia.
Qed.

Lemma edge_region_of_group_Some self group :
  group <> [] ->
  exists lo hi min_x max_x min_y max_y region,
    is_min lo (map Hit.frame_no group) /\
    is_max hi (map Hit.frame_no group) /\
    is_min min_x (map Hit.x group) /\
    is_max max_x (map (fun r => Hit.x r + Hit.width r) group) /\
    is_min min_y (map Hit.y group) /\
    is_max max_y (map (fun r => Hit.y r + Hit.height r) group) /\
    edge_region_of_group self group = Some region /\
    start_frame region = Z.max 0 (lo - Py.py_int (self_fps self * 3)%Q / 2) /\
    end_frame region =
      Z.min (self_total_frames self - 1) (hi + Py.py_int (self_fps self * 3)%Q / 2) /\
    x region = min_x /\ y region = min_y /\
    width region = max_x - min_x /\ height region = max_y - min_y.
Proof.
  intros Hne.
  assert (Hm : forall (f : Hit.t -> Z), map f group <> [])
    by (intros f; destruct group; [congruence|discriminate]).
  destruct (NumFacts.py_min_spec _ (Hm Hit.frame_no)) as (lo & E1 & H1).
  destruct (NumFacts.py_max_spec _ (Hm Hit.frame_no)) as (hi & E2 & H2).
  destruct (NumFacts.py_min_spec _ (Hm Hit.x)) as (min_x & E3 & H3).
  destruct (NumFacts.py_max_spec _ (Hm (fun r => Hit.x r + Hit.width r)))
    as (max_x & E4 & H4).
  destruct (NumFacts.py_min_spec _ (Hm Hit.y)) as (min_y & E5 & H5).
  destruct (NumFacts.py_max_spec _ (Hm (fun r => Hit.y r + Hit.height r)))
    as (max_y & E6 & H6).
  exists lo, hi, min_x, max_x, min_y, max_y.
  unfold edge_region_of_group. rewrite E1, E2, E3, E4, E5, E6. simpl.
  eexists. repeat split; try reflexivity;
    first [apply H1 | apply H2 | apply H3 | apply H4 | apply H5 | apply H6].
Qed.

Lemma Forall_map_bounds self (P : Z -> Prop) (f : Hit.t -> Z) (l : list Hit.t) :
  (forall h, hit_in_video self h -> P (f h)) ->
  Forall (hit_in_video self) l -> Forall P (map f l).
Proof.
  intros HP H. apply List.Forall_map. eapply Forall_impl; [exact H|]. exact HP.
Qed.

Lemma min_le_max_shift (f g : Hit.t -> Z) (l : list Hit.t) lo hi :
  l <> [] ->
  Forall (fun h => f h <= g h) l ->
  is_min lo (map f l) -> is_max hi (map g l) -> lo <= hi.
Proof.
  intros Hne Hfg [_ Hlo] [_ Hhi].
  destruct l as [|h0 t]; [congruence|].
  inversion Hfg as [|? ? H0 _]. simpl in Hlo, Hhi.
  inversion Hlo as [|? ? Hl _]. inversion Hhi as [|? ? Hh _]. lia.
Qed.

Lemma edge_region_ok self group region :
  (0 <= self_fps self)%Q ->
  group <> [] ->
  Forall (hit_in_video self) group ->
  edge_region_of_group self group = Some region ->
  region_ok self region.
Proof.
  intros Hfps Hne Hall E.
  destruct (edge_region_of_group_Some self group Hne)
    as (lo & hi & min_x & max_x & min_y & max_y & r &
        Hlo & Hhi & Hminx & Hmaxx & Hminy & Hmaxy & E' &
        Hs & He & Hx & Hy & Hw & Hh).
  rewrite E in E'. injection E' as <-.
  pose proof (frames_in_video self group Hall) as Hfr.
  pose proof (NumFacts.is_min_bounds _ _ _ Hlo Hfr) as [Hlo0 _].
  pose proof (NumFacts.is_max_bounds _ _ _ Hhi Hfr) as [_ Hhi1].
  pose proof (NumFacts.is_min_le_max _ _ _ Hlo Hhi) as Hlh.
  assert (Hk : 0 <= Py.py_int (self_fps self * 3)%Q / 2).
  { apply half_duration_nonneg; [exact Hfps|lra]. }
  destruct (expanded_range_ok (self_total_frames self) lo hi _ Hlo0 Hlh Hhi1 Hk)
    as (T1 & T2 & T3).
  assert (X0 : 0 <= min_x).
  { apply (NumFacts.is_min_bounds (fun z => 0 <= z) _ _ Hminx).
    apply (Forall_map_bounds self); [|exact Hall]. unfold hit_in_video. tauto. }
  assert (Y0 : 0 <= min_y).
  { apply (NumFacts.is_min_bounds (fun z => 0 <= z) _ _ Hminy).
    apply (Forall_map_bounds self); [|exact Hall]. unfold hit_in_video. tauto. }
  assert (X1 : max_x <= self_width self).
  { apply (NumFacts.is_max_bounds (fun z => z <= self_width self) _ _ Hmaxx).
    apply (Forall_map_bounds self); [|exact Hall]. unfold hit_in_video. tauto. }
  assert (Y1 : max_y <= self_height self).
  { apply (NumFacts.is_max_bounds (fun z => z <= self_height self) _ _ Hmaxy).
    apply (Forall_map_bounds self); [|exact Hall]. unfold hit_in_video. tauto. }
  assert (XX : min_x <= max_x).
  { apply (min_le_max_shift Hit.x (fun r => Hit.x r + Hit.width r) group);
      [exact Hne| |exact Hminx|exact Hmaxx].
    eapply Forall_impl; [exact Hall|]. unfold hit_in_video. intros; lia. }
  assert (YY : min_y <= max_y).
  { apply (min_le_max_shift Hit.y (fun r => Hit.y r + Hit.height r) group);
      [exact Hne| |exact Hminy|exact Hmaxy].
    eapply Forall_impl; [exact Hall|]. unfold hit_in_video. intros; lia. }
  unfold region_ok, frames_ok, box_within.
  rewrite Hs, He, Hx, Hy, Hw, Hh. lia.
Qed.

Lemma Forall_filter_keep {A} (P Q : A -> Prop) `{!forall a, Decision (Q a)} (l : list A) :
  Forall P l -> Forall P (filter Q l).
Proof.
  induction 1 as [|a l Ha _ IH]; [constructor|].
  rewrite filter_cons. case_decide; [now constructor|exact IH].
Qed.

Lemma _analyze_edge_results_ok self hits analysis :
  (0 <= self_fps self)%Q ->
  Forall (hit_in_video self) hits ->
  _analyze_edge_results self hits = Some analysis ->
  Forall (region_ok self) (timed_regions analysis).
Proof.
  intros Hfps Hall E. unfold _analyze_edge_results in E.
  destruct hits as [|h0 hs]; [injection E as <-; constructor|].
  destruct (edge_group_loop self [] (h0 :: hs)) as [groups|] eqn:Eg; [|discriminate].
  simpl in E.
  destruct (mapM _ _) as [timed|] eqn:Em; [|discriminate].
  injection E as <-. simpl.
  apply mapM_Some_1 in Em.
  assert (Hg : Forall (fun kg => cluster_ok (h0 :: hs) (snd kg)) groups).
  { eapply edge_group_loop_ok; [| |exact Eg]; [auto|constructor]. }
  eapply (Forall2_Forall_r (fun g => g <> [] /\ Forall (hit_in_video self) g));
    [| |exact Em].
  - intros g r [Hne Hgv] Hr. eapply edge_region_ok; eauto.
  - apply Forall_filter_keep.
    apply List.Forall_map. eapply Forall_impl; [exact Hg|].
    intros [k g] [Hne Hin]. simpl in *. split; [exact Hne|].
    rewrite List.Forall_forall in Hall. eapply Forall_impl; [exact Hin|].
    intros h Hh. now apply Hall.
Qed.

Lemma _analyze_edge_results_Some self hits :
  (1 # 2 <= self_fps self)%Q ->
  exists analysis, _analyze_edge_results self hits = Some analysis.
Proof.
  intros Hfps. unfold _analyze_edge_results.
  destruct hits as [|h0 hs]; [eauto|].
  destruct (edge_group_loop_Some self (h0 :: hs) [] (edge_divisor_nonzero self Hfps))
    as [groups Eg].
  rewrite Eg. simpl.
  assert (Hg : Forall (fun kg => cluster_ok (h0 :: hs) (snd kg)) groups).
  { eapply edge_group_loop_ok; [| |exact Eg]; [auto|constructor]. }
  destruct (mapM_is_Some_2 (edge_region_of_group self)
              (filter (fun group => 2 <= Z.of_nat (length group)) (map snd groups)))
    as [timed Em].
  - apply Forall_filter_keep.
    apply List.Forall_map. eapply Forall_impl; [exact Hg|].
    intros [k g] [Hne _]. simpl in *.
    destruct (edge_region_of_group_Some self g Hne)
      as (? & ? & ? & ? & ? & ? & r & _ & _ & _ & _ & _ & _ & -> & _).
    now exists r.
  - rewrite Em. simpl. eauto.
Qed.

(** Two hits of the same two-second bucket give one region, the union of
    their boxes; the single hit of the next bucket gives none. *)
Example _analyze_edge_results_example :
  option_map timed_regions
    (_analyze_edge_results (mkDetector 1920 1080 25 1000)
       [ Hit.mk 100 600 900 700 40 "" 0; Hit.mk 120 580 905 760 50 "" 0;
         Hit.mk 160 600 900 700 40 "" 0 ])
  = Some [ mkRegion 63 157 580 900 760 55 (7 # 10) "边缘检测区域 (帧100-120)" ].
Proof. vm_compute. reflexivity. Qed.

(** *** The motion path *)

(** The list [subtitle_segments] is empty when the loop starts and an
    iteration appends to it only when it is not: it stays empty, and the
    loop only records the first frame. *)
Lemma motion_step_empty self current_start change :
  motion_step self ([], current_start) change =
  ([], Some (default (Change.frame_no change) current_start)).
Proof. unfold motion_step. now destruct current_start. Qed.

Lemma motion_loop_empty self changes : forall current_start,
  fold_left (motion_step self) changes ([], current_start) =
  ([], match changes with
       | [] => current_start
       | c :: _ => Some (default (Change.frame_no c) current_start)
       end).
Proof.
  induction changes as [|c cs IH]; intros current_start; [reflexivity|].
  cbn [fold_left]. rewrite motion_step_empty, IH. now destruct cs.
Qed.

(** Whatever the gaps, a non-empty sequence of change events gives exactly
    one segment, from its first to its last event, that counts them all. *)
Lemma motion_segments_single self c rest :
  exists last_change,
    last (c :: rest) = Some last_change /\
    motion_segments self (c :: rest) =
    [ {| Segment.start := Change.frame_no c;
         Segment.end_ := Change.frame_no last_change;
         Segment.changes := Z.of_nat (length (c :: rest)) |} ].
Proof.
  unfold motion_segments. rewrite motion_loop_empty.
  destruct (last (c :: rest)) as [last_change|] eqn:E.
  - exists last_change. split; reflexivity.
  - apply last_None in E. discriminate.
Qed.

Lemma _analyze_motion_results_regions self changes :
  match changes with
  | c :: _ :: _ =>
      exists last_change,
        last changes = Some last_change /\
        timed_regions (_analyze_motion_results self changes) =
        [ motion_region_of_segment self
            {| Segment.start := Change.frame_no c;
               Segment.end_ := Change.frame_no last_change;
               Segment.changes := Z.of_nat (length changes) |} ]
  | _ => timed_regions (_analyze_motion_results self changes) = []
  end.
Proof.
  destruct changes as [|c rest]; [reflexivity|].
  destruct (motion_segments_single self c rest) as (lc & El & E).
  unfold _analyze_motion_results. rewrite E.
  destruct rest as [|d rest]; [reflexivity|].
  exists lc. split; [exact El|].
  simpl timed_regions. rewrite filter_cons.
  case_decide as Hc; [reflexivity|].
  exfalso. apply Hc. simpl Segment.changes. simpl length. lia.
Qed.

Lemma changes_first_le_last rest : forall c last_change,
  last (c :: rest) = Some last_change ->
  changes_in_order (c :: rest) ->
  Change.frame_no c <= Change.frame_no last_change.
Proof.
  induction rest as [|d rest IH]; intros c lc El H.
  - injection El as <-. lia.
  - rewrite last_cons_cons in El. destruct H as [Hcd Hd].
    specialize (IH d lc El Hd). lia.
Qed.

Lemma last_in_video self changes last_change :
  last changes = Some last_change ->
  Forall (change_in_video self) changes ->
  change_in_video self last_change.
Proof.
  intros El H. apply last_Some_elem_of, list_elem_of_In in El.
  rewrite List.Forall_forall in H. auto.
Qed.

Lemma motion_box_within self segment :
  0 <= self_width self -> 0 <= self_height self ->
  box_within self (motion_region_of_segment self segment).
Proof.
  intros HW HH. unfold box_within. simpl.
  rewrite Zle_Qle in HW, HH. change (inject_Z 0) with 0%Q in HW, HH.
  destruct (NumFacts.py_int_nonneg (inject_Z (self_width self) * (1 # 10))%Q) as [X0 X1]; [lra|].
  destruct (NumFacts.py_int_nonneg (inject_Z (self_width self) * (8 # 10))%Q) as [W0 W1]; [lra|].
  destruct (NumFacts.py_int_nonneg (inject_Z (self_height self) * (8 # 10))%Q) as [Y0 Y1]; [lra|].
  destruct (NumFacts.py_int_nonneg (inject_Z (self_height self) * (15 # 100))%Q) as [H0 H1]; [lra|].
  repeat (split; [assumption|]).
  split; rewrite Zle_Qle, inject_Z_plus; lra.
Qed.

Lemma _analyze_motion_results_ok self changes :
  0 <= self_width self -> 0 <= self_height self ->
  Forall (change_in_video self) changes ->
  changes_in_order changes ->
  Forall (region_ok self) (timed_regions (_analyze_motion_results self changes)).
Proof.
  intros HW HH Hall Hord.
  pose proof (_analyze_motion_results_regions self changes) as Hr.
  destruct changes as [|c [|d rest]]; [rewrite Hr; constructor..|].
  destruct Hr as (lc & El & ->).
  constructor; [|constructor]. split; [|now apply motion_box_within].
  unfold frames_ok. simpl start_frame. simpl end_frame.
  pose proof (changes_first_le_last _ _ _ El Hord) as Hle.
  pose proof (last_in_video self _ _ El Hall) as [_ Hlast].
  inversion Hall as [|? ? [Hc0 _] _]; subst.
  lia.
Qed.

(** *** The claims on the three paths *)

(** C5. The code at an input with a gap of more than five seconds: at 25
    frames per second, change events at frames 40, 80, 1000 and 1040 (the gap
    of 920 frames exceeds 125) are two segments of two events each in the
    words of the specification, but the code emits a single region that spans
    frames 40 to 1040. *)
Theorem motion_gap_not_split :
  let self := mkDetector 1920 1080 25 2000 in
  let changes :=
    [ Change.mk 40 (2 # 10) 0; Change.mk 80 (3 # 10) 40;
      Change.mk 1000 (2 # 10) 960; Change.mk 1040 (2 # 10) 1000 ] in
  spec_segments self changes = [[40; 80]; [1000; 1040]] /\
  motion_segments self changes =
    [ {| Segment.start := 40; Segment.end_ := 1040; Segment.changes := 4 |} ] /\
  map (fun r => (start_frame r, end_frame r))
      (timed_regions (_analyze_motion_results self changes)) = [(40, 1040)].
Proof. repeat split; vm_compute; reflexivity. Qed.

(** For every input the motion path emits at most one region: the gap test
    of the loop is never reached. *)
Lemma motion_never_splits self changes :
  (length (timed_regions (_analyze_motion_results self changes)) <= 1)%nat.
Proof.
  pose proof (_analyze_motion_results_regions self changes) as H.
  destruct changes as [|c [|d rest]]; [rewrite H; simpl; lia..|].
  destruct H as (lc & _ & ->). simpl. lia.
Qed.

(** C6. Every region emitted by the OCR path, the edge path and the motion
    path satisfies [0 <= start_frame <= end_frame <= total_frames - 1] and
    has its box inside the frame, on what the detection methods pass to
    these paths: hits taken from frames of the video with their boxes inside
    the frame, change events taken from frames of the video in frame order,
    at a frame rate that is not negative.  The motion path always returns;
    the OCR path returns whenever [fps * 2.5] is finite, and the edge path
    whenever [fps >= 0.5] (it divides by [int(fps * 2)]). *)
Theorem consolidation_regions_ok
  (self : Detector) (hits : list Hit.t) (changes : list Change.t) :
  (0 <= self_fps self)%Q ->
  0 <= self_width self -> 0 <= self_height self ->
  Forall (hit_in_video self) hits ->
  Forall (change_in_video self) changes ->
  changes_in_order changes ->
  (forall analysis,
     _analyze_ocr_results self hits = Some analysis ->
     Forall (region_ok self) (timed_regions analysis)) /\
  ((self_fps self < inject_Z (2 ^ 1021))%Q ->
     exists analysis, _analyze_ocr_results self hits = Some analysis) /\
  (forall analysis,
     _analyze_edge_results self hits = Some analysis ->
     Forall (region_ok self) (timed_regions analysis)) /\
  ((1 # 2 <= self_fps self)%Q ->
     exists analysis, _analyze_edge_results self hits = Some analysis) /\
  Forall (region_ok self) (timed_regions (_analyze_motion_results self changes)).
Proof.
  intros Hfps HW HH Hhits Hchanges Hord.
  split; [intros analysis E; now apply (_analyze_ocr_results_ok self hits)|].
  split; [now apply _analyze_ocr_results_returns|].
  split; [intros analysis E; now apply (_analyze_edge_results_ok self hits)|].
  split; [apply _analyze_edge_results_Some|].
  now apply _analyze_motion_results_ok.
Qed.

Lemma consolidation_regions_ok_witness :
  let self := mkDetector 1920 1080 25 1000 in
  let hits :=
    [ Hit.mk 100 600 900 700 40 "abc" (9 # 10);
      Hit.mk 120 580 905 760 50 "abd" (8 # 10);
      Hit.mk 400 100 950 300 30 "xyz" (7 # 10) ] in
  let changes :=
    [ Change.mk 20 (2 # 10) 0; Change.mk 40 (3 # 10) 20; Change.mk 900 (2 # 10) 880 ] in
  (forall analysis,
     _analyze_ocr_results self hits = Some analysis ->
     Forall (region_ok self) (timed_regions analysis)) /\
  ((self_fps self < inject_Z (2 ^ 1021))%Q ->
     exists analysis, _analyze_ocr_results self hits = Some analysis) /\
  (forall analysis,
     _analyze_edge_results self hits = Some analysis ->
     Forall (region_ok self) (timed_regions analysis)) /\
  ((1 # 2 <= self_fps self)%Q ->
     exists analysis, _analyze_edge_results self hits = Some analysis) /\
  Forall (region_ok self) (timed_regions (_analyze_motion_results self changes)).
Proof.
  intros self hits changes.
  apply (consolidation_regions_ok self hits changes).
  - unfold Qle; simpl; lia.
  - simpl; lia.
  - simpl; lia.
  - repeat constructor; simpl; lia.
  - repeat constructor; simpl; lia.
  - simpl; lia.
Defined.

(** The paths themselves clip no box, and cut a time range only at 0 below
    and at [total_frames - 1] above: the bounds of the regions rest on the
    hits that the detection methods pass.  Handed a box that runs past the
    right edge of the frame, the OCR path gives a region with the same box;
    handed a frame number past the end of the video, it gives a region that
    starts after it ends. *)
Example paths_rely_on_their_callers :
  let self := mkDetector 1920 1080 25 1000 in
  (exists analysis region,
     _analyze_ocr_results self [ Hit.mk 10 1800 1000 300 50 "abc" (9 # 10) ]
       = Some analysis /\
     timed_regions analysis = [region] /\
     x region = 1800 /\ width region = 300 /\
     ~ region_ok self region) /\
  (exists analysis region,
     _analyze_ocr_results self [ Hit.mk 5000 600 900 700 40 "abc" (9 # 10) ]
       = Some analysis /\
     timed_regions analysis = [region] /\
     start_frame region = 4969 /\ end_frame region = 999 /\
     ~ region_ok self region).
Proof.
  split.
  - eexists _, _. split; [vm_compute; reflexivity|].
    split; [reflexivity|]. split; [reflexivity|]. split; [reflexivity|].
    intros [_ (_ & _ & _ & _ & H & _)]. simpl in H. lia.
  - eexists _, _. split; [vm_compute; reflexivity|].
    split; [reflexivity|]. split; [reflexivity|]. split; [reflexivity|].
    intros [(_ & H & _) _]. simpl in H. lia.
Qed.

(** *** Further facts on the paths *)

Lemma group_append_absent k h groups :
  ~ In k (map fst groups) -> group_append k h groups = groups ++ [(k, [h])].
Proof.
  induction groups as [|[k0 g0] groups IH]; intros Hk; simpl; [reflexivity|].
  simpl in Hk. destruct (Z.eqb_spec k0 k) as [->|Hne]; [tauto|].
  rewrite IH by tauto. reflexivity.
Qed.

Lemma group_append_present k h pre g post :
  ~ In k (map fst pre) ->
  group_append k h (pre ++ (k, g) :: post) = pre ++ (k, g ++ [h]) :: post.
Proof.
  induction pre as [|[k0 g0] pre IH]; intros Hk; simpl.
  - now rewrite Z.eqb_refl.
  - simpl in Hk. destruct (Z.eqb_spec k0 k) as [->|Hne]; [tauto|].
    rewrite IH by tauto. reflexivity.
Qed.

Lemma filter_snoc {A} (P : A -> Prop) `{!forall a, Decision (P a)} (l : list A) (a : A) :
  filter P (l ++ [a]) = filter P l ++ (if decide (P a) then [a] else []).
Proof. rewrite filter_app, filter_cons, filter_nil. reflexivity. Qed.

Lemma bucket_kept d seen h (kg : Z * list Hit.t) :
  fst kg <> Hit.frame_no h / d ->
  snd kg = filter (fun h0 => Hit.frame_no h0 / d = fst kg) seen /\ snd kg <> [] ->
  snd kg = filter (fun h0 => Hit.frame_no h0 / d = fst kg) (seen ++ [h]) /\ snd kg <> [].
Proof.
  intros Hne [E Hn]. split; [|exact Hn].
  rewrite filter_snoc. case_decide; [congruence|].
  now rewrite app_nil_r.
Qed.

Lemma group_append_buckets d seen h groups :
  buckets_of d seen groups ->
  buckets_of d (seen ++ [h]) (group_append (Hit.frame_no h / d) h groups).
Proof.
  intros (Hnd & Hg & Hs). set (k := Hit.frame_no h / d).
  destruct (in_dec Z.eq_dec k (map fst groups)) as [Hin|Hnotin].
  - apply in_map_iff in Hin as ([k0 g] & Ek & Hin). simpl in Ek. subst k0.
    apply in_split in Hin as (pre & post & ->).
    rewrite map_app in Hnd. simpl in Hnd.
    pose proof Hnd as Hnd'.
    apply NoDup_app in Hnd' as (_ & N2 & N3). apply NoDup_cons in N3 as [N3 _].
    assert (Hpre : ~ In k (map fst pre)).
    { intros H. apply list_elem_of_In in H. apply (N2 k H). constructor. }
    assert (Hpost : ~ In k (map fst post)).
    { intros H. apply list_elem_of_In in H. contradiction. }
    rewrite (group_append_present k h pre g post Hpre).
    apply Forall_app in Hg as [Hg1 Hg2].
    inversion Hg2 as [|? ? [Eg Hgne] Hg3]; subst. simpl in Eg.
    split; [|split].
    + rewrite map_app. exact Hnd.
    + apply Forall_app. split; [|constructor].
      * rewrite List.Forall_forall in Hg1. apply List.Forall_forall.
        intros kg Hkg. apply bucket_kept; [|now apply Hg1].
        intros E. apply Hpre. fold k in E. rewrite <- E. now apply in_map.
      * simpl. split; [|destruct g; discriminate].
        rewrite filter_snoc. case_decide as Hd; [|exfalso; apply Hd; reflexivity].
        now rewrite <- Eg.
      * rewrite List.Forall_forall in Hg3. apply List.Forall_forall.
        intros kg Hkg. apply bucket_kept; [|now apply Hg3].
        intros E. apply Hpost. fold k in E. rewrite <- E. now apply in_map.
    + apply Forall_app. split.
      * eapply Forall_impl; [exact Hs|]. intros h0 H0.
        rewrite !map_app in *. exact H0.
      * constructor; [|constructor].
        rewrite map_app. apply in_or_app. right. now left.
  - rewrite (group_append_absent k h groups Hnotin).
    assert (Hnone : filter (fun h0 => Hit.frame_no h0 / d = k) seen = []).
    { clear -Hs Hnotin. induction seen as [|a seen IH]; [reflexivity|].
      inversion Hs as [|? ? Ha Hs']; subst.
      rewrite filter_cons. case_decide as E; [|now apply IH].
      exfalso. apply Hnotin. now rewrite <- E. }
    split; [|split].
    + rewrite map_app. simpl. apply NoDup_app. split; [exact Hnd|].
      split; [|apply NoDup_singleton].
      intros k' Hk' Hk''. apply list_elem_of_singleton in Hk''. subst k'.
      apply list_elem_of_In in Hk'. contradiction.
    + apply Forall_app. split.
      * rewrite List.Forall_forall in Hg. apply List.Forall_forall.
        intros kg Hkg. apply bucket_kept; [|now apply Hg].
        intros E. apply Hnotin. fold k in E. rewrite <- E. now apply in_map.
      * constructor; [|constructor]. simpl. split; [|discriminate].
        rewrite filter_snoc, Hnone. case_decide as Hd; [reflexivity|].
        exfalso; apply Hd; reflexivity.
    + apply Forall_app. split.
      * eapply Forall_impl; [exact Hs|]. intros h0 H0.
        rewrite map_app. apply in_or_app. now left.
      * constructor; [|constructor].
        rewrite map_app. apply in_or_app. right. now left.
Qed.

Lemma edge_group_loop_buckets self rs : forall seen groups,
  Py.py_int (self_fps self * 2)%Q <> 0 ->
  buckets_of (Py.py_int (self_fps self * 2)%Q) seen groups ->
  exists groups',
    edge_group_loop self groups rs = Some groups' /\
    buckets_of (Py.py_int (self_fps self * 2)%Q) (seen ++ rs) groups'.
Proof.
  induction rs as [|r rs IH]; intros seen groups Hd Hb; simpl.
  - exists groups. rewrite app_nil_r. now split.
  - unfold edge_group_step, Py.floordiv.
    destruct (Z.eqb_spec (Py.py_int (self_fps self * 2)%Q) 0); [contradiction|].
    simpl.
    destruct (IH (seen ++ [r]) _ Hd (group_append_buckets _ _ r _ Hb))
      as (groups' & E & Hb').
    exists groups'. split; [exact E|]. now rewrite <- app_assoc in Hb'.
Qed.

(** Temporal bucketing: when [fps >= 0.5] the edge path returns; its time
    groups are the buckets of the hits by [frame_no // int(fps * 2)], and it
    emits one region for each bucket of at least two hits, in the order of
    the buckets, and none for a bucket of one hit. *)
Theorem edge_bucket_regions (self : Detector) (hits : list Hit.t) :
  (1 # 2 <= self_fps self)%Q ->
  exists groups timed,
    edge_group_loop self [] hits = Some groups /\
    buckets_of (Py.py_int (self_fps self * 2)%Q) hits groups /\
    _analyze_edge_results self hits = Some (make_analysis self timed) /\
    Forall2 (fun group region => edge_region_of_group self group = Some region)
            (filter (fun group => 2 <= Z.of_nat (length group)) (map snd groups))
            timed.
Proof.
  intros Hfps. pose proof (edge_divisor_nonzero self Hfps) as Hd.
  destruct (edge_group_loop_buckets self hits [] [] Hd) as (groups & Eg & Hb).
  { split; [constructor|]. split; constructor. }
  simpl in Hb. exists groups.
  destruct (mapM_is_Some_2 (edge_region_of_group self)
              (filter (fun group => 2 <= Z.of_nat (length group)) (map snd groups)))
    as [timed Em].
  { apply Forall_filter_keep. apply List.Forall_map.
    destruct Hb as (_ & Hg & _). eapply Forall_impl; [exact Hg|].
    intros [k g] [_ Hne]. simpl in *.
    destruct (edge_region_of_group_Some self g Hne)
      as (? & ? & ? & ? & ? & ? & r & _ & _ & _ & _ & _ & _ & -> & _).
    now exists r. }
  exists timed. split; [exact Eg|]. split; [exact Hb|].
  split; [|now apply mapM_Some_1].
  unfold _analyze_edge_results. destruct hits as [|h0 hs].
  - simpl in Eg. injection Eg as <-. simpl in Em. injection Em as <-. reflexivity.
  - rewrite Eg. simpl. rewrite Em. reflexivity.
Qed.

Lemma edge_bucket_regions_witness :
  let self := mkDetector 1920 1080 25 1000 in
  let hits := [ Hit.mk 100 600 900 700 40 "" 0; Hit.mk 160 600 900 700 40 "" 0;
                Hit.mk 120 580 905 760 50 "" 0 ] in
  (1 # 2 <= self_fps self)%Q /\
  exists groups timed,
    edge_group_loop self [] hits = Some groups /\
    buckets_of (Py.py_int (self_fps self * 2)%Q) hits groups /\
    _analyze_edge_results self hits = Some (make_analysis self timed) /\
    Forall2 (fun group region => edge_region_of_group self group = Some region)
            (filter (fun group => 2 <= Z.of_nat (length group)) (map snd groups))
            timed.
Proof.
  intros self hits.
  assert (H : (1 # 2 <= self_fps self)%Q) by (unfold Qle; simpl; lia).
  split; [exact H|]. exact (edge_bucket_regions self hits H).
Defined.

(** An empty input gives the empty analysis on every path, without error. *)
Theorem empty_input_empty_analysis (self : Detector) :
  _analyze_ocr_results self [] = Some (_create_empty_analysis self) /\
  _analyze_edge_results self [] = Some (_create_empty_analysis self) /\
  _analyze_motion_results self [] = _create_empty_analysis self /\
  has_subtitles (_create_empty_analysis self) = false /\
  timed_regions (_create_empty_analysis self) = [].
Proof. repeat split. Qed.

(** Spatial clustering never yields an empty cluster, and a cluster holds
    hits of the input only. *)
Theorem spatial_clusters_from_input (regions : list Hit.t) (distance_threshold : Z) :
  Forall (cluster_ok regions) (_cluster_regions regions distance_threshold).
Proof. apply _cluster_regions_ok. Qed.

End DetectFacts.



(** ** Task store ([TaskService]) *)

Module TaskFacts.

Import TaskSvc.

(** *** One status update *)

Lemma stamp_status now st t : status (stamp now st t) = status t.
Proof. unfold stamp. repeat case_match; reflexivity. Qed.

Lemma assign_if_given_status {A} (set : A -> Task -> Task) v t :
  (forall a t, status (set a t) = status t) ->
  status (assign_if_given set v t) = status t.
Proof. intros H. destruct v; simpl; auto. Qed.

Lemma apply_status_update_status now st p e op ofn t :
  status (apply_status_update now st p e op ofn t) = st.
Proof.
  unfold apply_status_update. rewrite stamp_status.
  rewrite !assign_if_given_status; reflexivity.
Qed.

Lemma apply_status_update_progress now st p e op ofn t :
  progress (apply_status_update now st p e op ofn t) = default (progress t) p.
Proof.
  unfold apply_status_update, stamp.
  destruct p, e, op, ofn; simpl; repeat case_match; reflexivity.
Qed.

Lemma apply_status_update_error_message now st p e op ofn t :
  error_message (apply_status_update now st p e op ofn t) =
  match e with Some m => Some m | None => error_message t end.
Proof.
  unfold apply_status_update, stamp.
  destruct p, e, op, ofn; simpl; repeat case_match; reflexivity.
Qed.

(** The time stamp [started_at] after an update: taken from the clock when
    the request is [PROCESSING] and no start was recorded, kept otherwise. *)
Lemma stamp_started_at now st t :
  started_at (stamp now st t) =
  match started_at t with
  | Some ts => Some ts
  | None => if bool_decide (st = PROCESSING) then Some now else None
  end.
Proof.
  unfold stamp. destruct (started_at t) as [ts|] eqn:E.
  - rewrite (bool_decide_eq_false_2 (Some ts = None)) by discriminate.
    rewrite andb_false_r. repeat case_match; simpl; exact E.
  - rewrite (bool_decide_eq_true_2 (None = None)) by reflexivity.
    rewrite andb_true_r. destruct st; simpl; first [exact E|reflexivity].
Qed.

Lemma apply_status_update_started_at now st p e op ofn t :
  started_at (apply_status_update now st p e op ofn t) =
  match started_at t with
  | Some ts => Some ts
  | None => if bool_decide (st = PROCESSING) then Some now else None
  end.
Proof.
  unfold apply_status_update. rewrite stamp_started_at.
  now destruct p, e, op, ofn.
Qed.

Lemma update_task_status_found tasks now task_id st p e op ofn t :
  tasks !! task_id = Some t ->
  update_task_status tasks now task_id st p e op ofn =
  (<[task_id := apply_status_update now st p e op ofn t]> tasks,
   Some (apply_status_update now st p e op ofn t)).
Proof. intros H. unfold update_task_status. now rewrite H. Qed.

Lemma update_task_status_missing tasks now task_id st p e op ofn :
  tasks !! task_id = None ->
  update_task_status tasks now task_id st p e op ofn = (tasks, None).
Proof. intros H. unfold update_task_status. now rewrite H. Qed.

(** An update of one task leaves the others as they are. *)
Lemma update_task_status_other tasks now task_id st p e op ofn other :
  other <> task_id ->
  fst (update_task_status tasks now task_id st p e op ofn) !! other = tasks !! other.
Proof.
  intros Hne. unfold update_task_status.
  destruct (tasks !! task_id); simpl; [|reflexivity].
  now rewrite lookup_insert_ne.
Qed.

Import TaskAux.

Lemma cancel_task_fst tasks now task_id :
  fst (cancel_task tasks now task_id) =
  fst (update_task_status tasks now task_id FAILED None (Some cancel_message) None None).
Proof. unfold cancel_task. now destruct (update_task_status _ _ _ _ _ _ _ _). Qed.

(** *** C1: no transition is rejected *)

(** The claim C1 as worded fails: a request to move a COMPLETED task back to
    PENDING, which is no transition of the state machine, is carried out. *)
Lemma terminal_status_overwritten_counterexample :
  let task := set_status COMPLETED (fresh_task "t1") in
  let tasks : Tasks := {[ "t1" := task ]} in
  status task = COMPLETED /\
  allowed_transition (status task) PENDING = false /\
  exists task',
    update_task_status tasks 100 "t1" PENDING None None None None =
      (<["t1" := task']> tasks, Some task') /\
    status task' = PENDING.
Proof.
  intros task tasks. split; [reflexivity|]. split; [reflexivity|].
  eexists. split.
  - apply update_task_status_found. apply lookup_singleton_eq.
  - apply apply_status_update_status.
Qed.

(** C1 (as amended). The store checks no transition: for a task of the store
    every requested status is stored, whatever the current status, and the
    updated task is returned; a request for an id that is not in the store
    returns nothing and leaves the store as it is. *)
Theorem update_task_status_unconditional
  (tasks : Tasks) (now : datetime) (task_id : string) (requested : TaskStatus)
  (progress : option Q) (error_message output_path output_filename : option string) :
  match tasks !! task_id with
  | Some task =>
      exists task',
        update_task_status tasks now task_id requested progress error_message
                           output_path output_filename
        = (<[task_id := task']> tasks, Some task') /\
        status task' = requested /\
        fst (update_task_status tasks now task_id requested progress error_message
                                output_path output_filename) !! task_id = Some task'
  | None =>
      update_task_status tasks now task_id requested progress error_message
                         output_path output_filename
      = (tasks, None)
  end.
Proof.
  destruct (tasks !! task_id) as [task|] eqn:E.
  - eexists. rewrite (update_task_status_found _ _ _ _ _ _ _ _ _ E).
    split; [reflexivity|]. split; [apply apply_status_update_status|].
    simpl. apply lookup_insert_eq.
  - now apply update_task_status_missing.
Qed.

(** *** C2: a progress update sets PROCESSING *)

(** C2. For a task of the store [update_task_progress] stores the status
    PROCESSING and the progress value, whatever the status was. *)
Theorem update_task_progress_sets_processing
  (tasks : Tasks) (now : datetime) (task_id : string) (value : Q) (task : Task) :
  tasks !! task_id = Some task ->
  exists task',
    update_task_progress tasks now task_id value
      = (<[task_id := task']> tasks, Some task') /\
    status task' = PROCESSING /\
    progress task' = value.
Proof.
  intros E. eexists. unfold update_task_progress.
  rewrite (update_task_status_found _ _ _ _ _ _ _ _ _ E).
  split; [reflexivity|].
  split; [apply apply_status_update_status|apply apply_status_update_progress].
Qed.

(** A task that was cancelled while PROCESSING is FAILED; the next progress
    report of its worker makes it PROCESSING again. *)
Lemma update_task_progress_sets_processing_witness :
  let tasks0 : Tasks := {[ "t1" := set_status PROCESSING (fresh_task "t1") ]} in
  let tasks1 := fst (cancel_task tasks0 50 "t1") in
  exists cancelled,
    tasks1 !! "t1" = Some cancelled /\ status cancelled = FAILED /\
    exists task',
      update_task_progress tasks1 60 "t1" 42
        = (<["t1" := task']> tasks1, Some task') /\
      status task' = PROCESSING /\
      progress task' = 42%Q.
Proof.
  intros tasks0 tasks1.
  assert (E : tasks1 !! "t1" =
              Some (apply_status_update 50 FAILED None (Some cancel_message) None None
                      (set_status PROCESSING (fresh_task "t1")))).
  { unfold tasks1. rewrite cancel_task_fst.
    rewrite (update_task_status_found tasks0 _ _ _ _ _ _ _ _ (lookup_singleton_eq _ _)).
    apply lookup_insert_eq. }
  eexists. split; [exact E|]. split; [reflexivity|].
  exact (update_task_progress_sets_processing tasks1 60 "t1" 42 _ E).
Defined.

(** *** C8: [started_at] is set once *)

Lemma update_task_status_keeps_start tasks now target st p e op ofn task_id task ts :
  tasks !! task_id = Some task ->
  started_at task = Some ts ->
  exists task',
    fst (update_task_status tasks now target st p e op ofn) !! task_id = Some task' /\
    started_at task' = Some ts.
Proof.
  intros E Hs. destruct (decide (task_id = target)) as [->|Hne].
  - rewrite (update_task_status_found _ _ _ _ _ _ _ _ _ E). simpl.
    eexists. split; [apply lookup_insert_eq|].
    rewrite apply_status_update_started_at. now rewrite Hs.
  - exists task. split; [|exact Hs].
    now rewrite update_task_status_other.
Qed.

Lemma update_subtitle_regions_keeps_start tasks target regions task_id task ts :
  tasks !! task_id = Some task ->
  started_at task = Some ts ->
  exists task',
    fst (update_subtitle_regions tasks target regions) !! task_id = Some task' /\
    started_at task' = Some ts.
Proof.
  intros E Hs. unfold update_subtitle_regions.
  destruct (decide (task_id = target)) as [->|Hne].
  - rewrite E. simpl. eexists. split; [apply lookup_insert_eq|exact Hs].
  - exists task. split; [|exact Hs].
    destruct (tasks !! target); simpl; [|exact E].
    now rewrite lookup_insert_ne.
Qed.

Lemma run_op_keeps_start tasks op task_id task ts :
  tasks !! task_id = Some task ->
  started_at task = Some ts ->
  exists task', run_op tasks op !! task_id = Some task' /\ started_at task' = Some ts.
Proof.
  intros E Hs. destruct op; simpl.
  - now apply (update_task_status_keeps_start _ _ _ _ _ _ _ _ _ task).
  - now apply (update_task_status_keeps_start _ _ _ _ _ _ _ _ _ task).
  - rewrite cancel_task_fst.
    now apply (update_task_status_keeps_start _ _ _ _ _ _ _ _ _ task).
  - now apply (update_subtitle_regions_keeps_start _ _ _ _ task).
Qed.

Lemma run_ops_keeps_start ops : forall tasks task_id task ts,
  tasks !! task_id = Some task ->
  started_at task = Some ts ->
  exists task', run_ops tasks ops !! task_id = Some task' /\ started_at task' = Some ts.
Proof.
  induction ops as [|op ops IH]; intros tasks task_id task ts E Hs.
  - exists task. now split.
  - destruct (run_op_keeps_start tasks op task_id task ts E Hs) as (t1 & E1 & H1).
    exact (IH _ _ _ _ E1 H1).
Qed.

(** C8. For a task of the store: an update to PROCESSING records the time of
    the call in [started_at] when no start was recorded, and once a start is
    recorded no sequence of later updates (status updates to PROCESSING or
    to any other status, progress reports, cancellations, region updates, of
    this task or of others) changes it. *)
Theorem started_at_set_once (tasks : Tasks) (task_id : string) (task : Task) :
  tasks !! task_id = Some task ->
  (forall now p e op ofn,
     started_at task = None ->
     exists task',
       fst (update_task_status tasks now task_id PROCESSING p e op ofn) !! task_id
         = Some task' /\
       started_at task' = Some now) /\
  (forall ts ops,
     started_at task = Some ts ->
     exists task',
       run_ops tasks ops !! task_id = Some task' /\
       started_at task' = Some ts).
Proof.
  intros E. split.
  - intros now p e op ofn Hs.
    rewrite (update_task_status_found _ _ _ _ _ _ _ _ _ E). simpl.
    eexists. split; [apply lookup_insert_eq|].
    rewrite apply_status_update_started_at. now rewrite Hs.
  - intros ts ops Hs. now apply (run_ops_keeps_start ops tasks task_id task).
Qed.

(** A task started at time 5: a second signal of PROCESSING at time 9, a
    progress report at time 12 and a cancellation at time 20 leave
    [started_at] at 5. *)
Lemma started_at_set_once_witness :
  let tasks0 : Tasks := {[ "t1" := fresh_task "t1" ]} in
  let tasks1 := fst (update_task_status tasks0 5 "t1" PROCESSING None None None None) in
  let ops := [ OpUpdateStatus 9 "t1" PROCESSING None None None None;
               OpUpdateProgress 12 "t1" 30;
               OpCancel 20 "t1" ] in
  exists started,
    tasks1 !! "t1" = Some started /\ started_at started = Some 5 /\
    exists task',
      run_ops tasks1 ops !! "t1" = Some task' /\ started_at task' = Some 5.
Proof.
  intros tasks0 tasks1 ops.
  destruct (started_at_set_once tasks0 "t1" (fresh_task "t1") (lookup_singleton_eq _ _))
    as [Hfirst _].
  destruct (Hfirst 5 None None None None eq_refl) as (started & E & Hs).
  exists started. split; [exact E|]. split; [exact Hs|].
  destruct (started_at_set_once tasks1 "t1" started E) as [_ Hlater].
  exact (Hlater 5 ops Hs).
Defined.

(** *** Further facts on the store *)

Lemma stamp_completed_at now st t :
  completed_at (stamp now st t) =
  if bool_decide (st = PROCESSING) && bool_decide (started_at t = None)
  then completed_at t
  else if bool_decide (st = COMPLETED) || bool_decide (st = FAILED)
       then Some now
       else completed_at t.
Proof. unfold stamp. repeat case_match; reflexivity. Qed.

(** Every update to COMPLETED or FAILED takes the time of the call as
    [completed_at], also when a completion time was recorded before. *)
Theorem completed_at_overwritten
  (tasks : Tasks) (now : datetime) (task_id : string) (requested : TaskStatus)
  (p : option Q) (e op ofn : option string) (task : Task) :
  tasks !! task_id = Some task ->
  requested = COMPLETED \/ requested = FAILED ->
  exists task',
    fst (update_task_status tasks now task_id requested p e op ofn) !! task_id
      = Some task' /\
    completed_at task' = Some now.
Proof.
  intros E Hr.
  rewrite (update_task_status_found _ _ _ _ _ _ _ _ _ E). simpl.
  eexists. split; [apply lookup_insert_eq|].
  unfold apply_status_update. rewrite stamp_completed_at.
  destruct Hr as [-> | ->]; reflexivity.
Qed.

(** A task cancelled at time 50 whose worker reports a failure at time 80
    has 80 as its completion time. *)
Lemma completed_at_overwritten_witness :
  let tasks0 : Tasks := {[ "t1" := set_status PROCESSING (fresh_task "t1") ]} in
  let tasks1 := fst (cancel_task tasks0 50 "t1") in
  exists cancelled,
    tasks1 !! "t1" = Some cancelled /\ completed_at cancelled = Some 50 /\
    exists task',
      fst (update_task_status tasks1 80 "t1" FAILED None (Some "boom") None None) !! "t1"
        = Some task' /\
      completed_at task' = Some 80.
Proof.
  intros tasks0 tasks1.
  assert (E : tasks1 !! "t1" =
              Some (apply_status_update 50 FAILED None (Some cancel_message) None None
                      (set_status PROCESSING (fresh_task "t1")))).
  { unfold tasks1. rewrite cancel_task_fst.
    rewrite (update_task_status_found tasks0 _ _ _ _ _ _ _ _ (lookup_singleton_eq _ _)).
    apply lookup_insert_eq. }
  eexists. split; [exact E|]. split; [reflexivity|].
  exact (completed_at_overwritten tasks1 80 "t1" FAILED None (Some "boom") None None
           _ E (or_intror eq_refl)).
Defined.

End TaskFacts.


(** ** Routes *)

Module RouteFacts.

Import TaskSvc.

Lemma is_processing_iff st :
  String.eqb (status_value st) "processing" = true <-> st = PROCESSING.
Proof. destruct st; simpl; split; congruence. Qed.

(** C10. A request to cancel a task of the store that is not PROCESSING is
    answered with the HTTP error 400 "only a task being processed can be
    cancelled" and the store, hence every field of the task, stays as it
    is.  A PROCESSING task is cancelled: it becomes FAILED with the
    cancellation message. *)
Theorem cancel_requires_processing
  (tasks : Tasks) (now : datetime) (task_id : string) (task : Task) :
  tasks !! task_id = Some task ->
  (status task <> PROCESSING ->
     Routes.cancel_task tasks now task_id =
       (tasks, Routes.HTTPException 400 "只能取消正在处理的任务")) /\
  (status task = PROCESSING ->
     exists task',
       Routes.cancel_task tasks now task_id =
         (<[task_id := task']> tasks, Routes.APIResponse true "任务取消成功" task_id) /\
       status task' = FAILED /\
       error_message task' = Some cancel_message).
Proof.
  intros E. unfold Routes.cancel_task, get_task. rewrite E. split.
  - intros Hs.
    destruct (String.eqb (status_value (status task)) "processing") eqn:Hp.
    + apply is_processing_iff in Hp. contradiction.
    + reflexivity.
  - intros Hs. apply is_processing_iff in Hs as Hp. rewrite Hp. simpl.
    unfold cancel_task.
    rewrite (TaskFacts.update_task_status_found _ _ _ _ _ _ _ _ _ E).
    eexists. split; [reflexivity|].
    split; [apply TaskFacts.apply_status_update_status|].
    apply TaskFacts.apply_status_update_error_message.
Qed.

(** A task that was just submitted is PENDING: the request to cancel it is
    refused and the store is unchanged. *)
Lemma cancel_requires_processing_witness :
  let tasks : Tasks := {[ "t1" := TaskAux.fresh_task "t1" ]} in
  status (TaskAux.fresh_task "t1") = PENDING /\
  Routes.cancel_task tasks 7 "t1" =
    (tasks, Routes.HTTPException 400 "只能取消正在处理的任务").
Proof.
  intros tasks. split; [reflexivity|].
  apply (cancel_requires_processing tasks 7 "t1" (TaskAux.fresh_task "t1")).
  - apply lookup_singleton_eq.
  - discriminate.
Defined.

(** The request for an id that is not in the store is answered with 404. *)
Lemma cancel_unknown_task tasks now task_id :
  tasks !! task_id = None ->
  Routes.cancel_task tasks now task_id =
    (tasks, Routes.HTTPException 404 "任务不存在").
Proof. intros E. unfold Routes.cancel_task, get_task. now rewrite E. Qed.

(** The service method itself has no such guard: called directly on a
    PENDING task it makes the task FAILED. *)
Lemma service_cancel_is_unguarded :
  let tasks : Tasks := {[ "t1" := TaskAux.fresh_task "t1" ]} in
  exists task',
    fst (cancel_task tasks 7 "t1") !! "t1" = Some task' /\ status task' = FAILED.
Proof.
  intros tasks. rewrite TaskFacts.cancel_task_fst.
  rewrite (TaskFacts.update_task_status_found tasks _ _ _ _ _ _ _ _
             (lookup_singleton_eq _ _)).
  eexists. split; [apply lookup_insert_eq|reflexivity].
Qed.

(** The request to delete a task of the store is refused with the HTTP error
    400 while the task is PROCESSING, and the store stays as it is;
    otherwise the task is removed. *)
Theorem delete_refuses_processing (tasks : Tasks) (task_id : string) (task : Task) :
  tasks !! task_id = Some task ->
  (status task = PROCESSING ->
     Routes.delete_task tasks task_id =
       (tasks, Routes.HTTPException 400 "任务正在处理中，无法删除")) /\
  (status task <> PROCESSING ->
     Routes.delete_task tasks task_id =
       (delete task_id tasks, Routes.APIResponse true "任务删除成功" task_id)).
Proof.
  intros E. unfold Routes.delete_task, get_task. rewrite E. split; intros Hs.
  - apply is_processing_iff in Hs. now rewrite Hs.
  - destruct (String.eqb (status_value (status task)) "processing") eqn:Hp.
    + apply is_processing_iff in Hp. contradiction.
    + unfold delete_task. rewrite E. reflexivity.
Qed.

Lemma delete_refuses_processing_witness :
  let task := set_status PROCESSING (TaskAux.fresh_task "t1") in
  let tasks : Tasks := {[ "t1" := task ]} in
  status task = PROCESSING /\
  Routes.delete_task tasks "t1" =
    (tasks, Routes.HTTPException 400 "任务正在处理中，无法删除").
Proof.
  intros task tasks. split; [reflexivity|].
  apply (delete_refuses_processing tasks "t1" task).
  - apply lookup_singleton_eq.
  - reflexivity.
Defined.

End RouteFacts.


(** ** Region entries of a task ([_process_video_sync]) *)

Module VideoFacts.

Import TaskSvc DetectionSvc VideoSvc VideoAux.

Lemma int_of_jnum_truncated n t : int_of_jnum n = Some t -> truncated n t.
Proof.
  destruct n as [z|q| |]; simpl; try discriminate; intros [= <-]; [reflexivity|].
  unfold Py.py_int. destruct (Qle_bool 0 q) eqn:B.
  - apply Qle_bool_iff in B.
    pose proof (Qfloor_le q) as L. pose proof (Qlt_floor q) as U.
    rewrite inject_Z_plus in U. change (inject_Z 1) with 1%Q in U.
    split; [now split|]. intros N. split; [lra|].
    assert (Z0 : (inject_Z 0 < inject_Z (Qfloor q + 1))%Q).
    { rewrite inject_Z_plus. change (inject_Z 1) with 1%Q. change (inject_Z 0) with 0%Q. lra. }
    rewrite <- Zlt_Qlt in Z0.
    assert (Z1 : (inject_Z 0 <= inject_Z (Qfloor q))%Q) by (rewrite <- Zle_Qle; lia).
    change (inject_Z 0) with 0%Q in Z1. lra.
  - assert (N : (q < 0)%Q).
    { apply Qnot_le_lt. intros C. apply Qle_bool_iff in C. congruence. }
    pose proof (Qle_ceiling q) as L. pose proof (Qceiling_lt q) as U.
    unfold Z.sub in U. rewrite inject_Z_plus in U.
    change (inject_Z (- (1))) with (- (1))%Q in U.
    split; [intros C; lra|]. intros _. split; [lra|exact L].
Qed.

Lemma int_of_jnum_finite n : is_finite n <-> is_Some (int_of_jnum n).
Proof.
  destruct n; simpl; split; intros H; eauto; try contradiction;
    destruct H; discriminate.
Qed.

(** An entry of four finite numbers gives its area. *)
Lemma area_of_region_four n1 n2 n3 n4 x1 y1 x2 y2 :
  int_of_jnum n1 = Some x1 -> int_of_jnum n2 = Some y1 ->
  int_of_jnum n3 = Some x2 -> int_of_jnum n4 = Some y2 ->
  area_of_region [n1; n2; n3; n4] =
  Some (Some (Z.min y1 y2, Z.max y1 y2, Z.min x1 x2, Z.max x1 x2)).
Proof.
  intros E1 E2 E3 E4. unfold area_of_region. cbn [length Nat.eqb].
  cbn [mapM]. rewrite E1, E2, E3, E4. reflexivity.
Qed.

(** An entry that does not have four values is skipped. *)
Lemma area_of_region_skipped region :
  length region <> 4%nat -> area_of_region region = Some None.
Proof.
  intros H. unfold area_of_region.
  destruct (Nat.eqb_spec (length region) 4%nat); [contradiction|reflexivity].
Qed.

(** The three cases of an entry. *)
Lemma area_of_region_cases region :
  (length region <> 4%nat /\ area_of_region region = Some None) \/
  (raising region /\ area_of_region region = None) \/
  (length region = 4%nat /\
   exists area, area_of_region region = Some (Some area) /\ area_of_entry region area).
Proof.
  destruct (Nat.eq_dec (length region) 4%nat) as [L|L];
    [|left; split; [exact L|now apply area_of_region_skipped]].
  right.
  destruct region as [|n1 [|n2 [|n3 [|n4 [|n5 rest]]]]]; try discriminate.
  destruct (int_of_jnum n1) as [x1|] eqn:E1;
    [|left; split;
      [split; [reflexivity|apply Exists_cons_hd; rewrite int_of_jnum_finite, E1;
                           intros [? ?]; discriminate]
      |unfold area_of_region; cbn [length Nat.eqb mapM]; now rewrite E1]].
  destruct (int_of_jnum n2) as [y1|] eqn:E2;
    [|left; split;
      [split; [reflexivity|do 1 apply Exists_cons_tl; apply Exists_cons_hd;
                           rewrite int_of_jnum_finite, E2; intros [? ?]; discriminate]
      |unfold area_of_region; cbn [length Nat.eqb mapM]; now rewrite E1, E2]].
  destruct (int_of_jnum n3) as [x2|] eqn:E3;
    [|left; split;
      [split; [reflexivity|do 2 apply Exists_cons_tl; apply Exists_cons_hd;
                           rewrite int_of_jnum_finite, E3; intros [? ?]; discriminate]
      |unfold area_of_region; cbn [length Nat.eqb mapM]; now rewrite E1, E2, E3]].
  destruct (int_of_jnum n4) as [y2|] eqn:E4;
    [|left; split;
      [split; [reflexivity|do 3 apply Exists_cons_tl; apply Exists_cons_hd;
                           rewrite int_of_jnum_finite, E4; intros [? ?]; discriminate]
      |unfold area_of_region; cbn [length Nat.eqb mapM]; now rewrite E1, E2, E3, E4]].
  right. split; [reflexivity|]. eexists. split.
  - apply (area_of_region_four _ _ _ _ _ _ _ _ E1 E2 E3 E4).
  - exists n1, n2, n3, n4, x1, y1, x2, y2.
    split; [reflexivity|].
    repeat (split; [now apply int_of_jnum_truncated|]). reflexivity.
Qed.

Lemma raising_not_area region area :
  raising region -> area_of_region region <> Some area.
Proof.
  intros [L Ex].
  destruct (area_of_region_cases region) as [[N _]|[[_ ->]|(_ & a & E & Ha)]];
    [contradiction|discriminate|].
  exfalso. destruct Ha as (n1 & n2 & n3 & n4 & x1 & y1 & x2 & y2 & -> & T1 & T2 & T3 & T4 & _).
  repeat (apply Exists_cons in Ex as [Ex|Ex];
          [match type of Ex with ~ is_finite ?n => destruct n end;
           simpl in *; tauto|]).
  inversion Ex.
Qed.

Lemma sub_area_step_eq all_areas region :
  sub_area_step all_areas region =
  match area_of_region region with
  | Some (Some area) => Some (all_areas ++ [area])
  | Some None => Some all_areas
  | None => None
  end.
Proof. unfold sub_area_step. now destruct (area_of_region region) as [[?|]|]. Qed.

(** The loop over the entries: it raises when an entry raises, and
    otherwise appends the areas of the entries of four values, in order. *)
Lemma sub_area_loop regions : forall all_areas,
  (Exists raising regions /\ Py.for_each sub_area_step regions all_areas = None) \/
  (~ Exists raising regions /\
   exists areas,
     Py.for_each sub_area_step regions all_areas = Some (all_areas ++ areas) /\
     Forall2 area_of_entry (filter (fun r => length r = 4%nat) regions) areas).
Proof.
  induction regions as [|r regions IH]; intros acc.
  - right. split; [intros H; inversion H|].
    exists []. split; [simpl; now rewrite app_nil_r|constructor].
  - cbn [Py.for_each]. rewrite sub_area_step_eq.
    destruct (area_of_region_cases r) as [[L E]|[[R E]|(L & a & E & Ha)]]; rewrite E;
      cbn [mbind option_bind].
    + destruct (IH acc) as [[X F]|(X & areas & F & A)].
      * left. split; [now apply Exists_cons_tl|exact F].
      * right. split.
        -- intros H. apply Exists_cons in H as [[H _]|H]; [contradiction|now apply X].
        -- exists areas. split; [exact F|].
           rewrite filter_cons_False by exact L. exact A.
    + left. split; [now apply Exists_cons_hd|reflexivity].
    + destruct (IH (acc ++ [a])) as [[X F]|(X & areas & F & A)].
      * left. split; [now apply Exists_cons_tl|exact F].
      * right. split.
        -- intros H. apply Exists_cons in H as [H|H]; [|now apply X].
           apply (raising_not_area r (Some a) H E).
        -- exists (a :: areas). split; [now rewrite F, <- app_assoc|].
           rewrite filter_cons_True by exact L. now constructor.
Qed.

Lemma sub_area_loop_keeps regions : forall all_areas out area,
  Py.for_each sub_area_step regions all_areas = Some out ->
  In area all_areas -> In area out.
Proof.
  induction regions as [|r regions IH]; intros acc out area E Hin.
  - injection E as <-. exact Hin.
  - cbn [Py.for_each] in E. rewrite sub_area_step_eq in E.
    destruct (area_of_region r) as [[a|]|]; cbn [mbind option_bind] in E;
      [|now apply (IH acc)|discriminate].
    apply (IH (acc ++ [a]) out area E). apply in_or_app. now left.
Qed.

Lemma sub_area_loop_has before entry after area : forall all_areas out,
  area_of_region entry = Some (Some area) ->
  Py.for_each sub_area_step (before ++ entry :: after) all_areas = Some out ->
  In area out.
Proof.
  induction before as [|r before IH]; intros acc out Ea E.
  - cbn [app Py.for_each] in E. rewrite sub_area_step_eq, Ea in E.
    cbn [mbind option_bind] in E.
    apply (sub_area_loop_keeps after (acc ++ [area]) out area E).
    apply in_or_app. right. now left.
  - cbn [app Py.for_each] in E.
    destruct (sub_area_step acc r) as [acc'|]; cbn [mbind option_bind] in E; [|discriminate].
    now apply (IH acc' out).
Qed.

Lemma prepare_sub_area_raises regions :
  Exists raising regions -> prepare_sub_area (Some regions) = None.
Proof.
  intros X. destruct regions as [|r rs]; [inversion X|].
  unfold prepare_sub_area.
  destruct (sub_area_loop (r :: rs) []) as [[_ ->]|[N _]]; [reflexivity|contradiction].
Qed.

Lemma prepare_sub_area_returns regions :
  ~ Exists raising regions ->
  exists areas,
    Forall2 area_of_entry (filter (fun r => length r = 4%nat) regions) areas /\
    Py.for_each sub_area_step regions [] = Some areas /\
    prepare_sub_area (Some regions) =
    Some (match areas with [] => None | _ => Some areas end).
Proof.
  intros N.
  destruct (sub_area_loop regions []) as [[X _]|(_ & areas & F & A)]; [contradiction|].
  exists areas. split; [exact A|]. split; [exact F|].
  destruct regions as [|r rs].
  - simpl in F. injection F as <-. reflexivity.
  - unfold prepare_sub_area. rewrite F. cbn [mbind option_bind app].
    now destruct areas.
Qed.

(** C9 (as amended). A region entry of four finite numbers
    [x1, y1, x2, y2] becomes the area (ymin, ymax, xmin, xmax) of the
    numbers without their fractions: with [x1'], [y1'], [x2'], [y2'] the
    numbers truncated towards zero by [int] (an [int] is kept as it is),
    xmin = min(x1', x2'), xmax = max(x1', x2'), ymin = min(y1', y2') and
    ymax = max(y1', y2'), in whatever order the corners were given.  This
    area is among those handed to the worker whatever the other entries are,
    unless an entry of four values holds an infinity or a NaN: then [int]
    raises and nothing is handed to the worker.  The entry
    [50, 100, 10, 80] gives xmin = 10, xmax = 50, ymin = 80, ymax = 100. *)
Theorem region_corners_normalised
  (n1 n2 n3 n4 : JNum) (before after : list (list JNum)) :
  let entry := [n1; n2; n3; n4] in
  let regions := before ++ entry :: after in
  (Forall is_finite entry ->
     exists x1 y1 x2 y2,
       truncated n1 x1 /\ truncated n2 y1 /\ truncated n3 x2 /\ truncated n4 y2 /\
       let area := (Z.min y1 y2, Z.max y1 y2, Z.min x1 x2, Z.max x1 x2) in
       area_of_region entry = Some (Some area) /\
       (~ Exists raising regions ->
          exists areas,
            prepare_sub_area (Some regions) = Some (Some areas) /\ In area areas)) /\
  (Exists raising regions -> prepare_sub_area (Some regions) = None) /\
  (raising entry <-> ~ Forall is_finite entry) /\
  prepare_sub_area (Some [[JInt 50; JInt 100; JInt 10; JInt 80]])
    = Some (Some [(80, 100, 10, 50)]).
Proof.
  intros entry regions. split; [|split; [|split]].
  - intros F.
    assert (S : forall n, In n entry -> is_Some (int_of_jnum n)).
    { intros n Hn. apply int_of_jnum_finite.
      rewrite List.Forall_forall in F. now apply F. }
    destruct (S n1) as [x1 E1]; [simpl; tauto|].
    destruct (S n2) as [y1 E2]; [simpl; tauto|].
    destruct (S n3) as [x2 E3]; [simpl; tauto|].
    destruct (S n4) as [y2 E4]; [simpl; tauto|].
    exists x1, y1, x2, y2.
    repeat (split; [now apply int_of_jnum_truncated|]).
    pose proof (area_of_region_four n1 n2 n3 n4 x1 y1 x2 y2 E1 E2 E3 E4) as Ea.
    cbv zeta. split; [exact Ea|].
    intros N. destruct (prepare_sub_area_returns regions N) as (areas & _ & L & P).
    pose proof (sub_area_loop_has before entry after _ [] areas Ea L) as Hin.
    exists areas. split; [|exact Hin].
    rewrite P. destruct areas; [destruct Hin|reflexivity].
  - apply prepare_sub_area_raises.
  - unfold raising. split.
    + intros [_ Ex] F. rewrite List.Forall_forall in F.
      apply List.Exists_exists in Ex as (n & Hn & Hf). now apply Hf, F.
    + intros NF. split; [reflexivity|].
      apply List.Exists_exists.
      destruct n1 as [?|?|?|]; [| |exists (JInfinity negative); simpl; tauto|exists JNaN; simpl; tauto];
      (destruct n2 as [?|?|?|]; [| |exists (JInfinity negative); simpl; tauto|exists JNaN; simpl; tauto]);
      (destruct n3 as [?|?|?|]; [| |exists (JInfinity negative); simpl; tauto|exists JNaN; simpl; tauto]);
      (destruct n4 as [?|?|?|]; [| |exists (JInfinity negative); simpl; tauto|exists JNaN; simpl; tauto]);
      exfalso; apply NF; repeat constructor.
  - reflexivity.
Qed.

(** The claim C9 as worded fails for numbers with a fraction: the entry
    [10.5, 7, 3, 9.5] gives the area with xmax = 10 and ymax = 9, where
    max(x1, x2) = 10.5 and max(y1, y2) = 9.5.  It fails as well for an
    entry of four numbers one of which is an infinity: no area is handed to
    the worker, [int] raises. *)
Lemma corners_truncated_counterexample :
  let entry := [JFloat (21 # 2); JInt 7; JInt 3; JFloat (19 # 2)] in
  prepare_sub_area (Some [entry]) = Some (Some [(7, 9, 3, 10)]) /\
  (exists ymin ymax xmin xmax,
     spec_area entry = Some (ymin, ymax, xmin, xmax) /\
     (xmax == 21 # 2)%Q /\ (ymax == 19 # 2)%Q /\
     ~ (inject_Z 10 == xmax)%Q /\ ~ (inject_Z 9 == ymax)%Q) /\
  prepare_sub_area (Some [[JInfinity false; JInt 7; JInt 3; JInt 9]]) = None.
Proof.
  split; [reflexivity|]. split; [|reflexivity].
  eexists _, _, _, _. split; [vm_compute; reflexivity|].
  repeat split; discriminate.
Qed.

(** Entries of the wrong length are skipped and the others are kept, a NaN
    in a skipped entry included. *)
Example prepare_sub_area_skips_malformed :
  prepare_sub_area
    (Some [ [JInt 1; JInt 2; JInt 3];
            [JInt 50; JInt 100; JInt 10; JInt 80];
            [JFloat (21 # 2); JInt 7; JInt 3; JFloat (19 # 2); JNaN];
            [JFloat (- (21 # 2)); JInt 7; JInt 3; JFloat (19 # 2)] ])
  = Some (Some [(80, 100, 10, 50); (7, 9, -10, 3)]).
Proof. reflexivity. Qed.

(** The areas handed to the worker are those of the entries of four values,
    in order, each with its four finite numbers truncated towards zero; an
    entry of another length is skipped, whatever it holds, and when no entry
    is left (or none was given) the worker gets no area at all.  When an
    entry of four values holds an infinity or a NaN, [int] raises and the
    worker gets nothing. *)
Theorem malformed_entries_skipped (regions : list (list JNum)) :
  (Exists raising regions -> prepare_sub_area (Some regions) = None) /\
  (~ Exists raising regions ->
     exists areas,
       Forall2 area_of_entry (filter (fun r => length r = 4%nat) regions) areas /\
       prepare_sub_area (Some regions) =
       Some (match areas with [] => None | _ => Some areas end)) /\
  prepare_sub_area None = Some None.
Proof.
  split; [apply prepare_sub_area_raises|]. split; [|reflexivity].
  intros N. destruct (prepare_sub_area_returns regions N) as (areas & A & _ & P).
  now exists areas.
Qed.

Lemma status_update_keeps_regions now st t :
  subtitle_regions (apply_status_update now st None None None None t) = subtitle_regions t.
Proof. unfold apply_status_update, stamp. simpl. repeat case_match; reflexivity. Qed.

(** A task for which [is_detection_needed] answers True has no region to
    hand to the remover. *)
Lemma detection_needed_no_area tasks task_id :
  is_detection_needed tasks task_id = true ->
  exists task, tasks !! task_id = Some task /\
               prepare_sub_area (subtitle_regions task) = Some None.
Proof.
  unfold is_detection_needed, get_task.
  destruct (tasks !! task_id) as [task|]; [|discriminate].
  intros H. exists task. split; [reflexivity|].
  destruct (subtitle_regions task) as [[|r rs]|]; [reflexivity|discriminate|reflexivity].
Qed.

Lemma update_status_only tasks now task_id st t :
  tasks !! task_id = Some t -> st <> PROCESSING -> st <> COMPLETED -> st <> FAILED ->
  fst (update_task_status tasks now task_id st None None None None)
  = <[task_id := set_status st t]> tasks.
Proof.
  intros E N1 N2 N3.
  rewrite (TaskFacts.update_task_status_found _ _ _ _ _ _ _ _ _ E). cbn [fst].
  f_equal. unfold apply_status_update, stamp. cbn [assign_if_given].
  rewrite (bool_decide_eq_false_2 _ N1), (bool_decide_eq_false_2 _ N2),
          (bool_decide_eq_false_2 _ N3). reflexivity.
Qed.

Lemma update_status_failed tasks now task_id message t :
  tasks !! task_id = Some t ->
  fst (update_task_status tasks now task_id FAILED None (Some message) None None)
  = <[task_id := set_completed_at now (set_error_message message (set_status FAILED t))]>
      tasks.
Proof.
  intros E.
  rewrite (TaskFacts.update_task_status_found _ _ _ _ _ _ _ _ _ E). reflexivity.
Qed.

(** The task that [detect_subtitles] leaves in the store. *)
Lemma detect_subtitles_found tasks now task_id outcome t :
  tasks !! task_id = Some t ->
  fst (detect_subtitles tasks now task_id outcome) =
  <[task_id :=
      match outcome with
      | Analysed _ => set_status PENDING t
      | NoAnalysis =>
          set_completed_at now (set_error_message "字幕检测失败" (set_status FAILED t))
      | ClientRaised message =>
          set_completed_at now (set_error_message message (set_status FAILED t))
      end]> tasks.
Proof.
  intros E. unfold detect_subtitles, get_task. rewrite E.
  rewrite (update_status_only _ _ _ DETECTING t E) by discriminate.
  assert (E1 : <[task_id := set_status DETECTING t]> tasks !! task_id
               = Some (set_status DETECTING t)) by apply lookup_insert_eq.
  destruct outcome as [a| |message]; cbn [fst detection_failed].
  - rewrite (update_status_only _ _ _ PENDING _ E1) by discriminate.
    now rewrite insert_insert_eq.
  - rewrite (update_status_failed _ _ _ _ _ E1). now rewrite insert_insert_eq.
  - rewrite (update_status_failed _ _ _ _ _ E1). now rewrite insert_insert_eq.
Qed.

Lemma detect_subtitles_result tasks now task_id outcome t :
  tasks !! task_id = Some t ->
  snd (detect_subtitles tasks now task_id outcome) =
  match outcome with
  | Analysed a =>
      {| has_subtitles := sa_has_subtitles a;
         subtitle_type := sa_subtitle_type a;
         dominant_position := sa_dominant_position a;
         regions := map region_dict (sa_regions a);
         error := None |}
  | NoAnalysis => failure_result "字幕检测失败"
  | ClientRaised message => failure_result message
  end.
Proof.
  intros E. unfold detect_subtitles, get_task. rewrite E.
  destruct outcome; reflexivity.
Qed.

(** [detect_subtitles] on a task of the store changes this task only.
    When the client returns an analysis, the task is left PENDING, whatever
    its status was, with every other field as before (the analysis is
    returned, not stored), and the result carries the flag and the regions of
    the analysis.  When the client returns nothing or raises, the task is
    left FAILED with the error message and the time of the failure as
    [completed_at], and the result reports no subtitles, no regions and the
    error.  For an unknown task the store is unchanged and the result
    reports the error. *)
Theorem detect_subtitles_effects
  (tasks : Tasks) (now : datetime) (task_id : string) (outcome : GeminiOutcome) :
  let tasks' := fst (detect_subtitles tasks now task_id outcome) in
  let result := snd (detect_subtitles tasks now task_id outcome) in
  (forall other, other <> task_id -> tasks' !! other = tasks !! other) /\
  (tasks !! task_id = None ->
     tasks' = tasks /\ result = failure_result "任务不存在") /\
  (forall task, tasks !! task_id = Some task ->
     match outcome with
     | Analysed a =>
         tasks' !! task_id = Some (set_status PENDING task) /\
         has_subtitles result = sa_has_subtitles a /\
         regions result = map region_dict (sa_regions a) /\
         error result = None
     | NoAnalysis =>
         tasks' !! task_id =
           Some (set_completed_at now
                   (set_error_message "字幕检测失败" (set_status FAILED task))) /\
         result = failure_result "字幕检测失败"
     | ClientRaised message =>
         tasks' !! task_id =
           Some (set_completed_at now
                   (set_error_message message (set_status FAILED task))) /\
         result = failure_result message
     end).
Proof.
  intros tasks' result. subst tasks' result.
  destruct (tasks !! task_id) as [t|] eqn:E.
  - rewrite (detect_subtitles_found _ _ _ outcome _ E),
            (detect_subtitles_result _ _ _ outcome _ E).
    split; [intros other N; now apply lookup_insert_ne|].
    split; [discriminate|].
    intros task [= <-]. rewrite lookup_insert_eq.
    destruct outcome; repeat split; reflexivity.
  - assert (D : detect_subtitles tasks now task_id outcome
                = (tasks, failure_result "任务不存在")).
    { unfold detect_subtitles, get_task, detection_failed. rewrite E.
      now rewrite TaskFacts.update_task_status_missing. }
    rewrite D. cbn [fst snd].
    split; [reflexivity|]. split; [now split|]. discriminate.
Qed.

(** [start_processing_task] on a task of the store changes this task
    only and leaves it PROCESSING, with [started_at] set to the time of the
    update unless a start was recorded, whether or not detection was
    requested and however it ended.  When detection was requested and the
    analysis reports subtitles, the task's regions become the detected boxes
    as [[x, y, x + width, y + height]]; in every other case the regions are
    unchanged.  A detection that failed leaves its error message and the
    time of the failure ([completed_at]) on the task that is now
    PROCESSING. *)
Theorem start_processing_reaches_processing
  (tasks : Tasks) (detect_time now : datetime) (task_id : string) (auto_detect : bool)
  (outcome : GeminiOutcome) (task : Task) :
  tasks !! task_id = Some task ->
  exists task',
    start_processing_task tasks detect_time now task_id auto_detect outcome
      = Some (<[task_id := task']> tasks) /\
    status task' = PROCESSING /\
    started_at task' = Some (default now (started_at task)) /\
    subtitle_regions task' =
      (match auto_detect, outcome with
       | true, Analysed a =>
           if sa_has_subtitles a
           then Some (map (fun r => [JInt (sr_x r); JInt (sr_y r);
                                     JInt (sr_x r + sr_width r);
                                     JInt (sr_y r + sr_height r)])
                          (sa_regions a))
           else subtitle_regions task
       | _, _ => subtitle_regions task
       end) /\
    (error_message task', completed_at task') =
      (match auto_detect, outcome with
       | true, NoAnalysis => (Some "字幕检测失败", Some detect_time)
       | true, ClientRaised message => (Some message, Some detect_time)
       | _, _ => (error_message task, completed_at task)
       end).
Proof.
  intros E. unfold start_processing_task, get_task. rewrite E.
  assert (P : forall (m : Tasks) t,
             fst (update_task_status (<[task_id := t]> m) now task_id PROCESSING
                                     None None None None)
             = <[task_id := apply_status_update now PROCESSING None None None None t]> m).
  { intros m t.
    rewrite (TaskFacts.update_task_status_found _ _ _ _ _ _ _ _ t (lookup_insert_eq _ _ _)).
    cbn [fst]. apply insert_insert_eq. }
  assert (S : forall t, started_at (apply_status_update now PROCESSING None None None None t)
                        = Some (default now (started_at t))).
  { intros t. rewrite TaskFacts.apply_status_update_started_at.
    now destruct (started_at t). }
  assert (F : forall t,
             (error_message (apply_status_update now PROCESSING None None None None t),
              completed_at (apply_status_update now PROCESSING None None None None t))
             = (error_message t, completed_at t)).
  { intros t. unfold apply_status_update, stamp. cbn [assign_if_given].
    change (bool_decide (PROCESSING = COMPLETED) || bool_decide (PROCESSING = FAILED))
      with false.
    destruct (_ && _); reflexivity. }
  destruct auto_detect.
  - rewrite (update_status_only _ _ _ DETECTING task E) by discriminate.
    destruct (detect_subtitles (<[task_id := set_status DETECTING task]> tasks)
                detect_time task_id outcome) as [tasks1 result] eqn:D.
    pose proof (detect_subtitles_found _ detect_time task_id outcome _
                  (lookup_insert_eq tasks task_id (set_status DETECTING task))) as D1.
    pose proof (detect_subtitles_result _ detect_time task_id outcome _
                  (lookup_insert_eq tasks task_id (set_status DETECTING task))) as D2.
    rewrite D in D1, D2. cbn [fst snd] in D1, D2. rewrite insert_insert_eq in D1.
    subst tasks1 result.
    destruct outcome as [a| |message]; cbn [has_subtitles failure_result regions].
    + destruct (sa_has_subtitles a) eqn:HS.
      * unfold update_subtitle_regions. rewrite lookup_insert_eq. cbn [fst].
        rewrite insert_insert_eq, P.
        eexists. split; [reflexivity|].
        split; [apply TaskFacts.apply_status_update_status|].
        split; [rewrite S; now destruct task|].
        split; [|rewrite F; now destruct task].
        rewrite status_update_keeps_regions. cbn [subtitle_regions set_subtitle_regions].
        now rewrite map_map.
      * rewrite P. eexists. split; [reflexivity|].
        split; [apply TaskFacts.apply_status_update_status|].
        split; [rewrite S; now destruct task|].
        split; [|rewrite F; now destruct task].
        rewrite status_update_keeps_regions. now destruct task.
    + rewrite P. eexists. split; [reflexivity|].
      split; [apply TaskFacts.apply_status_update_status|].
      split; [rewrite S; now destruct task|].
      split; [|rewrite F; now destruct task].
      rewrite status_update_keeps_regions. now destruct task.
    + rewrite P. eexists. split; [reflexivity|].
      split; [apply TaskFacts.apply_status_update_status|].
      split; [rewrite S; now destruct task|].
      split; [|rewrite F; now destruct task].
      rewrite status_update_keeps_regions. now destruct task.
  - rewrite (TaskFacts.update_task_status_found _ _ _ _ _ _ _ _ _ E). cbn [fst].
    eexists. split; [reflexivity|].
    split; [apply TaskFacts.apply_status_update_status|].
    split; [apply S|].
    split; [apply status_update_keeps_regions|].
    rewrite F. now destruct outcome.
Qed.

Lemma start_processing_reaches_processing_witness :
  let task := TaskAux.fresh_task "t1" in
  let tasks : Tasks := {[ "t1" := task ]} in
  tasks !! "t1" = Some task /\
  exists task',
    start_processing_task tasks 3 5 "t1" true NoAnalysis
      = Some (<["t1" := task']> tasks) /\
    status task' = PROCESSING /\
    started_at task' = Some 5 /\
    subtitle_regions task' = subtitle_regions task /\
    (error_message task', completed_at task') = (Some "字幕检测失败", Some 3).
Proof.
  intros task tasks.
  assert (E : tasks !! "t1" = Some task) by apply lookup_singleton_eq.
  split; [exact E|].
  exact (start_processing_reaches_processing tasks 3 5 "t1" true NoAnalysis task E).
Defined.

(** The boxes that a detection stores on a task reach the remover as
    areas: for detected regions of non-negative width and height (at least
    one region), the regions are stored as [[x, y, x + width, y + height]]
    and [_process_video_sync] hands to the remover, for each of them and in
    order, the area [(y, y + height, x, x + width)]; none is skipped. *)
Theorem detected_regions_reach_the_remover (regions : list DetectedRegion)
  (Hne : regions <> [])
  (Hsize : Forall (fun r => 0 <= dr_width r /\ 0 <= dr_height r) regions) :
  prepare_sub_area (Some (map flat_of_detected regions)) =
  Some (Some (map (fun r => (dr_y r, dr_y r + dr_height r, dr_x r, dr_x r + dr_width r))
                  regions)).
Proof.
  assert (A : forall all_areas,
              Py.for_each sub_area_step (map flat_of_detected regions) all_areas =
              Some (all_areas ++
                    map (fun r => (dr_y r, dr_y r + dr_height r, dr_x r, dr_x r + dr_width r))
                        regions)).
  { clear Hne. induction Hsize as [|r rs [Hw Hh] _ IH]; intros acc.
    - simpl. now rewrite app_nil_r.
    - cbn [map Py.for_each]. rewrite sub_area_step_eq.
      change (flat_of_detected r)
        with [JInt (dr_x r); JInt (dr_y r); JInt (dr_x r + dr_width r);
              JInt (dr_y r + dr_height r)].
      rewrite (area_of_region_four (JInt _) (JInt _) (JInt _) (JInt _) _ _ _ _
                 eq_refl eq_refl eq_refl eq_refl).
      cbn [mbind option_bind]. rewrite IH, <- app_assoc.
      rewrite !Z.min_l, !Z.max_r by lia. reflexivity. }
  destruct regions as [|r rs]; [contradiction|].
  unfold prepare_sub_area. cbn [map]. cbn [map] in A. rewrite A. reflexivity.
Qed.

Lemma detected_regions_reach_the_remover_witness :
  let regions := [mkDetectedRegion 100 800 880 150 (9 # 10) "a"] in
  (regions <> [] /\ Forall (fun r => 0 <= dr_width r /\ 0 <= dr_height r) regions) /\
  prepare_sub_area (Some (map flat_of_detected regions))
  = Some (Some [(800, 950, 100, 980)]).
Proof.
  intros regions.
  assert (Hne : regions <> []) by discriminate.
  assert (Hsize : Forall (fun r => 0 <= dr_width r /\ 0 <= dr_height r) regions).
  { repeat constructor; simpl; lia. }
  split; [split; assumption|].
  exact (detected_regions_reach_the_remover regions Hne Hsize).
Defined.

End VideoFacts.

(** ** The frame map of the timed remover ([find_subtitle_frame_no]) *)

Module FrameMapFacts.

Import TimedSubtitle TimedSubtitleQueries TimedRemover.

Lemma frame_add_lookup box d frame_no f :
  frame_add box d frame_no !! f =
  if bool_decide (f = frame_no) then Some (default [] (d !! f) ++ [box]) else d !! f.
Proof.
  unfold frame_add. case_bool_decide as E.
  - subst. apply lookup_insert_eq.
  - apply lookup_insert_ne. congruence.
Qed.

(** The inner loop over [range(start, start + n)]. *)
Lemma fold_frame_add_seqZ box (n : nat) : forall d m f,
  fold_left (frame_add box) (seqZ m (Z.of_nat n)) d !! f =
  if bool_decide (m <= f < m + Z.of_nat n)
  then Some (default [] (d !! f) ++ [box]) else d !! f.
Proof.
  induction n as [|n IH]; intros d m f.
  - rewrite seqZ_nil by lia. simpl. rewrite bool_decide_eq_false_2 by lia. reflexivity.
  - rewrite seqZ_S, fold_left_app. cbn [fold_left].
    rewrite frame_add_lookup, IH.
    case_bool_decide as E1.
    + subst f. rewrite bool_decide_eq_false_2 by lia.
      rewrite bool_decide_eq_true_2 by lia. reflexivity.
    + destruct (decide (m <= f < m + Z.of_nat n)) as [I|I].
      * rewrite !bool_decide_eq_true_2 by lia. reflexivity.
      * rewrite !bool_decide_eq_false_2 by lia. reflexivity.
Qed.

Lemma fold_frame_add_range box d start stop f :
  fold_left (frame_add box) (py_range start stop) d !! f =
  if bool_decide (start <= f < stop)
  then Some (default [] (d !! f) ++ [box]) else d !! f.
Proof.
  unfold py_range. destruct (decide (stop - start <= 0)) as [E|E].
  - rewrite seqZ_nil by lia. simpl. rewrite bool_decide_eq_false_2 by lia. reflexivity.
  - rewrite <- (Z2Nat.id (stop - start)) by lia.
    rewrite fold_frame_add_seqZ, Z2Nat.id by lia.
    destruct (decide (start <= f < stop)) as [I|I].
    + rewrite !bool_decide_eq_true_2 by lia. reflexivity.
    + rewrite !bool_decide_eq_false_2 by lia. reflexivity.
Qed.

(** The outer loop, from any dictionary [d]. *)
Lemma fold_regions_lookup rs : forall d f,
  fold_left
    (fun d timed_region =>
       let bbox := get_bbox timed_region in
       fold_left (frame_add bbox)
                 (py_range (start_frame timed_region) (end_frame timed_region + 1)) d)
    rs d !! f =
  match get_regions_for_frame rs f with
  | [] => d !! f
  | hit => Some (default [] (d !! f) ++ map get_bbox hit)
  end.
Proof.
  unfold get_regions_for_frame.
  induction rs as [|r rs IH]; intros d f; [reflexivity|].
  cbn [fold_left]. rewrite IH, filter_cons, fold_frame_add_range.
  unfold contains_frame.
  destruct (decide (start_frame r <= f < end_frame r + 1)) as [I|I].
  - rewrite bool_decide_eq_true_2 by lia.
    rewrite decide_True
      by (apply andb_true_iff; split; apply Z.leb_le; lia).
    destruct (filter _ rs); cbn [default map]; [reflexivity|].
    unfold id. rewrite <- app_assoc. reflexivity.
  - rewrite bool_decide_eq_false_2 by lia.
    rewrite decide_False; [reflexivity|].
    rewrite andb_true_iff, !Z.leb_le. lia.
Qed.

Lemma frame_map_lookup timed_regions frame_no :
  find_subtitle_frame_no timed_regions !! frame_no =
  match get_regions_for_frame timed_regions frame_no with
  | [] => None
  | hit => Some (map get_bbox hit)
  end.
Proof.
  unfold find_subtitle_frame_no. rewrite fold_regions_lookup.
  rewrite lookup_empty. reflexivity.
Qed.

(** For every frame number, the dictionary built by
    [find_subtitle_frame_no] has the frame as a key exactly when some region
    contains the frame ([contains_frame]), and the list stored there is the
    list of the boxes ([get_bbox]) of the regions that
    [get_regions_for_frame] returns for this frame, in the order of
    [timed_regions]; no key holds an empty list, and a region whose
    [end_frame] is below its [start_frame] adds nothing. *)
Theorem frame_map_is_regions_for_frame
  (timed_regions : list TimedSubtitleRegion) (frame_no : Z) :
  find_subtitle_frame_no timed_regions !! frame_no =
  match get_regions_for_frame timed_regions frame_no with
  | [] => None
  | hit => Some (map get_bbox hit)
  end.
Proof.
  apply frame_map_lookup.
Qed.

(** [get_unique_regions] returns exactly the boxes of the regions, each
    once; every box that the frame map of [find_subtitle_frame_no] stores for
    a frame is one of them. *)
Theorem unique_regions_are_the_boxes (timed_regions : list TimedSubtitleRegion) :
  (forall box, box ∈ get_unique_regions timed_regions <->
               exists region, region ∈ timed_regions /\ get_bbox region = box) /\
  (forall frame_no boxes box,
      find_subtitle_frame_no timed_regions !! frame_no = Some boxes ->
      box ∈ boxes -> box ∈ get_unique_regions timed_regions).
Proof.
  assert (U : forall rs (acc : gset Box) box,
             box ∈ fold_left (fun u r => u ∪ {[ get_bbox r ]}) rs acc <->
             box ∈ acc \/ exists region, region ∈ rs /\ get_bbox region = box).
  { induction rs as [|r rs IH]; intros acc box; cbn [fold_left].
    - split; [now left|]. intros [H|(r & H & _)]; [exact H|]. inversion H.
    - rewrite IH, elem_of_union, elem_of_singleton. split.
      + intros [[H|H]|(r' & H1 & H2)].
        * now left.
        * right. exists r. split; [left|congruence].
        * right. exists r'. split; [now right|exact H2].
      + intros [H|(r' & H1 & H2)]; [now left; left|].
        apply elem_of_cons in H1 as [->|H1].
        * left; right. congruence.
        * right. exists r'. split; assumption. }
  assert (E : forall box, box ∈ get_unique_regions timed_regions <->
               exists region, region ∈ timed_regions /\ get_bbox region = box).
  { intros box. unfold get_unique_regions. rewrite U. split.
    - intros [H|H]; [|exact H]. now apply elem_of_empty in H.
    - intros H. now right. }
  split; [exact E|].
  intros frame_no boxes box L B. apply E.
  unfold find_subtitle_frame_no in L. rewrite fold_regions_lookup, lookup_empty in L.
  destruct (get_regions_for_frame timed_regions frame_no) as [|h t] eqn:G; [discriminate|].
  injection L as <-.
  change (box ∈ get_bbox <$> (h :: t)) in B.
  apply list_elem_of_fmap in B as (region & -> & B).
  exists region. split; [|reflexivity].
  rewrite <- G in B. unfold get_regions_for_frame in B.
  apply list_elem_of_filter in B. apply B.
Qed.

End FrameMapFacts.

(** ** The frame ranges of the merged regions *)

Module MergeRangeFacts.

Import TimedSubtitle TimedSubtitleQueries TimedRemover MergeAux DetectAux CoverageAux.
Import MergeFacts.

Lemma taken_from_absorb regions l r :
  taken_from regions l -> r ∈ regions -> start_frame l <= start_frame r ->
  taken_from regions (absorb l r).
Proof.
  intros (a & b & Ha & Hb & (Hs & Hx & Hy & Hw & Hh) & He & Hab) Hr Hlr.
  exists a, r. unfold same_key. simpl. repeat split; try assumption. lia.
Qed.

Lemma taken_from_self regions r : r ∈ regions -> taken_from regions r.
Proof.
  intros Hr. exists r, r. repeat split; try assumption. lia.
Qed.

Lemma walk_taken_from thr regions rs : forall l,
  taken_from regions l -> Forall (fun r => r ∈ regions) rs -> ascending (l :: rs) ->
  Forall (taken_from regions) (walk thr l rs).
Proof.
  induction rs as [|r rs IH]; intros l Hl Hrs Ha; simpl.
  - constructor; [exact Hl|constructor].
  - inversion Hrs as [|? ? Hr Hrs']; subst.
    apply ascending_cons in Ha as [Hlr Ha].
    destruct (can_merge thr l r).
    + apply IH; [now apply taken_from_absorb|exact Hrs'|].
      apply ascending_cons. apply ascending_cons in Ha as [Hr' Ha].
      split; [|exact Ha]. destruct rs; simpl in *; lia.
    + constructor; [exact Hl|].
      apply IH; [now apply taken_from_self|exact Hrs'|exact Ha].
Qed.

Lemma merge_regions_taken_from thr regions :
  Forall (taken_from regions) (merge_regions thr regions).
Proof.
  rewrite merge_regions_walk.
  pose proof (sorted_by_start_ascending regions) as Ha.
  pose proof (sorted_by_start_perm regions) as Hp.
  destruct (sorted_by_start regions) as [|h t]; [constructor|].
  assert (Hin : forall r, r ∈ h :: t -> r ∈ regions).
  { intros r Hr. now rewrite <- Hp. }
  apply walk_taken_from; [| |exact Ha].
  - apply taken_from_self, Hin. left.
  - apply List.Forall_forall. intros r Hr. apply Hin. right.
    now apply list_elem_of_In.
Qed.

(** Every region that [merge_overlapping_regions] leaves in
    [timed_regions] has the start frame and the box of a region of the input
    list and the end frame of a region of the input list that starts no
    earlier: the pass invents no frame number and no box. *)
Theorem merged_regions_come_from_input
  (time_threshold : Z) (regions : list TimedSubtitleRegion) :
  Forall (taken_from regions) (merge_regions time_threshold regions).
Proof. apply merge_regions_taken_from. Qed.

(** When every region of the list has its frame range in the video
    (0 <= start_frame <= end_frame <= total_frames - 1) and its box in the
    frame, so has every region that [merge_overlapping_regions] leaves in the
    list. *)
Theorem merge_keeps_regions_in_video
  (self : AltDetect.Detector) (time_threshold : Z) (regions : list TimedSubtitleRegion)
  (Hok : Forall (region_ok self) regions) :
  Forall (region_ok self) (merge_regions time_threshold regions).
Proof.
  pose proof (merge_regions_taken_from time_threshold regions) as H.
  rewrite List.Forall_forall in Hok.
  eapply Forall_impl; [exact H|]. cbv beta.
  intros m (a & b & Ha & Hb & (Hs & Hx & Hy & Hw & Hh) & He & Hab).
  apply list_elem_of_In in Ha, Hb.
  destruct (Hok a Ha) as [(A1 & A2 & A3) (A4 & A5 & A6 & A7 & A8 & A9)].
  destruct (Hok b Hb) as [(B1 & B2 & B3) _].
  unfold region_ok, frames_ok, box_within.
  rewrite Hs, Hx, Hy, Hw, Hh, He. repeat split; lia.
Qed.

Lemma merge_keeps_regions_in_video_witness :
  let self := AltDetect.mkDetector 1920 1080 25 1000 in
  let regions := [mkRegion 5 10 100 900 800 100 (9 # 10) "b";
                  mkRegion 0 100 100 900 800 100 (7 # 10) "a"] in
  Forall (region_ok self) regions /\
  Forall (region_ok self) (merge_regions 10 regions).
Proof.
  intros self regions.
  assert (H : Forall (region_ok self) regions).
  { repeat constructor; simpl; lia. }
  split; [exact H|].
  exact (merge_keeps_regions_in_video self 10 regions H).
Defined.

(** A merged region ends where the absorbed region ends, not at the
    later of the two ends.  So when a region [b] that starts inside an
    earlier region [a] and ends before it is merged into [a], every frame of
    [a] after the end of [b] had a box in the frame map of
    [find_subtitle_frame_no] before the merge and has none after it. *)
Theorem merge_uncovers_frames
  (time_threshold : Z) (a b : TimedSubtitleRegion) (frame_no : Z)
  (Horder : start_frame a <= start_frame b)
  (Hmerge : can_merge time_threshold a b = true)
  (Hin_a : start_frame a <= frame_no <= end_frame a)
  (Hafter_b : end_frame b < frame_no) :
  merge_regions time_threshold [a; b] = [absorb a b] /\
  find_subtitle_frame_no [a; b] !! frame_no = Some [get_bbox a] /\
  find_subtitle_frame_no (merge_regions time_threshold [a; b]) !! frame_no = None.
Proof.
  assert (E : merge_regions time_threshold [a; b] = [absorb a b]).
  { rewrite merge_regions_walk. simpl.
    destruct (Z.leb_spec (start_frame a) (start_frame b)) as [_|C]; [|lia].
    simpl. now rewrite Hmerge. }
  split; [exact E|].
  rewrite E, !FrameMapFacts.frame_map_lookup.
  unfold get_regions_for_frame. rewrite !filter_cons, !filter_nil.
  unfold contains_frame. simpl start_frame. simpl end_frame.
  rewrite decide_True by (apply andb_true_iff; split; apply Z.leb_le; lia).
  rewrite !decide_False by (rewrite andb_true_iff, !Z.leb_le; lia).
  split; reflexivity.
Qed.

Lemma merge_uncovers_frames_witness :
  let a := mkRegion 0 100 100 900 800 100 (9 # 10) "a" in
  let b := mkRegion 5 10 100 900 800 100 (7 # 10) "b" in
  find_subtitle_frame_no [a; b] !! 50 = Some [get_bbox a] /\
  find_subtitle_frame_no (merge_regions 10 [a; b]) !! 50 = None.
Proof.
  intros a b.
  refine (proj2 (merge_uncovers_frames 10 a b 50 _ _ _ _)).
  - simpl; lia.
  - reflexivity.
  - simpl; lia.
  - simpl; lia.
Defined.

End MergeRangeFacts.

(** ** Frame sampling of the detection methods and of the Gemini clients *)

Module SamplingFacts.

Import AltDetect AltMethods TimedRemover GeminiSampling SamplingAux.

Lemma interval_cases total n (Hn : n <> 0) :
  let I := Z.max 1 (total / n) in
  1 <= I /\
  ((I = 1 /\ total / n <= 1) \/
   (2 <= I /\ I = total / n /\
    ((1 <= n /\ n * I <= total /\ total < n * I + n) \/
     (n <= -1 /\ total <= n * I /\ total <= - I)))).
Proof.
  intros I. subst I.
  destruct (Z_le_gt_dec (total / n) 1) as [H|H].
  - split; [lia|]. left. lia.
  - split; [lia|]. right. split; [lia|]. split; [lia|].
    rewrite Z.max_r by lia.
    destruct (Z_lt_le_dec 0 n) as [P|P].
    + left. pose proof (Z.mul_div_le total n P).
      pose proof (Z.mul_succ_div_gt total n P). lia.
    + right. assert (N : n < 0) by lia.
      pose proof (Z.mul_div_ge total n N).
      split; [lia|]. split; [lia|]. nia.
Qed.

Lemma alt_len total n (Hn : n <> 0) :
  let I := Z.max 1 (total / n) in
  let a := (Z.min (n * I) total - 0 + I - 1) / I in
  a = Z.min n total \/ (a <= 0 /\ Z.min n total <= 0).
Proof.
  intros I a.
  destruct (interval_cases total n Hn) as [H1 [[E Q]|(H2 & E & [C|C])]];
    fold I in H1, E |- *.
  - subst a. rewrite E in *. rewrite Z.div_1_r. left. lia.
  - left. subst a. rewrite Z.min_l by lia.
    replace (n * I - 0 + I - 1) with (n * I + (I - 1)) by lia.
    rewrite Z.div_add_l by lia. rewrite Z.div_small by lia. nia.
  - right. split; [|lia]. subst a. rewrite Z.min_r by lia.
    assert ((total - 0 + I - 1) / I < 0); [|lia].
    apply Z.div_lt_upper_bound; lia.
Qed.

Lemma timed_len total n (Hn : n <> 0) :
  let I := Z.max 1 (total / n) in
  let a := Z.min n (total / I) in
  a = Z.min n total \/ (a <= 0 /\ Z.min n total <= 0).
Proof.
  intros I a.
  destruct (interval_cases total n Hn) as [H1 [[E Q]|(H2 & E & [C|C])]];
    fold I in H1, E |- *.
  - subst a. rewrite E in *. rewrite Z.div_1_r. left. lia.
  - left. subst a.
    assert (n <= total / I) by (apply Z.div_le_lower_bound; lia). nia.
  - right. lia.
Qed.

Lemma seqZ_same_or_empty a b :
  a = b \/ (a <= 0 /\ b <= 0) -> seqZ 0 a = seqZ 0 b.
Proof.
  intros [->|[Ha Hb]]; [reflexivity|]. now rewrite !seqZ_nil.
Qed.

Lemma evenly_spaced_in_video total n (Hn : n <> 0) :
  Forall (fun f => 0 <= f < total)
         (evenly_spaced (Z.max 1 (total / n)) (Z.min n total)).
Proof.
  unfold evenly_spaced. apply List.Forall_map, Forall_seqZ. intros i Hi.
  destruct (interval_cases total n Hn) as [H1 [[E Q]|(H2 & E & [C|C])]];
    cbv zeta in *.
  - rewrite E. lia.
  - nia.
  - lia.
Qed.

Lemma floordiv_nonzero a b : b <> 0 -> Py.floordiv a b = Some (a / b).
Proof.
  intros Hb. unfold Py.floordiv.
  destruct (Z.eqb_spec b 0); [contradiction|reflexivity].
Qed.

Lemma sampled_frame_numbers_closed self n :
  n <> 0 ->
  sampled_frame_numbers self n =
  Some (evenly_spaced (Z.max 1 (self_total_frames self / n))
                      (Z.min n (self_total_frames self))).
Proof.
  intros Hn. unfold sampled_frame_numbers, frame_interval.
  rewrite floordiv_nonzero by exact Hn. cbn [mbind option_bind].
  set (total := self_total_frames self). set (I := Z.max 1 (total / n)).
  assert (HI : 1 <= I) by (subst I; lia).
  unfold py_range_step.
  destruct (Z.eqb_spec I 0); [lia|].
  destruct (Z.ltb_spec 0 I); [|lia].
  unfold evenly_spaced. f_equal. subst I.
  rewrite (seqZ_same_or_empty _ _ (alt_len total n Hn)).
  apply map_ext. intros i. lia.
Qed.

Lemma timed_frame_indices_closed total n :
  n <> 0 ->
  timed_frame_indices total n =
  Some (evenly_spaced (Z.max 1 (total / n)) (Z.min n total)).
Proof.
  intros Hn. unfold timed_frame_indices.
  rewrite floordiv_nonzero by exact Hn. cbn [mbind option_bind].
  rewrite floordiv_nonzero by lia. cbn [mbind option_bind].
  unfold evenly_spaced, py_range. f_equal. rewrite Z.sub_0_r.
  now rewrite (seqZ_same_or_empty _ _ (timed_len total n Hn)).
Qed.

(** The sampling loop of the detection methods 1, 2 and 5 and the frame
    list of the timed Gemini client are written differently and visit the
    same frames: with [interval = max(1, total_frames // sample_frames)], the
    frames 0, interval, 2 * interval, ..., [min(sample_frames, total_frames)]
    of them; every one of them is a frame of the video
    ([0 <= frame < total_frames]).  With [sample_frames = 0] the division
    raises [ZeroDivisionError] in both (the client catches it and extracts
    no frame). *)
Theorem samplers_visit_frames_of_the_video (self : Detector) (sample_frames : Z) :
  let total_frames := self_total_frames self in
  let frames := evenly_spaced (Z.max 1 (total_frames / sample_frames))
                              (Z.min sample_frames total_frames) in
  (sample_frames = 0 ->
     sampled_frame_numbers self sample_frames = None /\
     timed_frame_indices total_frames sample_frames = None) /\
  (sample_frames <> 0 ->
     sampled_frame_numbers self sample_frames = Some frames /\
     timed_frame_indices total_frames sample_frames = Some frames /\
     length frames = Z.to_nat (Z.min sample_frames total_frames) /\
     Forall (fun frame_no => 0 <= frame_no < total_frames) frames).
Proof.
  intros total_frames frames. split.
  - intros ->. split; reflexivity.
  - intros Hn. split; [now apply sampled_frame_numbers_closed|].
    split; [now apply timed_frame_indices_closed|].
    split; [|now apply evenly_spaced_in_video].
    unfold frames, evenly_spaced. now rewrite length_map, length_seqZ.
Qed.

Lemma filter_all {A} (P : A -> Prop) `{!forall a, Decision (P a)} (l : list A) :
  Forall P l -> filter P l = l.
Proof.
  induction 1 as [|a l Ha _ IH]; [reflexivity|].
  rewrite filter_cons, decide_True by exact Ha. now rewrite IH.
Qed.

Lemma filter_seqZ_below total (n : nat) :
  filter (fun f => f < total) (seqZ 0 (Z.of_nat n)) = seqZ 0 (Z.min (Z.of_nat n) total).
Proof.
  induction n as [|n IH]; [now rewrite !seqZ_nil by lia|].
  rewrite seqZ_S, filter_app, IH, filter_cons, filter_nil.
  destruct (Z_lt_le_dec (Z.of_nat n) total) as [L|L].
  - rewrite decide_True by lia.
    rewrite Z.min_l by lia. rewrite (Z.min_l (Z.of_nat (S n))) by lia.
    now rewrite seqZ_S.
  - rewrite decide_False by lia. rewrite app_nil_r. f_equal. lia.
Qed.

(** The static Gemini client asks for [sample_frames] frame indices
    whatever the length of the video.  Those of them that lie in the video
    are exactly the indices that the timed client asks for, and for a video
    with fewer frames than [sample_frames] the others are requests past the
    last frame: all indices are below [total_frames] exactly when
    [sample_frames <= total_frames]. *)
Theorem static_client_indices (total_frames sample_frames : Z)
  (Hn : 1 <= sample_frames) (Htotal : 0 <= total_frames) :
  exists indices,
    frame_indices total_frames sample_frames = Some indices /\
    length indices = Z.to_nat sample_frames /\
    Some (filter (fun frame_no => frame_no < total_frames) indices) =
      timed_frame_indices total_frames sample_frames /\
    (Forall (fun frame_no => frame_no < total_frames) indices <->
     sample_frames <= total_frames).
Proof.
  assert (N : sample_frames <> 0) by lia.
  unfold frame_indices. rewrite floordiv_nonzero by exact N.
  cbn [mbind option_bind]. eexists. split; [reflexivity|].
  unfold py_range. rewrite Z.sub_0_r.
  split; [now rewrite length_map, length_seqZ|].
  rewrite timed_frame_indices_closed by exact N. unfold evenly_spaced.
  destruct (interval_cases total_frames sample_frames N)
    as [H1 [[E Q]|(H2 & E & [C|C])]]; cbv zeta in *; [| |lia].
  - rewrite E.
    assert (M : forall l, map (fun i => i * 1) l = l).
    { intros l. rewrite <- (map_id l) at 2. apply map_ext. intros; lia. }
    rewrite !M. rewrite <- (Z2Nat.id sample_frames) by lia.
    split; [now rewrite filter_seqZ_below|].
    rewrite Forall_seqZ. split.
    + intros H. destruct (Z_le_gt_dec (Z.of_nat (Z.to_nat sample_frames)) total_frames) as [L|L];
        [exact L|].
      specialize (H total_frames). lia.
    + intros H i Hi. lia.
  - assert (A : Forall (fun frame_no => frame_no < total_frames)
                  (map (fun i => i * Z.max 1 (total_frames / sample_frames))
                       (seqZ 0 sample_frames))).
    { apply List.Forall_map, Forall_seqZ. intros i Hi. nia. }
    assert (L : sample_frames <= total_frames) by nia.
    split; [|tauto].
    rewrite filter_all by exact A. now rewrite Z.min_l by lia.
Qed.

Lemma static_client_indices_witness :
  exists indices,
    frame_indices 10 30 = Some indices /\
    length indices = Z.to_nat 30 /\
    Some (filter (fun frame_no => frame_no < 10) indices) = timed_frame_indices 10 30 /\
    (Forall (fun frame_no => frame_no < 10) indices <-> 30 <= 10).
Proof.
  apply (static_client_indices 10 30); lia.
Defined.

End SamplingFacts.

(** ** The detection methods ([method2_edge_detection],
    [method5_motion_analysis], [_create_default_analysis]) *)

Module MethodFacts.

Import TimedSubtitle AltDetect AltMethods DetectAux SamplingAux MethodAux.
Import SamplingFacts.

Lemma changes_in_order_snoc cs c :
  changes_in_order cs ->
  Forall (fun c' => Change.frame_no c' <= Change.frame_no c) cs ->
  changes_in_order (cs ++ [c]).
Proof.
  induction cs as [|a cs IH]; intros Ho Hb; [exact I|].
  inversion Hb as [|? ? Ha Hb']; subst.
  destruct cs as [|b cs]; [simpl; split; [exact Ha|exact I]|].
  destruct Ho as [Hab Ho]. split; [exact Hab|]. now apply IH.
Qed.

Lemma evenly_spaced_sorted interval (k : nat) : forall m,
  1 <= interval ->
  StronglySorted Z.le (map (fun i => i * interval) (seqZ m (Z.of_nat k))).
Proof.
  induction k as [|k IH]; intros m HI.
  - rewrite seqZ_nil by lia. constructor.
  - rewrite seqZ_cons by lia. simpl map. constructor.
    + replace (Z.pred (Z.of_nat (S k))) with (Z.of_nat k) by lia. now apply IH.
    + apply List.Forall_map, Forall_seqZ. intros i Hi. nia.
Qed.

Lemma fold_qmin_spec t : forall h (P : Q -> Prop),
  P h -> Forall P t ->
  P (fold_left Qmin t h) /\ (fold_left Qmin t h <= h)%Q.
Proof.
  induction t as [|a t IH]; intros h P Ph Pt; simpl.
  - split; [exact Ph|apply Qle_refl].
  - inversion Pt as [|? ? Pa Pt']; subst.
    assert (Pm : P (Qmin h a)).
    { unfold Qmin, GenericMinMax.gmin. now destruct (h ?= a)%Q. }
    destruct (IH (Qmin h a) P Pm Pt') as [A B]. split; [exact A|].
    eapply Qle_trans; [exact B|apply Q.le_min_l].
Qed.

Lemma fold_qmax_spec t : forall h (P : Q -> Prop),
  P h -> Forall P t ->
  P (fold_left Qmax t h) /\ (h <= fold_left Qmax t h)%Q.
Proof.
  induction t as [|a t IH]; intros h P Ph Pt; simpl.
  - split; [exact Ph|apply Qle_refl].
  - inversion Pt as [|? ? Pa Pt']; subst.
    assert (Pm : P (Qmax h a)).
    { unfold Qmax, GenericMinMax.gmax. now destruct (h ?= a)%Q. }
    destruct (IH (Qmax h a) P Pm Pt') as [A B]. split; [exact A|].
    eapply Qle_trans; [apply Q.le_max_l|exact B].
Qed.

(** The least and the greatest of a list of floats that is not empty lie
    where all the floats lie, the least at or below the greatest. *)
Lemma float_min_max (P : Q -> Prop) (l : list Q) :
  l <> [] -> Forall P l ->
  exists lo hi,
    Py.float_min l = Some lo /\ Py.float_max l = Some hi /\
    P lo /\ P hi /\ (lo <= hi)%Q.
Proof.
  destruct l as [|h t]; [congruence|]. intros _ F.
  inversion F as [|? ? Ph Pt]; subst.
  destruct (fold_qmin_spec t h P Ph Pt) as [A B].
  destruct (fold_qmax_spec t h P Ph Pt) as [C D].
  eexists _, _. split; [reflexivity|]. split; [reflexivity|].
  split; [exact A|]. split; [exact C|]. now apply Qle_trans with h.
Qed.

(** [int] of floats between 0 and an int. *)
Lemma py_int_between (lo hi : Q) (n : Z) :
  (0 <= lo)%Q -> (lo <= hi)%Q -> (hi <= inject_Z n)%Q ->
  0 <= Py.py_int lo /\ Py.py_int lo <= Py.py_int hi /\ Py.py_int hi <= n.
Proof.
  intros H0 H1 H2.
  assert (H3 : (0 <= hi)%Q) by now apply Qle_trans with lo.
  unfold Py.py_int.
  apply Qle_bool_iff in H0 as B0. apply Qle_bool_iff in H3 as B3. rewrite B0, B3.
  split; [|split].
  - change 0 with (Qfloor 0). now apply Qfloor_resp_le.
  - now apply Qfloor_resp_le.
  - rewrite <- (Qfloor_Z n). now apply Qfloor_resp_le.
Qed.

Section Video.

Context {Frame Gray : Type}.
Variable read : Z -> option Frame.
Variable ocr_detections : Frame -> list Detection.
Variable bottom_gray : Detector -> Frame -> Gray.
Variable change_ratio : Gray -> Gray -> Q.
Variable find_contours : Detector -> Frame -> list Contour.

(** *** Method 5 *)

Lemma method5_step_cases self interval prev cs f :
  exists prev' cs',
    method5_step read bottom_gray change_ratio self interval (prev, cs) f = (prev', cs') /\
    (cs' = cs \/ exists c, cs' = cs ++ [c] /\ Change.frame_no c = f).
Proof.
  unfold method5_step.
  destruct (read f) as [frame|]; [|eauto].
  destruct prev as [prev|]; [|eauto].
  destruct (negb (Qle_bool (change_ratio prev (bottom_gray self frame)) (1 # 10)));
    eauto 8.
Qed.

Lemma method5_loop_ok self interval frames : forall prev cs,
  Forall (fun f => 0 <= f <= self_total_frames self - 1) frames ->
  StronglySorted Z.le frames ->
  Forall (change_in_video self) cs ->
  changes_in_order cs ->
  Forall (fun c => Forall (Z.le (Change.frame_no c)) frames) cs ->
  Forall (change_in_video self)
    (snd (fold_left (method5_step read bottom_gray change_ratio self interval)
                    frames (prev, cs))) /\
  changes_in_order
    (snd (fold_left (method5_step read bottom_gray change_ratio self interval)
                    frames (prev, cs))).
Proof.
  induction frames as [|f frames IH]; intros prev cs Hf Hs Hv Ho Hb; [split; assumption|].
  inversion Hf as [|? ? Hf0 Hf']; subst.
  inversion Hs as [|? ? Hs' Hle]; subst.
  assert (Hb' : Forall (fun c => Forall (Z.le (Change.frame_no c)) frames) cs).
  { eapply Forall_impl; [exact Hb|]. intros c Hc. now inversion Hc. }
  cbn [fold_left].
  destruct (method5_step_cases self interval prev cs f)
    as (prev' & cs' & -> & [->|(c & -> & Ec)]); [now apply IH|].
  apply IH; try assumption.
  - apply Forall_app. split; [exact Hv|].
    constructor; [|constructor]. unfold change_in_video. rewrite Ec. lia.
  - apply changes_in_order_snoc; [exact Ho|].
    eapply Forall_impl; [exact Hb|]. intros c' Hc. inversion Hc. subst. lia.
  - apply Forall_app. split; [exact Hb'|].
    constructor; [|constructor]. rewrite Ec. exact Hle.
Qed.

Lemma frames_in_video_le total n :
  n <> 0 ->
  Forall (fun f => 0 <= f <= total - 1)
         (evenly_spaced (Z.max 1 (total / n)) (Z.min n total)).
Proof.
  intros Hn. eapply Forall_impl; [apply (evenly_spaced_in_video total n Hn)|].
  intros f Hf. simpl in Hf. lia.
Qed.

Lemma evenly_spaced_strongly_sorted interval count :
  1 <= interval -> StronglySorted Z.le (evenly_spaced interval count).
Proof.
  intros HI. unfold evenly_spaced.
  destruct (Z_le_gt_dec count 0) as [C|C].
  - rewrite seqZ_nil by lia. constructor.
  - rewrite <- (Z2Nat.id count) by lia. now apply evenly_spaced_sorted.
Qed.

Lemma method5_changes_ok self sample_frames :
  sample_frames <> 0 ->
  exists changes,
    method5_changes read bottom_gray change_ratio self sample_frames = Some changes /\
    Forall (change_in_video self) changes /\ changes_in_order changes.
Proof.
  intros Hn.
  pose proof (sampled_frame_numbers_closed self sample_frames Hn) as E.
  unfold sampled_frame_numbers in E. unfold method5_changes.
  unfold frame_interval in *. rewrite floordiv_nonzero in * by exact Hn.
  cbn [mbind option_bind] in *. rewrite E. cbn [mbind option_bind].
  eexists. split; [reflexivity|].
  apply method5_loop_ok.
  - now apply frames_in_video_le.
  - apply evenly_spaced_strongly_sorted. lia.
  - constructor.
  - exact I.
  - constructor.
Qed.

(** Method 5 on any video: with [sample_frames] not 0 and frame
    dimensions that are not negative, whatever the frames hold and whichever
    reads fail, the method returns an analysis of at most one region, and
    that region has its frame range in the video
    ([0 <= start_frame <= end_frame <= total_frames - 1]) and its box in the
    frame.  With [sample_frames = 0] the method raises
    ([ZeroDivisionError]). *)
Theorem method5_regions_in_video (self : Detector) (sample_frames : Z)
  (HW : 0 <= self_width self) (HH : 0 <= self_height self) :
  (sample_frames = 0 ->
     method5_motion_analysis read bottom_gray change_ratio self sample_frames = None) /\
  (sample_frames <> 0 ->
     exists analysis,
       method5_motion_analysis read bottom_gray change_ratio self sample_frames
         = Some analysis /\
       (length (timed_regions analysis) <= 1)%nat /\
       Forall (region_ok self) (timed_regions analysis)).
Proof.
  split.
  - intros ->. reflexivity.
  - intros Hn.
    destruct (method5_changes_ok self sample_frames Hn) as (changes & E & Hv & Ho).
    unfold method5_motion_analysis. rewrite E. cbn [mbind option_bind].
    eexists. split; [reflexivity|].
    split; [apply DetectFacts.motion_never_splits|].
    now apply DetectFacts._analyze_motion_results_ok.
Qed.

(** *** Method 2 *)

Lemma float_of_int_Some (n : Z) :
  0 <= n < 2 ^ 1000 ->
  exists value, Py.float_of_int n = Some value /\
                (0 <= value)%Q /\ (value <= 2 * inject_Z n)%Q.
Proof.
  intros [H0 H1]. unfold Py.float_of_int.
  destruct (FloatFacts.round_finite (inject_Z n)) as (value & -> & V).
  - rewrite Zle_Qle in H0. exact H0.
  - rewrite <- Zlt_Qlt. apply Z.lt_trans with (2 ^ 1000); [exact H1|reflexivity].
  - now exists value.
Qed.

Lemma scaled_finite (n : Z) (c : Q) :
  0 <= n < 2 ^ 1000 -> (0 <= c)%Q -> (c <= 1)%Q ->
  exists value product,
    Py.float_of_int n = Some value /\
    Py.float_mul value c = Py.FFinite product /\ (0 <= product)%Q.
Proof.
  intros Hn C0 C1.
  destruct (float_of_int_Some n Hn) as (value & E & V0 & V1).
  assert (B : (inject_Z n < inject_Z (2 ^ 1000))%Q) by (rewrite <- Zlt_Qlt; lia).
  destruct (FloatFacts.round_finite (value * c)) as (product & Ep & P0 & _).
  - now apply Qmult_le_0_compat.
  - apply Qle_lt_trans with (value * 1)%Q.
    + apply Qmult_le_compat_nonneg; split; lra.
    + change (inject_Z (2 ^ 1023)) with (inject_Z (2 ^ 1000) * inject_Z (2 ^ 23))%Q.
      change (inject_Z (2 ^ 23)) with 8388608%Q.
      set (b := inject_Z (2 ^ 1000)) in *. clearbody b. lra.
  - exists value, product. split; [exact E|]. split; [exact Ep|exact P0].
Qed.

Lemma literal_bounds :
  (0 <= Py.float_literal (7 # 10) <= 1)%Q /\ (0 <= Py.float_literal (3 # 10) <= 1)%Q.
Proof. repeat split; vm_compute; discriminate. Qed.

(** The row offset exists for a frame height below [2 ^ 1000] and is not
    negative. *)
Lemma bottom_offset_Some self :
  0 <= self_height self < 2 ^ 1000 ->
  exists offset, bottom_offset self = Some offset /\ 0 <= offset.
Proof.
  intros HH. destruct literal_bounds as [[C0 C1] _].
  destruct (scaled_finite (self_height self) _ HH C0 C1) as (value & product & E & Ep & P0).
  unfold bottom_offset, Py.int_of_scaled. rewrite E. cbn [mbind option_bind].
  rewrite Ep. eexists. split; [reflexivity|]. now apply NumFacts.py_int_nonneg.
Qed.

Lemma wide_enough_Some self w :
  0 <= self_width self < 2 ^ 1000 -> is_Some (wide_enough self w).
Proof.
  intros HW. destruct literal_bounds as [_ [C0 C1]].
  destruct (scaled_finite (self_width self) _ HW C0 C1) as (value & product & E & Ep & P0).
  unfold wide_enough. rewrite E. cbn [mbind option_bind]. eauto.
Qed.

Lemma truediv_Some (w h : Z) :
  0 <= w < 2 ^ 1000 -> 0 < h -> is_Some (Py.truediv w h).
Proof.
  intros [W0 W1] Hh. unfold Py.truediv.
  assert (Q0 : (0 <= inject_Z w)%Q) by (now rewrite Zle_Qle in W0).
  assert (Q1 : (inject_Z w < inject_Z (2 ^ 1000))%Q) by (now rewrite <- Zlt_Qlt).
  assert (Q2 : (1 <= inject_Z h)%Q).
  { change 1%Q with (inject_Z 1). rewrite <- Zle_Qle. lia. }
  destruct (FloatFacts.round_finite (inject_Z w / inject_Z h)) as (value & -> & _); [| |eauto].
  - apply Qle_shift_div_l; lra.
  - apply Qlt_shift_div_r; [lra|].
    change (inject_Z (2 ^ 1023)) with (inject_Z (2 ^ 1000) * inject_Z (2 ^ 23))%Q.
    change (inject_Z (2 ^ 23)) with 8388608%Q.
    set (b := inject_Z (2 ^ 1000)) in *. clearbody b. nra.
Qed.

(** One contour: the body returns, and the hit it may append lies in the
    video. *)
Lemma method2_contour_ok self i hits c :
  0 <= self_height self < 2 ^ 1000 ->
  0 <= self_width self < 2 ^ 1000 ->
  0 <= i <= self_total_frames self - 1 ->
  rect_in_bottom_region self c ->
  Forall (hit_in_video self) hits ->
  exists hits',
    method2_contour self i hits c = Some hits' /\ Forall (hit_in_video self) hits'.
Proof.
  intros HH HW Hi Hc Hh. unfold method2_contour.
  destruct (negb (Qle_bool (contourArea c) 1000)); [|eauto].
  unfold rect_in_bottom_region in Hc.
  destruct (boundingRect c) as [[[x y] w] h].
  destruct Hc as (X0 & Y0 & W0 & H0 & XW & YH).
  destruct (bottom_offset_Some self HH) as (offset & Eo & O0).
  specialize (YH offset Eo).
  rewrite Eo. cbn [mbind option_bind].
  assert (A : is_Some (if 0 <? h then Py.truediv w h else Some 0%Q)).
  { destruct (Z.ltb_spec 0 h); [|eauto]. apply truediv_Some; lia. }
  destruct A as [aspect_ratio ->]. cbn [mbind option_bind].
  assert (B : is_Some (if negb (Qle_bool aspect_ratio 3) then wide_enough self w
                       else Some false)).
  { destruct (negb _); [|eauto]. now apply wide_enough_Some. }
  destruct B as [[|] ->]; cbn [mbind option_bind]; [|eauto].
  eexists. split; [reflexivity|].
  apply Forall_app. split; [exact Hh|].
  constructor; [|constructor].
  unfold hit_in_video. simpl. lia.
Qed.

Lemma method2_contours_ok self i contours : forall hits,
  0 <= self_height self < 2 ^ 1000 ->
  0 <= self_width self < 2 ^ 1000 ->
  0 <= i <= self_total_frames self - 1 ->
  Forall (rect_in_bottom_region self) contours ->
  Forall (hit_in_video self) hits ->
  exists hits',
    Py.for_each (method2_contour self i) contours hits = Some hits' /\
    Forall (hit_in_video self) hits'.
Proof.
  induction contours as [|c contours IH]; intros hits HH HW Hi Hc Hh; [simpl; eauto|].
  inversion Hc as [|? ? Hc0 Hc']; subst.
  destruct (method2_contour_ok self i hits c HH HW Hi Hc0 Hh) as (hits1 & E1 & H1).
  cbn [Py.for_each]. rewrite E1. cbn [mbind option_bind]. now apply IH.
Qed.

Lemma method2_loop_ok self frames : forall hits,
  0 <= self_height self < 2 ^ 1000 ->
  0 <= self_width self < 2 ^ 1000 ->
  (forall frame, Forall (rect_in_bottom_region self) (find_contours self frame)) ->
  Forall (fun f => 0 <= f <= self_total_frames self - 1) frames ->
  Forall (hit_in_video self) hits ->
  exists hits',
    Py.for_each (method2_step read find_contours self) frames hits = Some hits' /\
    Forall (hit_in_video self) hits'.
Proof.
  induction frames as [|f frames IH]; intros hits HH HW Hc Hf Hh; [simpl; eauto|].
  inversion Hf as [|? ? Hf0 Hf']; subst.
  assert (S : exists hits1,
             method2_step read find_contours self hits f = Some hits1 /\
             Forall (hit_in_video self) hits1).
  { unfold method2_step. destruct (read f) as [frame|]; [|eauto].
    destruct (bottom_offset_Some self HH) as (offset & -> & _).
    cbn [mbind option_bind]. now apply method2_contours_ok. }
  destruct S as (hits1 & E1 & H1).
  cbn [Py.for_each]. rewrite E1. cbn [mbind option_bind]. now apply IH.
Qed.

(** Method 2 on any video whose contours have their bounding rectangle
    inside the analysed part of the frame, the rows from
    [int(self.height * 0.7)] on (computed in double precision: row 503 of
    720): with [fps >= 0.5], [sample_frames] not 0 and frame dimensions that
    are not negative and below [2 ^ 1000] (no float overflows), the method
    returns an analysis, every hit it collected comes from a frame of the
    video with its box inside the frame (the row offset is added back), and
    every region of the analysis has its frame range in the video and its
    box in the frame. *)
Theorem method2_regions_in_video (self : Detector) (sample_frames : Z)
  (Hfps : (1 # 2 <= self_fps self)%Q)
  (HH : 0 <= self_height self < 2 ^ 1000)
  (HW : 0 <= self_width self < 2 ^ 1000)
  (Hn : sample_frames <> 0)
  (Hrect : forall frame, Forall (rect_in_bottom_region self) (find_contours self frame)) :
  exists hits analysis,
    method2_hits read find_contours self sample_frames = Some hits /\
    Forall (hit_in_video self) hits /\
    method2_edge_detection read find_contours self sample_frames = Some analysis /\
    Forall (region_ok self) (timed_regions analysis).
Proof.
  unfold method2_edge_detection, method2_hits.
  rewrite (sampled_frame_numbers_closed self sample_frames Hn).
  cbn [mbind option_bind].
  destruct (method2_loop_ok self
              (evenly_spaced (Z.max 1 (self_total_frames self / sample_frames))
                             (Z.min sample_frames (self_total_frames self)))
              [] HH HW Hrect) as (hits & Eh & Hh);
    [now apply frames_in_video_le|constructor|].
  rewrite Eh. cbn [mbind option_bind].
  destruct (DetectFacts._analyze_edge_results_Some self hits Hfps) as [analysis E].
  exists hits, analysis. split; [reflexivity|]. split; [exact Hh|].
  split; [exact E|].
  eapply DetectFacts._analyze_edge_results_ok; [|exact Hh|exact E]. lra.
Qed.

(** *** Method 1 *)

Lemma method1_detection_ok self i hits d :
  0 <= self_height self < 2 ^ 1000 ->
  0 <= i <= self_total_frames self - 1 ->
  box_in_frame self d ->
  Forall (hit_in_video self) hits ->
  exists hits',
    method1_detection self i hits d = Some hits' /\ Forall (hit_in_video self) hits'.
Proof.
  intros HH Hi [Hne Hc] Hh. unfold method1_detection.
  destruct (_ && _); [|eauto].
  destruct (float_min_max (fun q => (0 <= q)%Q /\ (q <= inject_Z (self_width self))%Q)
              (map fst (det_coords d)))
    as (x_lo & x_hi & -> & -> & [X0 _] & [_ X1] & X2).
  { destruct (det_coords d); [congruence|discriminate]. }
  { apply List.Forall_map. eapply Forall_impl; [exact Hc|]. intros c Pc. cbv beta in *. tauto. }
  destruct (float_min_max (fun q => (0 <= q)%Q /\ (q <= inject_Z (self_height self))%Q)
              (map snd (det_coords d)))
    as (y_lo & y_hi & -> & -> & [Y0 _] & [_ Y1] & Y2).
  { destruct (det_coords d); [congruence|discriminate]. }
  { apply List.Forall_map. eapply Forall_impl; [exact Hc|]. intros c Pc. cbv beta in *. tauto. }
  cbn [mbind option_bind].
  destruct (float_of_int_Some (self_height self) HH) as (height & -> & _).
  cbn [mbind option_bind].
  destruct (Py.int_gt_float _ _); [|eauto].
  eexists. split; [reflexivity|].
  apply Forall_app. split; [exact Hh|].
  constructor; [|constructor].
  pose proof (py_int_between x_lo x_hi (self_width self) X0 X2 X1).
  pose proof (py_int_between y_lo y_hi (self_height self) Y0 Y2 Y1).
  unfold hit_in_video. simpl. lia.
Qed.

Lemma method1_detections_ok self i detections : forall hits,
  0 <= self_height self < 2 ^ 1000 ->
  0 <= i <= self_total_frames self - 1 ->
  Forall (box_in_frame self) detections ->
  Forall (hit_in_video self) hits ->
  exists hits',
    Py.for_each (method1_detection self i) detections hits = Some hits' /\
    Forall (hit_in_video self) hits'.
Proof.
  induction detections as [|d detections IH]; intros hits HH Hi Hd Hh; [simpl; eauto|].
  inversion Hd as [|? ? Hd0 Hd']; subst.
  destruct (method1_detection_ok self i hits d HH Hi Hd0 Hh) as (hits1 & E1 & H1).
  cbn [Py.for_each]. rewrite E1. cbn [mbind option_bind]. now apply IH.
Qed.

Lemma method1_loop_ok self frames : forall hits,
  0 <= self_height self < 2 ^ 1000 ->
  (forall frame, Forall (box_in_frame self) (ocr_detections frame)) ->
  Forall (fun f => 0 <= f <= self_total_frames self - 1) frames ->
  Forall (hit_in_video self) hits ->
  exists hits',
    Py.for_each (method1_step read ocr_detections self) frames hits = Some hits' /\
    Forall (hit_in_video self) hits'.
Proof.
  induction frames as [|f frames IH]; intros hits HH Hd Hf Hh; [simpl; eauto|].
  inversion Hf as [|? ? Hf0 Hf']; subst.
  assert (S : exists hits1,
             method1_step read ocr_detections self hits f = Some hits1 /\
             Forall (hit_in_video self) hits1).
  { unfold method1_step. destruct (read f) as [frame|]; [|eauto].
    now apply method1_detections_ok. }
  destruct S as (hits1 & E1 & H1).
  cbn [Py.for_each]. rewrite E1. cbn [mbind option_bind]. now apply IH.
Qed.

(** Method 1 on any video in which the text boxes of PaddleOCR lie in the
    frame: with a frame rate that is not negative and below [2 ^ 1021],
    [sample_frames] not 0 and a frame height that is not negative and below
    [2 ^ 1000], the method returns an analysis; every hit it passes to
    [_analyze_ocr_results] comes from a frame of the video with its box
    inside the frame, and every region of the analysis has its frame range
    in the video and its box in the frame. *)
Lemma method1_regions_in_video (installed : bool) (self : Detector) (sample_frames : Z) :
  (0 <= self_fps self)%Q -> (self_fps self < inject_Z (2 ^ 1021))%Q ->
  0 <= self_height self < 2 ^ 1000 ->
  sample_frames <> 0 ->
  (forall frame, Forall (box_in_frame self) (ocr_detections frame)) ->
  (exists hits,
     method1_hits read ocr_detections self sample_frames = Some hits /\
     Forall (hit_in_video self) hits) /\
  exists analysis,
    method1_ocr_based_detection read ocr_detections installed self sample_frames
      = Some analysis /\
    Forall (region_ok self) (timed_regions analysis).
Proof.
  intros Hfps0 Hfps1 HH Hn Hbox.
  unfold method1_ocr_based_detection, method1_hits.
  rewrite (sampled_frame_numbers_closed self sample_frames Hn).
  cbn [mbind option_bind].
  destruct (method1_loop_ok self
              (evenly_spaced (Z.max 1 (self_total_frames self / sample_frames))
                             (Z.min sample_frames (self_total_frames self)))
              [] HH Hbox) as (hits & Eh & Hh);
    [now apply frames_in_video_le|constructor|].
  rewrite Eh. split; [eauto|].
  destruct installed; [|eexists; split; [reflexivity|constructor]].
  cbn [mbind option_bind].
  destruct (DetectFacts._analyze_ocr_results_returns self hits Hfps0 Hfps1) as [analysis E].
  exists analysis. split; [exact E|].
  now apply (DetectFacts._analyze_ocr_results_ok self hits).
Qed.

End Video.

(** A text box in the bottom part of a frame of 720 rows: the hit has the
    truncated corners of the box.  A box that starts at row 504 is kept
    ([720 * 0.7] is below 504 in double precision); a detection of low
    confidence is dropped. *)
Example method1_hits_example :
  let self := mkDetector 1280 720 25 1000 in
  let read := fun i : Z => if i =? 0 then Some i else None in
  let box := fun top : Q => [(100.5, top); (400.25, top); (400.25, top + 40); (100.5, top + 40)]%Q in
  let ocr_detections := fun _ : Z =>
    [ mkDetection (box 504%Q) "abcd" 4 (9 # 10);
      mkDetection (box 600%Q) "abcd" 4 (4 # 10);
      mkDetection (box (1007 # 2)%Q) "abc" 3 (8 # 10) ] in
  method1_hits read ocr_detections self 20
  = Some [ Hit.mk 0 100 504 300 40 "abcd" (9 # 10) ].
Proof. vm_compute. reflexivity. Qed.

Lemma method5_regions_in_video_witness :
  let self := mkDetector 1920 1080 25 1000 in
  let read := fun i : Z => if i =? 40 then None else Some i in
  let bottom_gray := fun (_ : Detector) (frame : Z) => frame in
  let change_ratio := fun prev gray : Z => if gray - prev <? 50 then (1 # 2)%Q else 0%Q in
  exists analysis,
    method5_motion_analysis read bottom_gray change_ratio self 50 = Some analysis /\
    (length (timed_regions analysis) <= 1)%nat /\
    Forall (region_ok self) (timed_regions analysis).
Proof.
  intros self read bottom_gray change_ratio.
  apply (method5_regions_in_video read bottom_gray change_ratio self 50);
    simpl; lia.
Defined.

(** At 720 rows the analysed part starts at row 503 ([720 * 0.7] is below
    504 in double precision) and has 217 rows; the contour below reaches
    its last row. *)
Lemma method2_regions_in_video_witness :
  let self := mkDetector 1280 720 25 1000 in
  let read := fun i : Z => if i =? 40 then None else Some i in
  let find_contours := fun (_ : Detector) (frame : Z) =>
    [mkContour 5000 (100, 167, 1000, 50); mkContour 500 (0, 0, 30, 30)] in
  exists hits analysis,
    method2_hits read find_contours self 30 = Some hits /\
    Forall (hit_in_video self) hits /\
    method2_edge_detection read find_contours self 30 = Some analysis /\
    Forall (region_ok self) (timed_regions analysis).
Proof.
  intros self read find_contours.
  apply (method2_regions_in_video read find_contours self 30).
  - simpl. discriminate.
  - simpl. lia.
  - simpl. lia.
  - lia.
  - intros frame.
    assert (O : bottom_offset self = Some 503) by (vm_compute; reflexivity).
    repeat constructor; try (simpl; lia);
      intros offset E; rewrite O in E; injection E as <-; simpl; lia.
Defined.

(** The hits of method 2 on a frame of 720 rows: the rows of a contour are
    shifted by 503. *)
Example method2_hits_example :
  let self := mkDetector 1280 720 25 1000 in
  let read := fun i : Z => if i =? 0 then Some i else None in
  let find_contours := fun (_ : Detector) (frame : Z) =>
    [mkContour 5000 (100, 167, 1000, 50); mkContour 500 (0, 0, 30, 30)] in
  bottom_offset self = Some 503 /\
  method2_hits read find_contours self 30
  = Some [ Hit.mk 0 100 670 1000 50 "" 0 ].
Proof. split; vm_compute; reflexivity. Qed.

(** *** The default analysis *)

Lemma py_int_bounds q :
  (0 <= q)%Q ->
  0 <= Py.py_int q /\ (inject_Z (Py.py_int q) <= q)%Q /\
  (q < inject_Z (Py.py_int q) + 1)%Q.
Proof.
  intros H. destruct (NumFacts.py_int_nonneg q H) as [A B].
  split; [exact A|]. split; [exact B|].
  unfold Py.py_int. apply Qle_bool_iff in H as Hb. rewrite Hb.
  pose proof (Qlt_floor q) as L. rewrite inject_Z_plus in L. exact L.
Qed.

Lemma default_region_box self s e text :
  0 <= self_width self -> 0 <= self_height self ->
  box_within self (default_region self s e text).
Proof.
  intros HW HH. unfold box_within. simpl.
  rewrite Zle_Qle in HW, HH. change (inject_Z 0) with 0%Q in HW, HH.
  destruct (NumFacts.py_int_nonneg (inject_Z (self_width self) * (5 # 100))%Q) as [X0 X1]; [lra|].
  destruct (NumFacts.py_int_nonneg (inject_Z (self_width self) * (9 # 10))%Q) as [W0 W1]; [lra|].
  destruct (NumFacts.py_int_nonneg (inject_Z (self_height self) * (8 # 10))%Q) as [Y0 Y1]; [lra|].
  destruct (NumFacts.py_int_nonneg (inject_Z (self_height self) * (15 # 100))%Q) as [H0 H1]; [lra|].
  repeat (split; [assumption|]).
  split; rewrite Zle_Qle, inject_Z_plus; lra.
Qed.

(** The default analysis (also the result of method 3) for a frame of
    non-negative dimensions: no region for a video of at most 60 frames, one
    region for 61 to 120 frames, two regions for more than 120 frames (the
    test [start_frame < end_frame] of the second never fails);
    [has_subtitles] is true exactly when there is a region; every region has
    its frame range in the video and its box in the frame, the first starts
    at frame 0, and the second starts after the first has ended. *)
Theorem default_analysis_regions (self : Detector)
  (HW : 0 <= self_width self) (HH : 0 <= self_height self) :
  let analysis := _create_default_analysis self in
  let total_frames := self_total_frames self in
  Forall (region_ok self) (timed_regions analysis) /\
  has_subtitles analysis = (60 <? total_frames) /\
  (total_frames <= 60 -> timed_regions analysis = []) /\
  (60 < total_frames <= 120 ->
     exists r1, timed_regions analysis = [r1] /\ start_frame r1 = 0) /\
  (120 < total_frames ->
     exists r1 r2, timed_regions analysis = [r1; r2] /\ start_frame r1 = 0 /\
                   end_frame r1 < start_frame r2).
Proof.
  intros analysis total. subst analysis. unfold _create_default_analysis.
  fold total.
  set (e1 := Z.min (Py.py_int (inject_Z total * (4 # 10))%Q) (total - 1)).
  set (s2 := Py.py_int (inject_Z total * (6 # 10))%Q).
  set (e2 := Z.min (Py.py_int (inject_Z total * (9 # 10))%Q) (total - 1)).
  destruct (Z.ltb_spec 60 total) as [T1|T1].
  - assert (Q0 : (60 < inject_Z total)%Q).
    { change 60%Q with (inject_Z 60). now rewrite <- Zlt_Qlt. }
    destruct (py_int_bounds (inject_Z total * (4 # 10))%Q) as (A0 & A1 & A2); [lra|].
    assert (E1 : 0 <= e1 <= total - 1) by (subst e1; lia).
    assert (R1 : region_ok self (default_region self 0 e1 "默认字幕区域1 (底部)")).
    { split; [|now apply default_region_box]. unfold frames_ok. simpl. fold total. lia. }
    destruct (Z.ltb_spec 120 total) as [T2|T2].
    + assert (Q1 : (120 < inject_Z total)%Q).
      { change 120%Q with (inject_Z 120). now rewrite <- Zlt_Qlt. }
      destruct (py_int_bounds (inject_Z total * (6 # 10))%Q) as (B0 & B1 & B2); [lra|].
      destruct (py_int_bounds (inject_Z total * (9 # 10))%Q) as (C0 & C1 & C2); [lra|].
      fold s2 in B0, B1, B2.
      assert (S2 : (inject_Z (Py.py_int (inject_Z total * (4 # 10))%Q) < inject_Z s2)%Q).
      { apply Qle_lt_trans with (inject_Z total * (4 # 10))%Q; [exact A1|].
        apply Qplus_lt_l with (z := 1%Q). lra. }
      rewrite <- Zlt_Qlt in S2.
      assert (S3 : (inject_Z s2 < inject_Z (Py.py_int (inject_Z total * (9 # 10))%Q))%Q).
      { apply Qplus_lt_l with (z := 1%Q). lra. }
      rewrite <- Zlt_Qlt in S3.
      assert (S4 : (inject_Z (s2 + 1) < inject_Z total)%Q).
      { rewrite inject_Z_plus. change (inject_Z 1) with 1%Q. lra. }
      rewrite <- Zlt_Qlt in S4.
      assert (L : s2 < e2) by (subst e2; lia).
      destruct (Z.ltb_spec s2 e2) as [_|C]; [|lia].
      simpl app. cbn [timed_regions has_subtitles make_analysis].
      split.
      { constructor; [exact R1|]. constructor; [|constructor].
        split; [|now apply default_region_box].
        unfold frames_ok. simpl. fold total. subst e2. lia. }
      split; [reflexivity|].
      split; [intros; lia|]. split; [intros; lia|].
      intros _. eexists _, _. split; [reflexivity|]. simpl. split; [reflexivity|].
      subst e1. lia.
    + simpl app. cbn [timed_regions has_subtitles make_analysis].
      split; [constructor; [exact R1|constructor]|].
      split; [reflexivity|].
      split; [intros; lia|].
      split; [|intros; lia].
      intros _. eexists. split; reflexivity.
  - destruct (Z.ltb_spec 120 total) as [T2|T2]; [lia|].
    cbn [timed_regions has_subtitles make_analysis]. simpl app.
    split; [constructor|]. split; [reflexivity|].
    split; [reflexivity|]. split; intros; lia.
Qed.

Lemma default_analysis_regions_witness :
  let self := mkDetector 1920 1080 25 1000 in
  let analysis := _create_default_analysis self in
  (0 <= self_width self /\ 0 <= self_height self) /\
  Forall (region_ok self) (timed_regions analysis) /\
  (120 < self_total_frames self ->
     exists r1 r2, timed_regions analysis = [r1; r2] /\ start_frame r1 = 0 /\
                   end_frame r1 < start_frame r2) /\
  map (fun r => (start_frame r, end_frame r)) (timed_regions analysis)
    = [(0, 400); (600, 900)].
Proof.
  intros self analysis.
  assert (HW : 0 <= self_width self) by (simpl; lia).
  assert (HH : 0 <= self_height self) by (simpl; lia).
  destruct (default_analysis_regions self HW HH) as (A & _ & _ & _ & B).
  split; [split; assumption|].
  split; [exact A|]. split; [exact B|]. reflexivity.
Defined.

End MethodFacts.

(** ** Listing, statistics and clean-up of the task store *)

Module TaskQueryFacts.

Import TaskSvc TaskQueries TaskQueryAux.

(** *** [cleanup_expired_tasks] *)

Lemma is_expired_iff now task :
  is_expired (expired_threshold now) task = true <-> expired now task.
Proof.
  unfold is_expired, expired.
  rewrite andb_true_iff, orb_true_iff, !bool_decide_eq_true.
  destruct (completed_at task) as [c|].
  - rewrite Z.ltb_lt. split.
    + intros [H L]. split; [exact H|]. now exists c.
    + intros [H (c' & [= <-] & L)]. split; assumption.
  - split.
    + intros [_ H]. discriminate.
    + intros [_ (c' & H & _)]. discriminate.
Qed.

Lemma fold_delete_lookup ks : forall (m : Tasks) n k,
  fst (fold_left delete_expired ks (m, n)) !! k =
  if decide (k ∈ ks) then None else m !! k.
Proof.
  induction ks as [|a ks IH]; intros m n k; cbn [fold_left delete_expired].
  - rewrite decide_False; [reflexivity|]. intros H. inversion H.
  - rewrite IH. destruct (decide (k ∈ ks)) as [I|I].
    + rewrite decide_True; [reflexivity|]. now right.
    + destruct (decide (k = a)) as [->|N].
      * rewrite decide_True by left. apply lookup_delete_eq.
      * rewrite decide_False.
        -- apply lookup_delete_ne. congruence.
        -- intros H. apply elem_of_cons in H as [H|H]; contradiction.
Qed.

Lemma fold_delete_count ks : forall (m : Tasks) n,
  snd (fold_left delete_expired ks (m, n)) = n + Z.of_nat (length ks).
Proof.
  induction ks as [|a ks IH]; intros m n; cbn [fold_left delete_expired length].
  - simpl. lia.
  - rewrite IH. lia.
Qed.

Lemma fold_delete_size ks : forall (m : Tasks) n,
  NoDup ks -> Forall (fun k => is_Some (m !! k)) ks ->
  (size (fst (fold_left delete_expired ks (m, n))) + length ks = size m)%nat.
Proof.
  induction ks as [|a ks IH]; intros m n Hd Hp; cbn [fold_left delete_expired length].
  - simpl. lia.
  - apply NoDup_cons in Hd as [Ha Hd].
    inversion Hp as [|? ? Hpa Hp']; subst.
    assert (Hp2 : Forall (fun k => is_Some (delete a m !! k)) ks).
    { rewrite List.Forall_forall in Hp'. apply List.Forall_forall.
      intros k Hk. rewrite lookup_delete_ne; [now apply Hp'|].
      intros ->. apply Ha. now apply list_elem_of_In. }
    pose proof (IH (delete a m) (n + 1) Hd Hp2) as E.
    rewrite map_size_delete_Some in E by exact Hpa.
    destruct Hpa as [t Ht].
    assert (size m <> 0)%nat; [|lia].
    intros Z. apply map_size_empty_inv in Z. subst m. now rewrite lookup_empty in Ht.
Qed.

Lemma cleanup_unfold tasks now :
  cleanup_expired_tasks tasks now =
  fold_left delete_expired (expired_tasks tasks (expired_threshold now)) (tasks, 0).
Proof. reflexivity. Qed.

Lemma elem_of_expired_tasks tasks now k :
  k ∈ expired_tasks tasks (expired_threshold now) <->
  exists t, tasks !! k = Some t /\ expired now t.
Proof.
  unfold expired_tasks. rewrite list_elem_of_omap. split.
  - intros ([k' t] & Hin & E). apply elem_of_map_to_list in Hin.
    destruct (is_expired _ t) eqn:X; [|discriminate]. injection E as ->.
    exists t. split; [exact Hin|]. now apply is_expired_iff.
  - intros (t & Ht & X). exists (k, t). split; [now apply elem_of_map_to_list|].
    apply is_expired_iff in X. now rewrite X.
Qed.

Lemma expired_tasks_NoDup tasks now : NoDup (expired_tasks tasks (expired_threshold now)).
Proof.
  unfold expired_tasks.
  pose proof (NoDup_fst_map_to_list tasks) as H.
  induction (map_to_list tasks) as [|[k t] l IH]; [constructor|].
  cbn [fmap list_fmap fst] in H. apply NoDup_cons in H as [Hk Hl].
  cbn [omap list_omap]. destruct (is_expired _ t); [|now apply IH].
  apply NoDup_cons. split; [|now apply IH].
  intros Hin. apply Hk. apply list_elem_of_omap in Hin as ([k' t'] & Hin & E).
  destruct (is_expired _ t'); [|discriminate]. injection E as ->.
  apply list_elem_of_fmap. now exists (k, t').
Qed.

Lemma cleanup_lookup tasks now k :
  fst (cleanup_expired_tasks tasks now) !! k =
  match tasks !! k with
  | Some t => if is_expired (expired_threshold now) t
              then None else Some t
  | None => None
  end.
Proof.
  rewrite cleanup_unfold, fold_delete_lookup.
  destruct (decide (k ∈ expired_tasks tasks (expired_threshold now))) as [I|I].
  - apply elem_of_expired_tasks in I as (t & -> & X).
    apply is_expired_iff in X. now rewrite X.
  - destruct (tasks !! k) as [t|] eqn:E; [|reflexivity].
    destruct (is_expired _ t) eqn:X; [|reflexivity].
    exfalso. apply I, elem_of_expired_tasks. exists t. split; [exact E|].
    now apply is_expired_iff.
Qed.

(** [cleanup_expired_tasks] called at the time [now] removes from the
    store exactly the tasks that are COMPLETED or FAILED and whose completion
    time is more than 24 hours before [now]: every other task (pending,
    detecting or processing; without completion time; completed within the
    last 24 hours) stays in the store unchanged.  The count it reports is
    the number of tasks removed, and a second call at the same time removes
    nothing. *)
Theorem cleanup_removes_exactly_the_expired (tasks : Tasks) (now : datetime) :
  let tasks' := fst (cleanup_expired_tasks tasks now) in
  let deleted_tasks := snd (cleanup_expired_tasks tasks now) in
  (forall task_id task,
      tasks' !! task_id = Some task <->
      tasks !! task_id = Some task /\ ~ expired now task) /\
  deleted_tasks = Z.of_nat (size tasks) - Z.of_nat (size tasks') /\
  cleanup_expired_tasks tasks' now = (tasks', 0).
Proof.
  intros tasks' deleted.
  assert (L : forall task_id task,
             tasks' !! task_id = Some task <->
             tasks !! task_id = Some task /\ ~ expired now task).
  { intros k t. unfold tasks'. rewrite cleanup_lookup.
    destruct (tasks !! k) as [t'|]; [|split; [discriminate|intros [? _]; discriminate]].
    destruct (is_expired _ t') eqn:X.
    - split; [discriminate|]. intros [[= ->] N]. exfalso. now apply N, is_expired_iff.
    - split.
      + intros [= ->]. split; [reflexivity|]. intros E%is_expired_iff. congruence.
      + now intros [[= ->] _]. }
  split; [exact L|]. split.
  - unfold deleted, tasks'. rewrite cleanup_unfold, fold_delete_count.
    pose proof (fold_delete_size (expired_tasks tasks (expired_threshold now)) tasks 0
                  (expired_tasks_NoDup tasks now)) as S.
    rewrite <- S; [lia|].
    apply List.Forall_forall. intros k Hk. apply list_elem_of_In in Hk.
    apply elem_of_expired_tasks in Hk as (t & -> & _). eauto.
  - rewrite cleanup_unfold.
    assert (E : expired_tasks tasks' (expired_threshold now) = []).
    { destruct (expired_tasks tasks' (expired_threshold now)) as [|k ks] eqn:E; [reflexivity|].
      assert (Hk : k ∈ expired_tasks tasks' (expired_threshold now)) by (rewrite E; left).
      apply elem_of_expired_tasks in Hk as (t & Ht & X).
      apply L in Ht as [_ N]. contradiction. }
    rewrite E. reflexivity.
Qed.

(** *** The store *)

(** Creating, reading and deleting tasks.  [create_task] stores a
    PENDING task with progress 0, created at the time of the call, without
    start or completion time, and [get_task] returns it; the other tasks are
    untouched.  An id already in the store is not rejected: the new task
    replaces the old one and the number of tasks stays the same; otherwise
    the number grows by one.  [delete_task] removes the task and answers
    True, after which [get_task] finds nothing; deleting an id that is not
    in the store answers False and leaves the store unchanged. *)
Theorem store_round_trip
  (tasks : Tasks) (now : datetime) (task_id : string) (task_create : TaskCreate)
  (original_filename file_path : string) (file_size : option Z) (duration : option Q) :
  let tasks1 := fst (create_task tasks now task_id task_create original_filename
                                 file_path file_size duration) in
  let task := snd (create_task tasks now task_id task_create original_filename
                               file_path file_size duration) in
  get_task tasks1 task_id = Some task /\
  (id task = task_id /\ status task = PENDING /\ (progress task == 0)%Q /\
   created_at task = now /\ started_at task = None /\ completed_at task = None /\
   error_message task = None /\ output_path task = None /\
   subtitle_regions task = tc_subtitle_regions task_create) /\
  (forall other, other <> task_id -> get_task tasks1 other = get_task tasks other) /\
  get_task_count tasks1 =
    get_task_count tasks + (if decide (is_Some (tasks !! task_id)) then 0 else 1) /\
  delete_task tasks1 task_id = (delete task_id tasks, true) /\
  get_task (fst (delete_task tasks1 task_id)) task_id = None /\
  (tasks !! task_id = None -> delete_task tasks task_id = (tasks, false)).
Proof.
  intros tasks1 task. subst tasks1 task. unfold create_task, get_task. cbn [fst snd].
  split; [apply lookup_insert_eq|].
  split; [repeat split; reflexivity|].
  split; [intros other N; apply lookup_insert_ne; congruence|].
  split.
  { unfold get_task_count. destruct (decide (is_Some (tasks !! task_id))) as [S|N].
    - rewrite map_size_insert_Some by exact S. lia.
    - rewrite map_size_insert_None; [lia|]. now apply eq_None_not_Some. }
  assert (D : forall t, delete_task (<[task_id := t]> tasks) task_id
                        = (delete task_id tasks, true)).
  { intros t. unfold delete_task. rewrite lookup_insert_eq. now rewrite delete_insert_eq. }
  split; [apply D|]. rewrite D. cbn [fst].
  split; [apply lookup_delete_eq|].
  intros E. unfold delete_task. now rewrite E.
Qed.

(** *** [get_task_statistics] *)

Lemma length_with_status_cons s a l :
  Z.of_nat (length (with_status s (a :: l))) =
  (if decide (status a = s) then 1 else 0) + Z.of_nat (length (with_status s l)).
Proof.
  unfold with_status. rewrite filter_cons.
  destruct (decide (status a = s)); simpl length; lia.
Qed.

Lemma length_with_algorithm_cons s a l :
  Z.of_nat (length (with_algorithm s (a :: l))) =
  (if decide (algorithm a = s) then 1 else 0) + Z.of_nat (length (with_algorithm s l)).
Proof.
  unfold with_algorithm. rewrite filter_cons.
  destruct (decide (algorithm a = s)); simpl length; lia.
Qed.

Lemma statistics_fold values : forall s0,
  let s :=
    fold_left
      (fun stats task =>
         count_algorithm (algorithm task) (count_status (status task) stats))
      values s0 in
  total s = total s0 /\
  pending s = pending s0 + Z.of_nat (length (with_status PENDING values)) /\
  detecting s = detecting s0 + Z.of_nat (length (with_status DETECTING values)) /\
  processing s = processing s0 + Z.of_nat (length (with_status PROCESSING values)) /\
  completed s = completed s0 + Z.of_nat (length (with_status COMPLETED values)) /\
  failed s = failed s0 + Z.of_nat (length (with_status FAILED values)) /\
  by_sttn s = by_sttn s0 + Z.of_nat (length (with_algorithm STTN values)) /\
  by_lama s = by_lama s0 + Z.of_nat (length (with_algorithm LAMA values)) /\
  by_propainter s = by_propainter s0 + Z.of_nat (length (with_algorithm PROPAINTER values)).
Proof.
  induction values as [|a l IH]; intros s0; cbv zeta.
  - simpl. repeat split; lia.
  - cbn [fold_left].
    destruct (IH (count_algorithm (algorithm a) (count_status (status a) s0)))
      as (E0 & E1 & E2 & E3 & E4 & E5 & E6 & E7 & E8).
    rewrite E0, E1, E2, E3, E4, E5, E6, E7, E8.
    rewrite !length_with_status_cons, !length_with_algorithm_cons.
    destruct (status a), (algorithm a); simpl; repeat split; lia.
Qed.

Lemma status_partition values :
  Z.of_nat (length values) =
  Z.of_nat (length (with_status PENDING values)) +
  Z.of_nat (length (with_status DETECTING values)) +
  Z.of_nat (length (with_status PROCESSING values)) +
  Z.of_nat (length (with_status COMPLETED values)) +
  Z.of_nat (length (with_status FAILED values)).
Proof.
  induction values as [|a l IH]; [reflexivity|].
  rewrite !length_with_status_cons. cbn [length]. rewrite Nat2Z.inj_succ, IH.
  destruct (status a); simpl; lia.
Qed.

Lemma algorithm_partition values :
  Z.of_nat (length values) =
  Z.of_nat (length (with_algorithm STTN values)) +
  Z.of_nat (length (with_algorithm LAMA values)) +
  Z.of_nat (length (with_algorithm PROPAINTER values)).
Proof.
  induction values as [|a l IH]; [reflexivity|].
  rewrite !length_with_algorithm_cons. cbn [length]. rewrite Nat2Z.inj_succ, IH.
  destruct (algorithm a); simpl; lia.
Qed.

(** The statistics of [get_task_statistics] count every task once by
    status and once by algorithm: each status entry is the number of tasks of
    that status, each algorithm entry the number of tasks of that algorithm,
    the five status entries add up to [total], and so do the three algorithm
    entries; the entry [processing] is the number of tasks that
    [get_processing_tasks] returns. *)
Theorem statistics_count_every_task_once (values : list Task) :
  let stats := get_task_statistics values in
  total stats = Z.of_nat (length values) /\
  pending stats = Z.of_nat (length (with_status PENDING values)) /\
  detecting stats = Z.of_nat (length (with_status DETECTING values)) /\
  processing stats = Z.of_nat (length (get_processing_tasks values)) /\
  completed stats = Z.of_nat (length (with_status COMPLETED values)) /\
  failed stats = Z.of_nat (length (with_status FAILED values)) /\
  by_sttn stats = Z.of_nat (length (with_algorithm STTN values)) /\
  by_lama stats = Z.of_nat (length (with_algorithm LAMA values)) /\
  by_propainter stats = Z.of_nat (length (with_algorithm PROPAINTER values)) /\
  pending stats + detecting stats + processing stats + completed stats + failed stats
    = total stats /\
  by_sttn stats + by_lama stats + by_propainter stats = total stats.
Proof.
  intros stats. subst stats. unfold get_task_statistics.
  destruct (statistics_fold values
              (mkStats (Z.of_nat (length values)) 0 0 0 0 0 0 0 0))
    as (E0 & E1 & E2 & E3 & E4 & E5 & E6 & E7 & E8).
  cbn [total pending detecting processing completed failed
       by_sttn by_lama by_propainter] in *.
  pose proof (status_partition values) as SP.
  pose proof (algorithm_partition values) as AP.
  change (get_processing_tasks values) with (with_status PROCESSING values).
  rewrite E0, E1, E2, E3, E4, E5, E6, E7, E8.
  repeat split; lia.
Qed.

(** *** [get_task_list] *)

Lemma insert_task_perm bf x l : Permutation (insert_task bf x l) (x :: l).
Proof.
  induction l as [|h t IH]; simpl; [reflexivity|].
  destruct (bf x h); [reflexivity|]. rewrite IH. apply perm_swap.
Qed.

Lemma py_sort_perm {K} (leb : K -> K -> bool) key reverse l :
  Permutation (py_sort leb key reverse l) l.
Proof.
  induction l as [|x l IH]; simpl; [reflexivity|].
  rewrite insert_task_perm. now constructor.
Qed.

Lemma listed_tasks_perm values status order_by order :
  Permutation (listed_tasks values status order_by order) (selected status values).
Proof.
  unfold listed_tasks, selected, with_status.
  destruct (String.eqb order_by "created_at"); [apply py_sort_perm|].
  destruct (String.eqb order_by "progress"); [apply py_sort_perm|].
  destruct (String.eqb order_by "status"); [apply py_sort_perm|].
  reflexivity.
Qed.

Lemma insert_task_sorted (bf : Task -> Task -> bool) x l :
  (forall a b, bf a b = true \/ bf b a = true) ->
  Sorted (fun a b => bf a b = true) l ->
  Sorted (fun a b => bf a b = true) (insert_task bf x l).
Proof.
  intros Htot. induction l as [|h t IH]; intros Hs; simpl.
  - repeat constructor.
  - destruct (bf x h) eqn:E.
    + constructor; [exact Hs|]. constructor. exact E.
    + inversion Hs as [|? ? Hs' Hh]; subst. constructor; [now apply IH|].
      destruct t as [|h' t']; simpl.
      * constructor. destruct (Htot x h); congruence.
      * destruct (bf x h') eqn:E'.
        -- constructor. destruct (Htot x h); congruence.
        -- inversion Hh; subst. now constructor.
Qed.

Lemma py_sort_sorted {K} (leb : K -> K -> bool) key reverse l :
  (forall a b, leb a b = true \/ leb b a = true) ->
  Sorted (fun a b => before leb key reverse a b = true) (py_sort leb key reverse l).
Proof.
  intros Htot. induction l as [|x l IH]; simpl; [constructor|].
  apply insert_task_sorted; [|exact IH].
  intros a b. unfold before. destruct reverse; apply Htot.
Qed.

Lemma insert_task_stable (bf : Task -> Task -> bool) (P : Task -> Prop)
  `{!forall a, Decision (P a)} x l :
  (forall a b, P a -> P b -> bf a b = true) ->
  filter P (insert_task bf x l) = filter P (x :: l).
Proof.
  intros Heq. induction l as [|h t IH]; simpl; [reflexivity|].
  destruct (bf x h) eqn:E; [reflexivity|].
  rewrite !filter_cons in *.
  destruct (decide (P h)) as [Ph|Ph].
  - destruct (decide (P x)) as [Px|Px].
    + rewrite (Heq x h Px Ph) in E. discriminate.
    + rewrite IH. reflexivity.
  - rewrite IH. reflexivity.
Qed.

Lemma py_sort_stable {K} `{!EqDecision K} (leb : K -> K -> bool) key reverse l k :
  (forall a, leb a a = true) ->
  filter (fun t => key t = k) (py_sort leb key reverse l) =
  filter (fun t => key t = k) l.
Proof.
  intros Hrefl. induction l as [|x l IH]; simpl; [reflexivity|].
  rewrite insert_task_stable.
  - rewrite !filter_cons, IH. reflexivity.
  - intros a b Ha Hb. unfold before. rewrite Ha, Hb. destruct reverse; apply Hrefl.
Qed.

Lemma sorted_impl {A} (R S : A -> A -> Prop) l :
  (forall a b, R a b -> S a b) -> Sorted R l -> Sorted S l.
Proof.
  intros HRS. induction 1 as [|a l Hs IH Hh]; constructor; [exact IH|].
  destruct Hh; constructor. now apply HRS.
Qed.

Lemma Qle_bool_total a b : Qle_bool a b = true \/ Qle_bool b a = true.
Proof.
  rewrite !Qle_bool_iff. destruct (Qlt_le_dec a b) as [H|H]; [left|right]; lra.
Qed.

Lemma Zleb_total a b : (a <=? b) = true \/ (b <=? a) = true.
Proof. rewrite !Z.leb_le. lia. Qed.

(** The list that [get_task_list] paginates holds exactly the tasks of
    the requested status (all tasks when no status is given), each once.
    For [order_by] equal to ["created_at"], ["progress"] or ["status"] it is
    in the order of that key (the status by its string value), descending
    when [order] is ["desc"] and ascending for every other value of [order];
    tasks created at the same time keep their order of insertion in both
    directions.  For any other [order_by] the list is left in the order of
    insertion. *)
Theorem listed_tasks_order (values : list Task) (status : option TaskStatus)
  (order_by order : string) :
  let tasks := listed_tasks values status order_by order in
  let reverse := String.eqb order "desc" in
  Permutation tasks (selected status values) /\
  (order_by = "created_at" ->
     in_key_order Z.le created_at reverse tasks /\
     forall t, filter (fun task => created_at task = t) tasks =
               filter (fun task => created_at task = t) (selected status values)) /\
  (order_by = "progress" -> in_key_order Qle progress reverse tasks) /\
  (order_by = "status" ->
     in_key_order (fun a b => String.leb a b = true)
                  (fun task => status_value (TaskSvc.status task)) reverse tasks) /\
  (order_by <> "created_at" -> order_by <> "progress" -> order_by <> "status" ->
     tasks = selected status values).
Proof.
  intros tasks reverse. subst tasks. unfold listed_tasks. fold reverse.
  change (match status with
          | Some s => filter (fun task => TaskSvc.status task = s) values
          | None => values
          end) with (selected status values).
  set (sel := selected status values).
  destruct (String.eqb_spec order_by "created_at") as [E1|N1].
  { split; [apply py_sort_perm|]. subst order_by.
    split; [|repeat split; intros; congruence || discriminate].
    intros _. split.
    - eapply sorted_impl; [|apply (py_sort_sorted Z.leb created_at reverse sel Zleb_total)].
      intros a b. unfold before. destruct reverse; apply Z.leb_le.
    - intros t. apply py_sort_stable. intros a. apply Z.leb_refl. }
  destruct (String.eqb_spec order_by "progress") as [E2|N2].
  { split; [apply py_sort_perm|]. subst order_by.
    split; [intros; discriminate|]. split; [|split; intros; congruence || discriminate].
    intros _.
    eapply sorted_impl; [|apply (py_sort_sorted Qle_bool progress reverse sel Qle_bool_total)].
    intros a b. unfold before. destruct reverse; apply Qle_bool_iff. }
  destruct (String.eqb_spec order_by "status") as [E3|N3].
  { split; [apply py_sort_perm|]. subst order_by.
    split; [intros; discriminate|]. split; [intros; discriminate|].
    split; [|intros; congruence].
    intros _.
    eapply sorted_impl;
      [|apply (py_sort_sorted String.leb (fun x => status_value (TaskSvc.status x))
                 reverse sel String.leb_total)].
    intros a b. unfold before. destruct reverse; auto. }
  split; [reflexivity|]. repeat split; intros; congruence.
Qed.

Lemma py_slice_page {A} (l : list A) page page_size :
  1 <= page -> 0 <= page_size ->
  py_slice l ((page - 1) * page_size) ((page - 1) * page_size + page_size) =
  take (Z.to_nat page_size) (drop (Z.to_nat ((page - 1) * page_size)) l).
Proof.
  intros Hp Hs. unfold py_slice, py_slice_index.
  set (len := Z.of_nat (length l)). set (start := (page - 1) * page_size).
  assert (H0 : 0 <= start) by (subst start; nia).
  destruct (Z.ltb_spec start 0) as [C|_]; [lia|].
  destruct (Z.ltb_spec (start + page_size) 0) as [C|_]; [lia|].
  destruct (Z_le_gt_dec len start) as [G|G].
  - rewrite (Z.min_r start len) by lia.
    rewrite (drop_ge l (Z.to_nat start)) by (subst len; lia).
    rewrite (drop_ge l (Z.to_nat len)) by (subst len; lia).
    now rewrite !take_nil.
  - rewrite (Z.min_l start len) by lia.
    destruct (Z_le_gt_dec (start + page_size) len) as [F|F].
    + rewrite Z.min_l by lia. f_equal. f_equal. lia.
    + rewrite Z.min_r by lia.
      rewrite !take_ge; [reflexivity| |]; rewrite length_drop; subst len; lia.
Qed.

(** Pagination of [get_task_list] for a page size that is not negative:
    [total] is the number of tasks of the requested status, whatever the page
    and the order; page [page >= 1] holds the [page_size] tasks that follow
    the first [(page - 1) * page_size] tasks of the list (fewer at the end of
    the list, none beyond it); the pages 1 to k put one after the other are
    the first [k * page_size] tasks of the list, so that no task is skipped
    or shown twice; page 0 is empty. *)
Theorem get_task_list_pages (values : list Task) (status : option TaskStatus)
  (page_size : Z) (order_by order : string) (Hsize : 0 <= page_size) :
  let tasks := listed_tasks values status order_by order in
  let page_of := fun page => fst (get_task_list values status page page_size order_by order) in
  (forall page,
      snd (get_task_list values status page page_size order_by order) =
      Z.of_nat (length (selected status values))) /\
  (forall page, 1 <= page ->
      page_of page =
      take (Z.to_nat page_size) (drop (Z.to_nat ((page - 1) * page_size)) tasks)) /\
  (forall k : nat,
      concat (map page_of (seqZ 1 (Z.of_nat k))) =
      take (k * Z.to_nat page_size) tasks) /\
  page_of 0 = [].
Proof.
  intros tasks page_of.
  assert (P : forall page, 1 <= page ->
      page_of page =
      take (Z.to_nat page_size) (drop (Z.to_nat ((page - 1) * page_size)) tasks)).
  { intros page Hp. unfold page_of, get_task_list. cbn [fst]. fold tasks.
    now apply py_slice_page. }
  split.
  { intros page. unfold get_task_list. cbn [snd]. f_equal.
    apply Permutation_length. apply (listed_tasks_perm values status order_by order). }
  split; [exact P|]. split.
  - induction k as [|k IH]; [reflexivity|].
    rewrite seqZ_S, map_app, concat_app, IH. cbn [map concat].
    rewrite app_nil_r, P by lia.
    replace (Z.to_nat ((1 + Z.of_nat k - 1) * page_size))
      with (k * Z.to_nat page_size)%nat by nia.
    rewrite take_take_drop. f_equal. lia.
  - unfold page_of, get_task_list. cbn [fst]. fold tasks.
    unfold py_slice, py_slice_index.
    set (len := Z.of_nat (length tasks)).
    replace ((0 - 1) * page_size + page_size) with 0 by lia.
    assert (L : 0 <= len) by (subst len; lia).
    change (0 <? 0) with false. cbv iota. rewrite (Z.min_l 0 len) by lia.
    destruct (Z.ltb_spec ((0 - 1) * page_size) 0) as [C|C].
    + replace (Z.to_nat (0 - Z.max 0 (len + (0 - 1) * page_size))) with 0%nat by lia.
      apply take_0.
    + replace (Z.to_nat (0 - Z.min ((0 - 1) * page_size) len)) with 0%nat by lia.
      apply take_0.
Qed.

Lemma get_task_list_pages_witness :
  let t := fun (i : string) (c : datetime) =>
    mkTask i PENDING 0 STTN "a.mp4" None None None c None None None None None None None
           None in
  let values := [t "a" 3; t "b" 1; t "c" 2] in
  0 <= 2 /\
  (forall page, 1 <= page ->
     fst (get_task_list values None page 2 "created_at" "desc") =
     take (Z.to_nat 2)
          (drop (Z.to_nat ((page - 1) * 2))
                (listed_tasks values None "created_at" "desc"))) /\
  map TaskSvc.id (fst (get_task_list values None 1 2 "created_at" "desc")) = ["a"; "c"] /\
  map TaskSvc.id (fst (get_task_list values None 2 2 "created_at" "desc")) = ["b"].
Proof.
  intros t values.
  assert (H : 0 <= 2) by lia.
  split; [exact H|].
  split; [exact (proj1 (proj2 (get_task_list_pages values None 2 "created_at" "desc" H)))|].
  split; reflexivity.
Defined.

End TaskQueryFacts.

(** ** The status and download routes *)

Module QueryRouteFacts.

Import TaskSvc QueryRoutes.

Lemma is_completed_iff st :
  String.eqb (status_value st) "completed" = true <-> st = COMPLETED.
Proof. destruct st; simpl; split; congruence. Qed.

(** The status route offers a download link exactly for a task that is
    COMPLETED and has a non-empty output path, and the link is
    [/api/download/<task_id>].  The download route returns a file only for
    such a task, and then exactly when the output file exists on disk (the
    file returned is the task's output path); for a task that is not
    COMPLETED it answers 400, for an unknown task 404, and for a completed
    task without output file 404.  So a file is never served for a task for
    which the status route offers no link. *)
Theorem download_link_and_download_agree
  (path_exists : string -> bool) (tasks : Tasks) (task_id : string) :
  match tasks !! task_id with
  | None =>
      get_task_status tasks task_id = StatusError 404 "任务不存在" /\
      download_result path_exists tasks task_id = DownloadError 404 "任务不存在"
  | Some task =>
      exists detail,
        get_task_status tasks task_id = Detail detail /\
        td_status detail = status task /\
        (td_download_url detail = Some ("/api/download/" +:+ task_id) \/
         td_download_url detail = None) /\
        (td_download_url detail <> None <->
         status task = COMPLETED /\
         exists path, output_path task = Some path /\ path <> EmptyString) /\
        (status task <> COMPLETED ->
         download_result path_exists tasks task_id = DownloadError 400 "任务尚未完成") /\
        (status task = COMPLETED -> td_download_url detail = None ->
         download_result path_exists tasks task_id = DownloadError 404 "输出文件不存在") /\
        (forall path, td_download_url detail <> None -> output_path task = Some path ->
         if path_exists path
         then exists filename,
                download_result path_exists tasks task_id = FileResponse path filename
         else download_result path_exists tasks task_id
              = DownloadError 404 "输出文件不存在")
  end.
Proof.
  unfold get_task_status, download_result, get_task.
  destruct (tasks !! task_id) as [task|]; [|split; reflexivity].
  eexists. split; [reflexivity|]. cbn [td_status td_download_url].
  split; [reflexivity|].
  destruct (String.eqb (status_value (status task)) "completed") eqn:C.
  - apply is_completed_iff in C as C'.
    destruct (output_path task) as [path|] eqn:O; cbn [opt_str_truthy andb negb].
    + destruct (Py.str_truthy path) eqn:T; cbn [negb orb].
      * apply PyFacts.str_truthy_iff in T.
        split; [now left|]. split.
        { split; [|discriminate]. intros _. split; [exact C'|]. now exists path. }
        split; [intros N; contradiction|]. split; [discriminate|].
        intros path' _ [= <-]. destruct (path_exists path); cbn [negb]; eauto.
      * split; [now right|]. split.
        { split; [congruence|]. intros [_ (p & [= <-] & N)].
          apply PyFacts.str_truthy_iff in N. congruence. }
        split; [intros N; contradiction|]. split; [reflexivity|].
        intros path' N. contradiction.
    + split; [now right|]. split.
      { split; [congruence|]. intros [_ (p & N & _)]. discriminate. }
      split; [intros N; contradiction|]. split; [reflexivity|].
      intros path' N. contradiction.
  - assert (N : status task <> COMPLETED).
    { intros H. apply is_completed_iff in H. congruence. }
    cbn [andb negb]. split; [now right|]. split.
    { split; [congruence|]. intros [H _]. contradiction. }
    split; [reflexivity|]. split; [intros H; contradiction|].
    intros path' H. contradiction.
Qed.

(** From the end of the worker to the routes.  When
    [_process_video_sync] finds the output file and reports it (with a
    non-empty path), the task is COMPLETED with progress 100 and the time of
    the report as [completed_at], the status route offers the download link,
    and the download route serves the reported path, under the reported file
    name, as long as the file exists.  When the worker reports a missing
    output or an exception, the task is FAILED, the status route shows the
    error message and offers no link, and the download route answers 400. *)
Theorem worker_outcome_reaches_the_routes
  (path_exists : string -> bool) (tasks : Tasks) (now : datetime)
  (task_id : string) (task : Task) (outcome : VideoSvc.Outcome)
  (Hfound : tasks !! task_id = Some task) :
  let tasks' := VideoSvc.report_outcome tasks now task_id outcome in
  exists detail,
    get_task_status tasks' task_id = Detail detail /\
    td_completed_at detail = Some now /\
    match outcome with
    | VideoSvc.OutputExists output_path output_filename =>
        td_status detail = COMPLETED /\
        (td_progress detail == 100)%Q /\
        (output_path <> EmptyString ->
         td_download_url detail = Some ("/api/download/" +:+ task_id) /\
         (path_exists output_path = true ->
          download_result path_exists tasks' task_id =
          FileResponse output_path
            (if Py.str_truthy output_filename then output_filename
             else task_id +:+ "_processed.mp4")))
    | VideoSvc.OutputMissing =>
        td_status detail = FAILED /\
        td_error_message detail = Some "输出文件未生成" /\
        td_download_url detail = None /\
        download_result path_exists tasks' task_id = DownloadError 400 "任务尚未完成"
    | VideoSvc.Raised message =>
        td_status detail = FAILED /\
        td_error_message detail = Some message /\
        td_download_url detail = None /\
        download_result path_exists tasks' task_id = DownloadError 400 "任务尚未完成"
    end.
Proof.
  intros tasks'. subst tasks'. unfold VideoSvc.report_outcome.
  destruct outcome as [output_path output_filename| |message];
    rewrite (TaskFacts.update_task_status_found _ _ _ _ _ _ _ _ _ Hfound);
    cbn [fst]; unfold get_task_status, download_result, get_task;
    rewrite lookup_insert_eq; eexists; (split; [reflexivity|]);
    cbn [td_completed_at td_status td_progress td_error_message td_download_url].
  - split; [reflexivity|]. split; [reflexivity|]. split; [reflexivity|].
    intros Hne. apply PyFacts.str_truthy_iff in Hne.
    set (t' := apply_status_update now COMPLETED (Some 100%Q) None
                 (Some output_path) (Some output_filename) task).
    change (status t') with COMPLETED.
    change (TaskSvc.output_path t') with (Some output_path).
    change (TaskSvc.output_filename t') with (Some output_filename).
    cbn [status_value opt_str_truthy default]. rewrite Hne.
    split; [reflexivity|].
    intros Hex. rewrite Hex. reflexivity.
  - repeat split; reflexivity.
  - repeat split; reflexivity.
Qed.

Lemma worker_outcome_reaches_the_routes_witness :
  let task := TaskAux.fresh_task "t1" in
  let tasks : Tasks := {[ "t1" := task ]} in
  let tasks' := VideoSvc.report_outcome tasks 9 "t1"
                  (VideoSvc.OutputExists "/out/t1_no_sub.mp4" "t1_no_sub.mp4") in
  tasks !! "t1" = Some task /\
  exists detail,
    get_task_status tasks' "t1" = Detail detail /\
    td_status detail = COMPLETED /\
    td_download_url detail = Some "/api/download/t1" /\
    download_result (fun _ => true) tasks' "t1"
      = FileResponse "/out/t1_no_sub.mp4" "t1_no_sub.mp4".
Proof.
  intros task tasks tasks'.
  assert (E : tasks !! "t1" = Some task) by apply lookup_singleton_eq.
  split; [exact E|].
  destruct (worker_outcome_reaches_the_routes (fun _ => true) tasks 9 "t1" task
              (VideoSvc.OutputExists "/out/t1_no_sub.mp4" "t1_no_sub.mp4") E)
    as (detail & Hd & _ & Hs & _ & Hl).
  exists detail. split; [exact Hd|]. split; [exact Hs|].
  destruct Hl as [Hu Hf]; [discriminate|].
  split; [exact Hu|]. now apply Hf.
Defined.

End QueryRouteFacts.

(** ** The timed Gemini response ([_parse_timed_response]) *)

Module GeminiFacts.

Import TimedSubtitle GeminiTimed MergeAux CoverageAux GeminiAux.

Lemma half_duration_eq fps :
  half_duration fps =
  option_map (fun duration_frames => duration_frames / 2)
             (Py.int_of_float (Py.float_mul fps (5 # 2))).
Proof.
  unfold half_duration, Py.float_mul.
  destruct (Py.round _); [|reflexivity]. simpl. now rewrite NumFacts.py_int_quot.
Qed.

Lemma window_half_nonneg fps k :
  (0 <= fps)%Q -> half_duration fps = Some k -> 0 <= k.
Proof.
  intros Hfps. rewrite half_duration_eq. unfold Py.float_mul.
  destruct (Py.int_of_float _) as [d|] eqn:E; [|discriminate].
  intros [= <-]. apply Z.div_pos; [|lia].
  apply (FloatFacts.int_of_float_nonneg (fps * (5 # 2)) d); [|exact E].
  apply Qmult_le_0_compat; [exact Hfps|lra].
Qed.

Lemma timed_region_step_skip total fps acc rd :
  rd_is_subtitle rd = Some false -> timed_region_step total fps acc rd = Some acc.
Proof. intros E. unfold timed_region_step. now rewrite E. Qed.

Lemma timed_region_step_selected total fps acc rd :
  is_selected rd ->
  (is_complete rd /\ is_Some (half_duration fps) /\
   exists r, timed_region_step total fps acc rd = Some (acc ++ [r]) /\
             built_from total fps rd r) \/
  ((~ is_complete rd \/ half_duration fps = None) /\
   timed_region_step total fps acc rd = None).
Proof.
  intros Hs. unfold timed_region_step.
  assert (D : default true (rd_is_subtitle rd) = true).
  { unfold is_selected in Hs. destruct (rd_is_subtitle rd) as [[]|]; congruence || reflexivity. }
  rewrite D. unfold is_complete. rewrite half_duration_eq.
  destruct (rd_frame_no rd) as [f|] eqn:Ef;
    [|right; split; [left; intros (C & _); now destruct C|reflexivity]].
  cbn [mbind option_bind].
  destruct (Py.int_of_float (Py.float_mul fps (5 # 2))) as [d|] eqn:Ed;
    [|right; split; [now right|reflexivity]].
  cbn [mbind option_bind option_map].
  destruct (rd_x rd) as [x0|] eqn:Ex;
    [|right; split; [left; intros (_ & C & _); now destruct C|reflexivity]].
  destruct (rd_y rd) as [y0|] eqn:Ey;
    [|right; split; [left; intros (_ & _ & C & _); now destruct C|reflexivity]].
  destruct (rd_width rd) as [w0|] eqn:Ew;
    [|right; split; [left; intros (_ & _ & _ & C & _); now destruct C|reflexivity]].
  destruct (rd_height rd) as [h0|] eqn:Eh;
    [|right; split; [left; intros (_ & _ & _ & _ & C & _); now destruct C|reflexivity]].
  destruct (rd_confidence rd) as [c0|] eqn:Ec;
    [|right; split; [left; intros (_ & _ & _ & _ & _ & C); now destruct C|reflexivity]].
  left. split; [repeat split; eauto|]. split; [eauto|].
  eexists. split; [reflexivity|].
  split; [exact Hs|]. exists f, (d / 2).
  rewrite Ef, Ex, Ey, Ew, Eh, half_duration_eq, Ed. repeat split.
Qed.

Lemma is_selected_dec rd : {is_selected rd} + {rd_is_subtitle rd = Some false}.
Proof.
  unfold is_selected. destruct (rd_is_subtitle rd) as [[]|];
    [left; discriminate|right; reflexivity|left; discriminate].
Qed.

Lemma timed_region_loop_Some total fps data : forall acc out,
  timed_region_loop total fps acc data = Some out ->
  exists built,
    out = acc ++ built /\
    Forall (fun r => exists rd, rd ∈ data /\ built_from total fps rd r) built.
Proof.
  induction data as [|rd data IH]; intros acc out E; cbn [timed_region_loop] in E.
  - injection E as <-. exists []. split; [now rewrite app_nil_r|constructor].
  - destruct (is_selected_dec rd) as [Hs|Hn].
    + destruct (timed_region_step_selected total fps acc rd Hs)
        as [(_ & _ & r & Er & Hb)|(_ & Er)]; rewrite Er in E; [|discriminate].
      cbn [mbind option_bind] in E.
      destruct (IH _ _ E) as (built & -> & F).
      exists (r :: built). split; [now rewrite <- app_assoc|].
      constructor.
      * exists rd. split; [left|exact Hb].
      * eapply Forall_impl; [exact F|]. intros r' (rd' & Hin & Hb').
        exists rd'. split; [now right|exact Hb'].
    + rewrite (timed_region_step_skip _ _ _ _ Hn) in E. cbn [mbind option_bind] in E.
      destruct (IH _ _ E) as (built & -> & F).
      exists built. split; [reflexivity|].
      eapply Forall_impl; [exact F|]. intros r' (rd' & Hin & Hb').
      exists rd'. split; [now right|exact Hb'].
Qed.

Lemma timed_region_loop_None total fps data : forall acc,
  timed_region_loop total fps acc data = None <->
  exists rd, rd ∈ data /\ is_selected rd /\
             (~ is_complete rd \/ half_duration fps = None).
Proof.
  induction data as [|rd data IH]; intros acc; cbn [timed_region_loop].
  - split; [discriminate|]. intros (rd & Hin & _). inversion Hin.
  - destruct (is_selected_dec rd) as [Hs|Hn].
    + destruct (timed_region_step_selected total fps acc rd Hs)
        as [(Hc & [k Hk] & r & Er & Hb)|(Hc & Er)]; rewrite Er; cbn [mbind option_bind].
      * rewrite IH. split.
        -- intros (rd' & Hin & H). exists rd'. split; [now right|exact H].
        -- intros (rd' & Hin & Hs' & Hc'). apply elem_of_cons in Hin as [->|Hin];
             [destruct Hc' as [Hc'|Hc']; [contradiction|congruence]|].
           now exists rd'.
      * split; [|reflexivity]. intros _. exists rd. split; [left|]. now split.
    + rewrite (timed_region_step_skip _ _ _ _ Hn). cbn [mbind option_bind].
      rewrite IH. split.
      * intros (rd' & Hin & H). exists rd'. split; [now right|exact H].
      * intros (rd' & Hin & Hs' & Hc'). apply elem_of_cons in Hin as [->|Hin].
        -- unfold is_selected in Hs'. contradiction.
        -- now exists rd'.
Qed.

Lemma analysis_of_result_None total fps result :
  analysis_of_result total fps result = None <-> unusable fps result.
Proof.
  unfold analysis_of_result, unusable.
  destruct (timed_region_loop total fps [] (default [] (r_timed_regions result)))
    as [pre|] eqn:L.
  - cbn [mbind option_bind].
    assert (N : ~ exists rd, rd ∈ default [] (r_timed_regions result) /\
                             is_selected rd /\
                             (~ is_complete rd \/ half_duration fps = None)).
    { intros H. apply (timed_region_loop_None total fps _ []) in H. congruence. }
    destruct (r_has_subtitles result); cbn [mbind option_bind];
      [|split; [intros _; right; now left|reflexivity]].
    destruct (r_subtitle_type result); cbn [mbind option_bind];
      [|split; [intros _; right; now right|reflexivity]].
    split; [discriminate|]. intros [H|[H|H]]; [contradiction|discriminate..].
  - cbn [mbind option_bind]. split; [|reflexivity].
    intros _. left. now apply (timed_region_loop_None total fps _ []).
Qed.

Lemma window_bounds total k f :
  0 <= fst (window_of total k f) /\ snd (window_of total k f) <= total - 1.
Proof. unfold window_of. cbn [fst snd]. lia. Qed.

Lemma window_contains total k f :
  0 <= k -> 0 <= f <= total - 1 ->
  fst (window_of total k f) <= f <= snd (window_of total k f).
Proof. intros Hk Hf. unfold window_of. cbn [fst snd]. lia. Qed.

(** When the conversion of a parsed Gemini result succeeds, the analysis
    carries the flag of the result and the frame count and rate of the
    video; its regions are in start-frame order with no two neighbours that
    could still be merged; every region starts at or after frame 0 and ends
    at or before the last frame, and has the box of a region record of the
    result that was not flagged as a non-subtitle, unclipped.  When moreover
    the frame rate is not negative and the frame numbers of the records lie
    in the video, every region has [start_frame <= end_frame]. *)
Theorem timed_analysis_of_result
  (total : Z) (rate : Q) (result : Result) (analysis : TimedSubtitleAnalysis)
  (Hparsed : analysis_of_result total rate result = Some analysis) :
  let data := default [] (r_timed_regions result) in
  r_has_subtitles result = Some (has_subtitles analysis) /\
  total_frames analysis = total /\ fps analysis = rate /\
  ascending (timed_regions analysis) /\
  settled default_time_threshold (timed_regions analysis) /\
  Forall (fun r =>
            0 <= start_frame r /\ end_frame r <= total - 1 /\
            exists rd, rd ∈ data /\ is_selected rd /\
                       rd_x rd = Some (x r) /\ rd_y rd = Some (y r) /\
                       rd_width rd = Some (width r) /\ rd_height rd = Some (height r))
         (timed_regions analysis) /\
  ((0 <= rate)%Q ->
   (forall rd f, rd ∈ data -> is_selected rd -> rd_frame_no rd = Some f ->
                 0 <= f <= total - 1) ->
   Forall (fun r => start_frame r <= end_frame r) (timed_regions analysis)).
Proof.
  intros data. unfold analysis_of_result in Hparsed. fold data in Hparsed.
  destruct (timed_region_loop total rate [] data) as [pre|] eqn:L; [|discriminate].
  destruct (r_has_subtitles result) as [hs|]; [|discriminate].
  destruct (r_subtitle_type result) as [ty|]; [|discriminate].
  cbn [mbind option_bind] in Hparsed. injection Hparsed as <-.
  cbn [has_subtitles total_frames fps timed_regions merge_overlapping_regions].
  destruct (timed_region_loop_Some _ _ _ _ _ L) as (built & -> & F).
  cbn [app] in *.
  pose proof (MergeRangeFacts.merge_regions_taken_from default_time_threshold built) as T.
  split; [reflexivity|]. split; [reflexivity|]. split; [reflexivity|].
  split; [apply MergeFacts.merge_regions_ascending|].
  split; [apply MergeFacts.merge_regions_settled|].
  rewrite List.Forall_forall in F.
  split.
  - eapply Forall_impl; [exact T|]. cbv beta.
    intros m (a & b & Ha & Hb & (Ks & Kx & Ky & Kw & Kh) & Ke & Hab).
    apply list_elem_of_In in Ha, Hb.
    destruct (F a Ha) as (rda & Hina & Hsa & fa & ka & Efa & Eka & Wa & Xa & Ya & Wda & Hta).
    destruct (F b Hb) as (rdb & Hinb & Hsb & fb & kb & Efb & Ekb & Wb & _).
    pose proof (window_bounds total ka fa) as [Ba _].
    pose proof (window_bounds total kb fb) as [_ Bb].
    rewrite <- Wa in Ba. rewrite <- Wb in Bb. cbn [fst snd] in Ba, Bb.
    split; [lia|]. split; [lia|].
    exists rda. rewrite Kx, Ky, Kw, Kh. repeat split; assumption.
  - intros Hrate Hrange.
    eapply Forall_impl; [exact T|]. cbv beta.
    intros m (a & b & Ha & Hb & (Ks & _) & Ke & Hab).
    apply list_elem_of_In in Hb.
    destruct (F b Hb) as (rdb & Hinb & Hsb & fb & kb & Efb & Ekb & Wb & _).
    pose proof (window_contains total kb fb (window_half_nonneg rate kb Hrate Ekb)
                  (Hrange rdb fb Hinb Hsb Efb)) as C.
    rewrite <- Wb in C. cbn [fst snd] in C. lia.
Qed.

Lemma timed_analysis_of_result_witness :
  let rd := fun f xx => mkRegionData None (Some f) (Some xx) (Some 900) (Some 800)
                                     (Some 100) (Some (9 # 10)) None in
  let result := mkResult (Some [rd 100 100; rd 30 105; rd 400 500])
                         (Some true) (Some "hard") in
  exists analysis,
    analysis_of_result 1000 25 result = Some analysis /\
    map (fun r => (start_frame r, end_frame r, x r)) (timed_regions analysis)
      = [(0, 131, 105); (369, 431, 500)] /\
    Forall (fun r => start_frame r <= end_frame r) (timed_regions analysis).
Proof.
  intros rd result.
  assert (E : exists analysis, analysis_of_result 1000 25 result = Some analysis).
  { eexists. vm_compute. reflexivity. }
  destruct E as [analysis E]. exists analysis. split; [exact E|].
  split; [injection E as <-; vm_compute; reflexivity|].
  destruct (timed_analysis_of_result 1000 25 result analysis E) as (_ & _ & _ & _ & _ & _ & W).
  apply W.
  - vm_compute. discriminate.
  - intros rd' f Hin _ Ef. cbn [default r_timed_regions result] in Hin.
    repeat (apply elem_of_cons in Hin as [->|Hin];
            [cbn in Ef; injection Ef as <-; lia|]).
    inversion Hin.
Defined.

(** [_parse_timed_response] on a list of chunks whose JSON values have the
    types that the prompt asks for: it never raises, and the text of the
    first part of the first candidate of the first chunk decides the result
    (["{}"] when that part has no text).  The default analysis (no
    subtitles, no regions) is returned when the response is empty, when the
    first chunk has no candidate, when the first candidate has no content or
    its content no part, when the text is not the JSON of an object, and
    when the conversion of the parsed object cannot succeed; in every other
    case the converted analysis is returned.  The conversion is all or
    nothing: it cannot succeed exactly when some region record that is not
    flagged as a non-subtitle lacks one of the keys frame_no, x, y, width,
    height, confidence or meets a product [fps * 2.5] that is infinite, or
    the object lacks has_subtitles or subtitle_type; records flagged with
    is_subtitle = false are skipped and need no key. *)
Theorem timed_response_all_or_nothing
  (json_loads : string -> option Result) (total : Z) (rate : Q) :
  let parse := fun response => _parse_timed_response json_loads response total rate in
  parse [] = default_analysis total rate /\
  (forall chunk chunks,
     chunk_candidates chunk = None \/ chunk_candidates chunk = Some [] ->
     parse (chunk :: chunks) = default_analysis total rate) /\
  (forall candidate candidates chunks,
     candidate_content candidate = None \/
     candidate_content candidate = Some (mkContent None) \/
     candidate_content candidate = Some (mkContent (Some [])) ->
     parse (response_of candidate candidates chunks) = default_analysis total rate) /\
  (forall text parts candidates chunks,
     let analysis := parse (response_of (candidate_of text parts) candidates chunks) in
     match json_loads (default "{}" text) with
     | None => analysis = default_analysis total rate
     | Some result =>
         (unusable rate result -> analysis = default_analysis total rate) /\
         (~ unusable rate result ->
          analysis_of_result total rate result = Some analysis)
     end).
Proof.
  intros parse. subst parse. cbv beta.
  split; [reflexivity|]. split; [|split].
  - intros chunk chunks [E|E]; unfold _parse_timed_response; now rewrite E.
  - intros candidate candidates chunks [E|[E|E]];
      unfold _parse_timed_response, response_of; simpl;
      now rewrite E.
  - intros text parts candidates chunks analysis. subst analysis.
    unfold _parse_timed_response, response_of, candidate_of.
    change (default [] (chunk_candidates (mkChunk (Some
              (mkCandidate (Some (mkContent (Some (mkPart text :: parts)))) :: candidates)))))
      with (mkCandidate (Some (mkContent (Some (mkPart text :: parts)))) :: candidates).
    cbv iota beta zeta.
    change (default [] (content_parts (default (mkContent None) (candidate_content
              (mkCandidate (Some (mkContent (Some (mkPart text :: parts)))))))))
      with (mkPart text :: parts).
    cbv iota beta.
    change (part_text (mkPart text)) with text.
    destruct (json_loads (default "{}" text)) as [result|] eqn:J; [|reflexivity].
    cbn [mbind option_bind].
    pose proof (analysis_of_result_None total rate result) as N.
    destruct (analysis_of_result total rate result) as [a|] eqn:A.
    + split; [|reflexivity].
      intros U. apply N in U. discriminate.
    + split; [reflexivity|]. intros U. exfalso. apply U, N. reflexivity.
Qed.

(** A response in which the first part carries the text: the analysis
    converted from the parsed object is returned, widened by
    [int(62.5) // 2 = 31] frames on each side of the frame number. *)
Example _parse_timed_response_example :
  let json_loads := fun text : string =>
    if String.eqb text "{...}"
    then Some (mkResult
                 (Some [mkRegionData None (Some 100) (Some 100) (Some 900) (Some 800)
                                     (Some 100) (Some (9 # 10)) None;
                        mkRegionData (Some false) None None None None None None None])
                 (Some true) (Some "hard"))
    else None in
  let response text := response_of (candidate_of text []) [] [] in
  map (fun r => (start_frame r, end_frame r, x r))
      (timed_regions (_parse_timed_response json_loads (response (Some "{...}")) 1000 25))
    = [(69, 131, 100)] /\
  _parse_timed_response json_loads (response None) 1000 25 = default_analysis 1000 25 /\
  _parse_timed_response json_loads (response (Some "{...}")) 1000 (inject_Z (2 ^ 1023))
    = default_analysis 1000 (inject_Z (2 ^ 1023)).
Proof. repeat split; vm_compute; reflexivity. Qed.

End GeminiFacts.
